(** * convNEAT: a shallow embedding of the genome model and its mutation operators

    The development follows the two source files of the repository:

    - [ConvNEAT.py], the self-contained prototype: the random helpers, the
      gene classes ([KernelGene], [PoolGene], [DenseGene]), [Node], and
      [Population] with its id generator;
    - [genome.py], the refactored [Genome]: identity maps, depth-first search,
      edge disabling and enabling, edge splitting with the innovation cache,
      edge adding, saving and loading of genomes, the grouping of the nodes
      into layers and the dissimilarity measure.

    Conventions of the embedding.

    - Python integers are [Z]; floor division [//] is [Z.div] (both round
      towards minus infinity for a positive divisor), and a division by zero,
      which raises in Python, is an explicit error.
    - Node depths are Python floats, that is binary64 values.  A finite float
      is carried as the rational it denotes, so depths are in [Q] and their
      comparisons ([Qlt], [Qeq]) are the comparisons of the floats; the float
      arithmetic of [split_edge] rounds as binary64 does, through the Standard
      Library's specification of IEEE 754 arithmetic ([SpecFloat]).
    - Every value drawn from [random] is an explicit argument of the function
      that draws it, so a statement quantified over these arguments speaks
      about every possible run.
    - A method that mutates [self] becomes a function returning the new
      object; a method that can raise returns an explicit error. *)

From Stdlib Require Import ZArith QArith Qminmax Lia Lqa Bool List Sorted.
From Stdlib Require SpecFloat.
From stdpp Require Import base option list gmap.

Local Open Scope Z_scope.

(** ** Random helpers *)

(** [random.choice(seq)]: some element of [seq]; [None] stands for the
    [IndexError] raised on an empty sequence.  [r] is the drawn index. *)
Definition choice {A : Type} (r : nat) (l : list A) : option A :=
  l !! (r mod length l)%nat.

(** [random.randrange(a, b)] with drawn offset [r]. *)
Definition randrange (r : nat) (a b : Z) : Z :=
  a + Z.of_nat r mod (b - a).

(** [weighted_choice(choices, weights)] ([random.choices(...)[0]]): an element
    whose weight is positive; [None] when no weight is positive (Python raises). *)
Definition weighted_choice {A : Type} (r : nat) (choices : list A) (weights : list Z)
  : option A :=
  choice r (fst <$> filter (fun cw => 0 <? snd cw) (zip choices weights)).

(** [random_choices(choices, chances)]: every element is kept or dropped by
    its own trial; [mask] holds the outcomes of the trials. *)
Definition random_choices {A : Type} (mask : list bool) (choices : list A) : list A :=
  fst <$> filter (fun cm => snd cm : bool) (zip choices mask).

(** [random.choice([-2, -1, 1, 2])], the step of every nudge mutator. *)
Definition nudge (r : nat) : Z :=
  default 0 (choice r [-2; -1; 1; 2]).

(** [x or d] on an optional integer: [None] and [0] are both falsy. *)
Definition py_or (x : option Z) (d : Z) : Z :=
  match x with
  | Some v => if v =? 0 then d else v
  | None => d
  end.

(** [x if x is not None else d]. *)
Definition if_not_None (x : option Z) (d : Z) : Z :=
  match x with
  | Some v => v
  | None => d
  end.

(** ** Gene classes of [ConvNEAT.py] *)

Inductive GeneClass := KernelGeneC | PoolGeneC | DenseGeneC.

Inductive Pooling := pool_max | pool_avg.
Inductive Activation := relu | tanh.

#[global] Instance Pooling_eq_dec : EqDecision Pooling.
Proof. solve_decision. Defined.
#[global] Instance Activation_eq_dec : EqDecision Activation.
Proof. solve_decision. Defined.

(** Errors raised by the modelled code. *)
Inductive Error :=
  | ZeroDivisionError
  | ValueError
  | KeyError
  | IndexError
  | TypeError
  | RecursionError.

(** A call that raises ends the computation with its error. *)
#[global] Instance error_bind : MBind (sum Error) :=
  fun A B f x => match x with inl e => inl e | inr a => f a end.

Module KernelGene.

(** The fields a [KernelGene] adds to [Gene]. *)
Record t := mk {
  depth : Z;
  width : Z;
  height : Z;
  stride : Z;
  padding : Z
}.

Definition init_depth : Z := 1.
Definition init_width (r : nat) : Z := randrange r 3 6.
Definition init_height (r : nat) : Z := randrange r 3 6.
Definition init_stride : Z := 1.
Definition init_padding : Z := 0.

Definition init_mutate_to : list GeneClass * list Z :=
  ([KernelGeneC; PoolGeneC; DenseGeneC], [1; 2; 0]).

(** [__init__]; [rw] and [rh] are the draws of [init_width], [init_height]. *)
Definition init (size : option Z * option Z * option Z)
    (stride padding : option Z) (rw rh : nat) : t :=
  let '(d, w, h) := size in
  {| depth := py_or d init_depth;
     width := py_or w (init_width rw);
     height := py_or h (init_height rh);
     stride := py_or stride init_stride;
     padding := if_not_None padding init_padding |}.

Definition mutate_depth (r : nat) (self : t) : t :=
  mk (Z.max 1 (depth self + nudge r)) (width self) (height self) (stride self) (padding self).

Definition mutate_width (r : nat) (self : t) : t :=
  mk (depth self) (Z.max 1 (width self + nudge r)) (height self) (stride self) (padding self).

Definition mutate_height (r : nat) (self : t) : t :=
  mk (depth self) (width self) (Z.max 1 (height self + nudge r)) (stride self) (padding self).

Definition mutate_size (r : nat) (self : t) : t :=
  let d := nudge r in
  mk (depth self) (Z.max 1 (width self + d)) (Z.max 1 (height self + d))
     (stride self) (padding self).

(** The body assigns [self.depth]. *)
Definition mutate_stride (r : nat) (self : t) : t :=
  mk (Z.max 1 (depth self + nudge r)) (width self) (height self) (stride self) (padding self).

(** The body assigns [self.depth]. *)
Definition mutate_padding (r : nat) (self : t) : t :=
  mk (Z.max 1 (depth self + nudge r)) (width self) (height self) (stride self) (padding self).

(** [mutate_random]: [mask] are the six trials of [random_choices], [rs]
    the draws of the mutators in their order. *)
Definition mutate_random (mask : list bool) (rs : nat -> nat) (self : t) : t :=
  let mutations :=
    random_choices mask
      [mutate_depth (rs 0%nat); mutate_width (rs 1%nat); mutate_height (rs 2%nat);
       mutate_size (rs 3%nat); mutate_stride (rs 4%nat); mutate_padding (rs 5%nat)] in
  fold_left (fun g mutate => mutate g) mutations self.

(** [output_size]: the unpacking of [in_size] needs three entries, and
    [//] raises on a zero stride. *)
Definition output_size (self : t) (in_size : list Z) : Error + list Z :=
  match in_size with
  | [in_depth; in_width; in_height] =>
      if stride self =? 0 then inl ZeroDivisionError
      else
        let out_depth := depth self in
        let out_width := (in_width - width self + 2 * padding self - 1) / stride self + 1 in
        let out_height := (in_height - height self + 2 * padding self - 1) / stride self + 1 in
        inr [out_depth; out_width; out_height]
  | _ => inl ValueError
  end.

(** [copy] goes through [__init__], so a falsy field is drawn afresh. *)
Definition copy (rw rh : nat) (self : t) : t :=
  init (Some (depth self), Some (width self), Some (height self))
       (Some (stride self)) (Some (padding self)) rw rh.

End KernelGene.

Module PoolGene.

Record t := mk {
  pooling : Pooling;
  width : Z;
  height : Z;
  padding : Z
}.

Definition possible_pooling : list Pooling := [pool_max; pool_avg].

Definition init_pooling (r : nat) : Pooling := default pool_max (choice r possible_pooling).
Definition init_width (r : nat) : Z := randrange r 3 6.
Definition init_height (r : nat) : Z := randrange r 3 6.
Definition init_padding : Z := 0.

Definition init_mutate_to : list GeneClass * list Z :=
  ([KernelGeneC; PoolGeneC; DenseGeneC], [4; 1; 0]).

Definition init (pooling : option Pooling) (size : option Z * option Z)
    (padding : option Z) (rp rw rh : nat) : t :=
  let '(w, h) := size in
  {| pooling := default (init_pooling rp) pooling;
     width := py_or w (init_width rw);
     height := py_or h (init_height rh);
     padding := if_not_None padding init_padding |}.

Definition mutate_pooling (r : nat) (self : t) : t :=
  mk (default (pooling self)
        (choice r (filter (fun x => x <> pooling self) possible_pooling)))
     (width self) (height self) (padding self).

Definition mutate_width (r : nat) (self : t) : t :=
  mk (pooling self) (Z.max 1 (width self + nudge r)) (height self) (padding self).

Definition mutate_height (r : nat) (self : t) : t :=
  mk (pooling self) (width self) (Z.max 1 (height self + nudge r)) (padding self).

Definition mutate_size (r : nat) (self : t) : t :=
  let d := nudge r in
  mk (pooling self) (Z.max 1 (width self + d)) (Z.max 1 (height self + d)) (padding self).

Definition mutate_padding (r : nat) (self : t) : t :=
  mk (pooling self) (width self) (height self) (Z.max 1 (padding self + nudge r)).

Definition mutate_random (mask : list bool) (rs : nat -> nat) (self : t) : t :=
  let mutations :=
    random_choices mask
      [mutate_pooling (rs 0%nat); mutate_width (rs 1%nat); mutate_height (rs 2%nat);
       mutate_size (rs 3%nat); mutate_padding (rs 4%nat)] in
  fold_left (fun g mutate => mutate g) mutations self.

Definition output_size (self : t) (in_size : list Z) : Error + list Z :=
  match in_size with
  | [in_depth; in_width; in_height] =>
      inr [in_depth;
           in_width - width self + 2 * padding self;
           in_height - height self + 2 * padding self]
  | _ => inl ValueError
  end.

Definition copy (rp rw rh : nat) (self : t) : t :=
  init (Some (pooling self)) (Some (width self), Some (height self))
       (Some (padding self)) rp rw rh.

End PoolGene.

Module DenseGene.

Record t := mk {
  size_change : Z;
  activation : Activation
}.

Definition possible_activations : list Activation := [relu; tanh].

(** [list(range(-10, -4)) + list(range(5, 11))]. *)
Definition size_changes : list Z := [-10; -9; -8; -7; -6; -5; 5; 6; 7; 8; 9; 10].

Definition init_size_change (r : nat) : Z := default 0 (choice r size_changes).
Definition init_activation (r : nat) : Activation :=
  default relu (choice r possible_activations).

Definition init_mutate_to : list GeneClass * list Z :=
  ([KernelGeneC; PoolGeneC; DenseGeneC], [0; 0; 1]).

Definition init (size_change : option Z) (activation : option Activation)
    (rs ra : nat) : t :=
  {| size_change := py_or size_change (init_size_change rs);
     activation := default (init_activation ra) activation |}.

Definition mutate_size_change (r : nat) (self : t) : t :=
  mk (size_change self + default 0 (choice r size_changes)) (activation self).

Definition mutate_activation (r : nat) (self : t) : t :=
  mk (size_change self)
     (default (activation self)
        (choice r (filter (fun x => x <> activation self) possible_activations))).

Definition output_size (self : t) (in_size : list Z) : Error + list Z :=
  match in_size with
  | d :: w :: h :: _ => inr [d; w; h + size_change self]
  | _ => inl IndexError
  end.

Definition copy (rs ra : nat) (self : t) : t :=
  init (Some (size_change self)) (Some (activation self)) rs ra.

End DenseGene.

(** ** Genes as edges, nodes *)

(** The draws a constructor of a gene class may need (at most three). *)
Record InitDraws := mkInitDraws {
  draw1 : nat;
  draw2 : nat;
  draw3 : nat
}.

Module Gene.

(** What a subclass adds to the base class. *)
Inductive Payload :=
  | Kernel (k : KernelGene.t)
  | Pool (p : PoolGene.t)
  | Dense (d : DenseGene.t).

(** A gene object of one of the three subclasses.  [enabled] is the only
    field the genome operations assign after construction. *)
Record t := mk {
  id : Z;
  id_in : Z;
  id_out : Z;
  enabled : bool;
  payload : Payload
}.

(** An instance of the base class [Gene] itself, with its own [mutate_to]. *)
Record Abstract := mkAbstract {
  a_id : Z;
  a_id_in : Z;
  a_id_out : Z;
  a_enabled : bool;
  a_mutate_to : list GeneClass * list Z
}.

Definition init_mutate_to : list GeneClass * list Z :=
  ([KernelGeneC; DenseGeneC], [1; 1]).

(** [Gene.__init__]: [mutate_to or self.init_mutate_to()]. *)
Definition init (id id_in id_out : Z) (mutate_to : option (list GeneClass * list Z))
  : Abstract :=
  mkAbstract id id_in id_out true (default init_mutate_to mutate_to).

(** The call [cls(id, id_in, id_out)] of a gene class with default arguments. *)
Definition construct (cls : GeneClass) (d : InitDraws) (id id_in id_out : Z) : t :=
  mk id id_in id_out true
     match cls with
     | KernelGeneC =>
         Kernel (KernelGene.init (None, None, None) None None (draw1 d) (draw2 d))
     | PoolGeneC =>
         Pool (PoolGene.init None (None, None) None (draw1 d) (draw2 d) (draw3 d))
     | DenseGeneC =>
         Dense (DenseGene.init None None (draw1 d) (draw2 d))
     end.

(** The [mutate_to] attribute of a subclass instance. *)
Definition mutate_to (self : t) : list GeneClass * list Z :=
  match payload self with
  | Kernel _ => KernelGene.init_mutate_to
  | Pool _ => PoolGene.init_mutate_to
  | Dense _ => DenseGene.init_mutate_to
  end.

(** [Gene.mutate_random] of the base class: the gene becomes an instance of
    a class drawn from [mutate_to]. *)
Definition mutate_random (rc : nat) (d : InitDraws) (self : Abstract) : option t :=
  cls ← weighted_choice rc (a_mutate_to self).1 (a_mutate_to self).2;
  Some (construct cls d (a_id self) (a_id_in self) (a_id_out self)).

(** [add_after]: a fresh gene of a class drawn from [mutate_to]. *)
Definition add_after (rc : nat) (d : InitDraws) (self : t) (id id_in id_out : Z)
  : option t :=
  cls ← weighted_choice rc (mutate_to self).1 (mutate_to self).2;
  Some (construct cls d id id_in id_out).

(** [copy(id, id_in, id_out)] of the three subclasses. *)
Definition copy (d : InitDraws) (self : t) (id id_in id_out : Z) : t :=
  mk id id_in id_out true
     match payload self with
     | Kernel k => Kernel (KernelGene.copy (draw1 d) (draw2 d) k)
     | Pool p => Pool (PoolGene.copy (draw1 d) (draw2 d) (draw3 d) p)
     | Dense x => Dense (DenseGene.copy (draw1 d) (draw2 d) x)
     end.

Definition output_size (self : t) (in_size : list Z) : Error + list Z :=
  match payload self with
  | Kernel k => KernelGene.output_size k in_size
  | Pool p => PoolGene.output_size p in_size
  | Dense d => DenseGene.output_size d in_size
  end.

(** The assignment [gene.enabled = b]. *)
Definition set_enabled (b : bool) (self : t) : t :=
  mk (id self) (id_in self) (id_out self) b (payload self).

End Gene.

Inductive Role := role_input | role_flatten | role_output.
Inductive Merge := upscale | downscale | padding | avgscale.

Module Node.

Record t := mk {
  id : Z;
  depth : Q;
  role : option Role;
  merge : Merge;
  size : option (list Z)
}.

Definition possible_merges : list Merge := [upscale; downscale; padding; avgscale].

Definition init_merge (r : nat) : Merge := default upscale (choice r possible_merges).

(** [Node(id, depth, merge=None, role=None)]; [r] is the draw of [init_merge]. *)
Definition init (id : Z) (depth : Q) (merge : option Merge) (role : option Role)
    (r : nat) : t :=
  mk id depth role (default (init_merge r) merge) None.

End Node.

(** ** The prototype [Genome] and [Population] of [ConvNEAT.py] *)

Module Population.

(** [itertools.count()]: the state of the generator is its next value. *)
Definition count : Z := 0.

(** The prototype genome: its genes start as instances of the base class. *)
Record Genome := mkGenome {
  log_learning_rate : Q;
  nodes : list Node.t;
  genes : list (Gene.Abstract + Gene.t)
}.

Definition init_genome (r0 r1 r2 : nat) : list Node.t * list (Gene.Abstract + Gene.t) :=
  ([Node.init 0 0 None None r0; Node.init 1 1 None (Some role_flatten) r1;
    Node.init 2 2 None None r2],
   [inl (Gene.init 3 0 1 (Some ([KernelGeneC; DenseGeneC], [1; 0])));
    inl (Gene.init 4 1 2 (Some ([KernelGeneC; DenseGeneC], [0; 1])))]).

(** The draws of one [Genome(population)]: the learning rate and three merges. *)
Record GenomeDraws := mkGenomeDraws {
  d_rate : Q;
  d_merge0 : nat;
  d_merge1 : nat;
  d_merge2 : nat
}.

(** [Genome.__init__(population)]: no id is requested from the population. *)
Definition Genome_init (d : GenomeDraws) : Genome :=
  let '(ns, gs) := init_genome (d_merge0 d) (d_merge1 d) (d_merge2 d) in
  mkGenome (d_rate d) ns gs.

Record t := mk {
  id_generator : Z;
  genomes : list Genome
}.

(** [next_id]: [next(self.id_generator)], the issued id and the new state. *)
Definition next_id (self : t) : Z * t :=
  (id_generator self, mk (id_generator self + 1) (genomes self)).

(** [[f() for f in [self.next_id]*k]]: [k] successive calls, results in order. *)
Fixpoint next_ids (k : nat) (self : t) : list Z * t :=
  match k with
  | O => ([], self)
  | S k' =>
      let '(i, self') := next_id self in
      let '(rest, self'') := next_ids k' self' in
      (i :: rest, self'')
  end.

(** [Population.__init__(n, evaluate_genome)]; [draws] are the draws of the
    [n] genomes it creates ([length draws = n]). *)
Definition init (draws : list GenomeDraws) : t :=
  let self := mk count [] in
  let '(_, self) := next_ids 5 self in
  mk (id_generator self) (Genome_init <$> draws).

End Population.

(** ** What [genome.py] imports from modules outside the sources

    [genome.py] imports [tools], [node], [gene] and [optimizer].  The helpers
    and the classes that [ConvNEAT.py] also defines are taken from there
    (above).  What no source file defines is collected here as an interface:
    the optimizer genes, the [save]/[load] states, the [dissimilarity]
    methods of nodes and genes, and [limited_growth]. *)

Inductive OptimizerClass := SGDGene | ADAMGene.

(** A float that may be [float('inf')]. *)
Inductive PyFloat :=
  | finite (q : Q)
  | inf.

Class Imported := {
  Optimizer : Type;
  OptimizerState : Type;
  NodeState : Type;
  GeneState : Type;
  NetParameters : Type;
  (** [cls().load(state)] of an optimizer class *)
  Optimizer_load : OptimizerClass -> OptimizerState -> Optimizer;
  Optimizer_dissimilarity : Optimizer -> Optimizer -> Q;
  (** [Node(id, depth).load(state)] *)
  Node_load : Z -> Q -> NodeState -> Node.t;
  (** [cls(id, id_in, id_out).load(state)] of a gene class *)
  Gene_load : GeneClass -> Z -> Z -> Z -> GeneState -> Gene.t;
  Node_dissimilarity : Node.t -> Node.t -> Q;
  Gene_dissimilarity : Gene.t -> Gene.t -> Q;
  limited_growth : Q -> Q -> Q -> Q
}.

(** An instance with trivial states, to run the model on concrete genomes. *)
Definition trivial_imports : Imported := {|
  Optimizer := OptimizerClass;
  OptimizerState := unit;
  NodeState := unit;
  GeneState := unit;
  NetParameters := unit;
  Optimizer_load := fun cls _ => cls;
  Optimizer_dissimilarity := fun _ _ => 0%Q;
  Node_load := fun id depth _ => Node.init id depth None None 0;
  Gene_load := fun cls id id_in id_out _ =>
    Gene.construct cls (mkInitDraws 0 0 0) id id_in id_out;
  Node_dissimilarity := fun _ _ => 0%Q;
  Gene_dissimilarity := fun _ _ => 0%Q;
  limited_growth := fun x _ _ => x
|}.

(** ** Helpers on lists and sets used by [Genome] *)

(** The positions at which [l] holds an element satisfying [p]. *)
Definition positions {A : Type} (p : A -> bool) (l : list A) : list nat :=
  fst <$> filter (fun ix => p (snd ix) : bool) (imap pair l).

(** [random.sample(l, 2)]: two elements at distinct positions; [None] stands
    for the [ValueError] raised when [l] has fewer than two elements. *)
Definition sample2 {A : Type} (r : nat * nat) (l : list A) : option (A * A) :=
  let n := length l in
  if (n <? 2)%nat then None
  else
    let i := (fst r mod n)%nat in
    let j0 := (snd r mod (n - 1))%nat in
    let j := if (j0 <? i)%nat then j0 else S j0 in
    a ← l !! i; b ← l !! j; Some (a, b).

(** [max(s)] of a set of integers; [None] stands for the [ValueError] raised
    on the empty set. *)
Definition set_max (s : gset Z) : option Z :=
  foldr (fun x acc => Some (match acc with Some m => Z.max x m | None => x end))
        None (elements s).

(** [s1 ^ s2]. *)
Definition symmetric_difference (s1 s2 : gset Z) : gset Z :=
  (s1 ∖ s2) ∪ (s2 ∖ s1).

(** [sum([f(x) for x in l])] over the rationals. *)
Definition Qsum {A : Type} (f : A -> Q) (l : list A) : Q :=
  foldr (fun x acc => (f x + acc)%Q) 0%Q l.

(** ** Float arithmetic

    Python's [float] is IEEE 754 binary64: 53 bits of precision, round to
    nearest with ties to even.  [SpecFloat] of the Standard Library defines
    these operations on [spec_float]; [53] and [1024] are the precision and
    the exponent bound of binary64. *)

(** The binary64 value nearest to [m * 2^e]. *)
Definition binary64 (m e : Z) : SpecFloat.spec_float :=
  SpecFloat.binary_normalize 53 1024 m e false.

(** The float that carries the rational [q]: [q] itself when [q] is a
    binary64 value (then its denominator is a power of two), and
    [float(n) / float(d)] for another fraction [n / d]. *)
Definition float_of_Q (q : Q) : SpecFloat.spec_float :=
  let d := Z.pos (Qden q) in
  let k := Z.log2 d in
  if d =? 2 ^ k then binary64 (Qnum q) (- k)
  else SpecFloat.SFdiv 53 1024 (binary64 (Qnum q) 0) (binary64 d 0).

(** The rational that a finite float denotes, in lowest terms.  Infinities
    and NaN denote no rational; they do not arise from the depths of a
    genome, which lie between 0 and 2. *)
Definition Q_of_float (f : SpecFloat.spec_float) : Q :=
  match f with
  | SpecFloat.S754_finite s m e =>
      let n := if s then Z.neg m else Z.pos m in
      Qred (if 0 <=? e then inject_Z (n * 2 ^ e) else n # Z.to_pos (2 ^ (- e)))
  | _ => 0%Q
  end.

(** [a + b], [a - b] and [a / b] on floats. *)
Definition float_add (a b : Q) : Q :=
  Q_of_float (SpecFloat.SFadd 53 1024 (float_of_Q a) (float_of_Q b)).

Definition float_sub (a b : Q) : Q :=
  Q_of_float (SpecFloat.SFsub 53 1024 (float_of_Q a) (float_of_Q b)).

Definition float_div (a b : Q) : Q :=
  Q_of_float (SpecFloat.SFdiv 53 1024 (float_of_Q a) (float_of_Q b)).

(** An entry of [this_gen_mutations]: [[id1, id2, id3, depth]]. *)
Definition Innovation : Type := Z * Z * Z * Q.

(** ** The refactored [Genome] of [genome.py] *)

Module Genome.
Section defs.
Context {imports : Imported}.

(** The fields of a genome.  [genes_by_id] holds references to the gene
    objects of [genes]: a reference is the position of the object in the
    list (the operations below only append to the list and assign fields
    of its objects).  The node objects are not assigned to by these
    operations, so [nodes_by_id] holds them as values.  The back-reference
    [population] is used for [next_id] only: the state of the population's
    id generator is passed to and returned by the operations that call it. *)
Record t := mk {
  optimizer : Optimizer;
  nodes : list Node.t;
  genes : list Gene.t;
  genes_by_id : gmap Z nat;
  nodes_by_id : gmap Z Node.t;
  net_parameters : option NetParameters;
  acc : option PyFloat;
  loss : PyFloat;
  trained : Z;
  no_change : Z;
  reward : Z
}.

Definition set_genes (gs : list Gene.t) (self : t) : t :=
  mk (optimizer self) (nodes self) gs (genes_by_id self) (nodes_by_id self)
     (net_parameters self) (acc self) (loss self) (trained self) (no_change self)
     (reward self).

Definition set_nodes (ns : list Node.t) (self : t) : t :=
  mk (optimizer self) ns (genes self) (genes_by_id self) (nodes_by_id self)
     (net_parameters self) (acc self) (loss self) (trained self) (no_change self)
     (reward self).

Definition set_genes_by_id (m : gmap Z nat) (self : t) : t :=
  mk (optimizer self) (nodes self) (genes self) m (nodes_by_id self)
     (net_parameters self) (acc self) (loss self) (trained self) (no_change self)
     (reward self).

Definition set_nodes_by_id (m : gmap Z Node.t) (self : t) : t :=
  mk (optimizer self) (nodes self) (genes self) (genes_by_id self) m
     (net_parameters self) (acc self) (loss self) (trained self) (no_change self)
     (reward self).

(** [self.population.next_id()]: the issued id and the generator's new state. *)
Definition next_id (gen : Z) : Z * Z := (gen, gen + 1).

(** The loops of [dicts_by_id]: a later object replaces an earlier one
    with the same id. *)
Fixpoint index_genes (i : nat) (gs : list Gene.t) (m : gmap Z nat) : gmap Z nat :=
  match gs with
  | [] => m
  | gene :: gs' => index_genes (S i) gs' (<[Gene.id gene := i]> m)
  end.

Fixpoint index_nodes (ns : list Node.t) (m : gmap Z Node.t) : gmap Z Node.t :=
  match ns with
  | [] => m
  | node :: ns' => index_nodes ns' (<[Node.id node := node]> m)
  end.

Definition dicts_by_id (gs : list Gene.t) (ns : list Node.t)
  : gmap Z nat * gmap Z Node.t :=
  (index_genes 0 gs ∅, index_nodes ns ∅).

(** The draws of [init_genome]: three merges, and for each of the two
    initial genes its class and the draws of its constructor. *)
Record InitGenomeDraws := mkInitGenomeDraws {
  ig_merge0 : nat;
  ig_merge1 : nat;
  ig_merge2 : nat;
  ig_class3 : nat;
  ig_init3 : InitDraws;
  ig_class4 : nat;
  ig_init4 : InitDraws
}.

Definition init_genome (d : InitGenomeDraws) : option (list Node.t * list Gene.t) :=
  g3 ← Gene.mutate_random (ig_class3 d) (ig_init3 d)
          (Gene.init 3 0 1 (Some ([KernelGeneC; DenseGeneC], [1; 0])));
  g4 ← Gene.mutate_random (ig_class4 d) (ig_init4 d)
          (Gene.init 4 1 2 (Some ([KernelGeneC; DenseGeneC], [0; 1])));
  Some ([Node.init 0 0 None (Some role_input) (ig_merge0 d);
         Node.init 1 1 None (Some role_flatten) (ig_merge1 d);
         Node.init 2 2 None (Some role_output) (ig_merge2 d)],
        [g3; g4]).

(** [__init__].  [opt] is the optimizer given, or else the one that
    [init_optimizer] draws. *)
Definition init (opt : Optimizer)
    (nodes_and_genes : option (list Node.t * list Gene.t))
    (ns : option (list Node.t)) (gs : option (list Gene.t))
    (trained reward : Z) (acc : option PyFloat)
    (net_parameters : option NetParameters) (loss : PyFloat) (no_change : Z)
    (d : InitGenomeDraws) : option t :=
  ng ← match ns, gs with
       | Some ns', Some gs' => Some (ns', gs')
       | _, _ =>
           match nodes_and_genes with
           | Some ng => Some ng
           | None => init_genome d
           end
       end;
  let '(genes_by_id, nodes_by_id) := dicts_by_id ng.2 ng.1 in
  Some (mk opt ng.1 ng.2 genes_by_id nodes_by_id net_parameters acc loss trained
           no_change reward).

(** [Genome(population)]: every keyword argument at its default. *)
Definition fresh (opt : Optimizer) (d : InitGenomeDraws) : option t :=
  init opt None None None 0 0 None None inf 0 d.

(** *** Depth-first search and disabling of edges *)

(** The loop [for p in neig: if self.dfs(p, id_t): return True] followed
    by [return False]; [rec p] is the recursive call on [p]. *)
Fixpoint dfs_neighbours (rec : Z -> option bool) (neig : list Z) : option bool :=
  match neig with
  | [] => Some false
  | p :: neig' =>
      match rec p with
      | None => None
      | Some true => Some true
      | Some false => dfs_neighbours rec neig'
      end
  end.

(** [dfs(id_s, id_t)] on the gene list.  [fuel] bounds the depth of the
    recursion; [None] stands for Python's [RecursionError]. *)
Fixpoint dfs (fuel : nat) (gs : list Gene.t) (id_s id_t : Z) : option bool :=
  match fuel with
  | O => None
  | S fuel' =>
      if id_s =? id_t then Some true
      else
        let neig :=
          Gene.id_out <$>
            filter (fun gene => (Gene.id_in gene =? id_s) && Gene.enabled gene : bool) gs in
        if (length neig =? 0)%nat then Some false
        else dfs_neighbours (fun p => dfs fuel' gs p id_t) neig
  end.

(** The assignment [gene.enabled = b] to the gene object at position [i]. *)
Definition assign_enabled (i : nat) (b : bool) (self : t) : t :=
  set_genes (alter (Gene.set_enabled b) i (genes self)) self.

(** [disable_edge(gene)], [gene] being the object at position [i].  An
    error escapes with the genome as the assignments made so far left it. *)
Definition disable_edge (fuel : nat) (i : nat) (self : t) : Error * t + bool * t :=
  let self := assign_enabled i false self in
  match dfs fuel (genes self) 0 2 with
  | None => inl (RecursionError, self)
  | Some false => inr (false, assign_enabled i true self)
  | Some true => inr (true, self)
  end.

(** The positions of the enabled genes: [[gene for gene in self.genes if gene.enabled]]. *)
Definition enabled_edges (self : t) : list nat :=
  positions Gene.enabled (genes self).

(** The [while tries > 0] loop; [rs k] is the draw of [random.choice] made
    while [k] tries are left. *)
Fixpoint mutate_disable_edge_loop (fuel : nat) (enabled : list nat) (rs : nat -> nat)
    (tries : nat) (self : t) : Error * t + t :=
  match tries with
  | O => inr self
  | S tries' =>
      match choice (rs tries) enabled with
      | None => inl (IndexError, self)
      | Some i =>
          match disable_edge fuel i self with
          | inl e => inl e
          | inr (true, self') => inr self'
          | inr (false, self') => mutate_disable_edge_loop fuel enabled rs tries' self'
          end
      end
  end.

Definition mutate_disable_edge (fuel : nat) (rs : nat -> nat) (tries : nat) (self : t)
  : Error * t + t :=
  let enabled := enabled_edges self in
  if (0 <? length enabled)%nat
  then mutate_disable_edge_loop fuel enabled rs tries self
  else inr self.

(** [enable_edge]. *)
Definition enable_edge (r : nat) (self : t) : t :=
  let disabled := positions (fun gene => negb (Gene.enabled gene)) (genes self) in
  match choice r disabled with
  | Some i => assign_enabled i true self
  | None => self
  end.

(** *** Splitting and adding edges *)

(** The draws of one [split_edge]: the edge, the normal variate, the merge
    of the new node, the draws of [copy], and the class and constructor
    draws of [add_after]. *)
Record SplitDraws := mkSplitDraws {
  sd_edge : nat;
  sd_normal : Q;
  sd_merge : nat;
  sd_copy : InitDraws;
  sd_class : nat;
  sd_after : InitDraws
}.

(** The bounds [d1+(d2-d1)/10] and [d2-(d2-d1)/10] of the cut-off, in float
    arithmetic ([10] is converted to the float [10.0]). *)
Definition cut_low (d1 d2 : Q) : Q :=
  float_add d1 (float_div (float_sub d2 d1) 10).

Definition cut_high (d1 d2 : Q) : Q :=
  float_sub d2 (float_div (float_sub d2 d1) 10).

(** Line 162, the cut-off normal variate of [split_edge]:
    [min(d2-(d2-d1)/10, max(d1+(d2-d1)/10, x))], where [x] is the float that
    [random.normalvariate((d1 + d2) / 2, 0.01)] returned.  [min] and [max]
    compare floats, which [Qmin] and [Qmax] do on their values, with the same
    choice between equal arguments. *)
Definition new_depth (d1 d2 x : Q) : Q :=
  Qmin (cut_high d1 d2) (Qmax (cut_low d1 d2) x).

(** Lines 161-164: the innovation numbers of the split of [edge], looked up
    in [this_gen_mutations] or else issued and saved there. *)
Definition innovation (x : Q) (edge_id : Z) (d1 d2 : Q)
    (this_gen_mutations : gmap Z Innovation) (gen : Z)
  : Innovation * gmap Z Innovation * Z :=
  match this_gen_mutations !! edge_id with
  | Some entry => (entry, this_gen_mutations, gen)
  | None =>
      let depth := new_depth d1 d2 x in
      let '(id1, gen) := next_id gen in
      let '(id2, gen) := next_id gen in
      let '(id3, gen) := next_id gen in
      let entry := (id1, id2, id3, depth) in
      (entry, <[edge_id := entry]> this_gen_mutations, gen)
  end.

Definition split_edge (d : SplitDraws) (this_gen_mutations : gmap Z Innovation)
    (gen : Z) (self : t) : Error + t * gmap Z Innovation * Z :=
  let enabled := enabled_edges self in
  if (0 <? length enabled)%nat then
    match choice (sd_edge d) enabled with
    | None => inl IndexError
    | Some i =>
        match genes self !! i with
        | None => inl IndexError
        | Some edge =>
            match nodes_by_id self !! Gene.id_in edge,
                  nodes_by_id self !! Gene.id_out edge with
            | Some n_in, Some n_out =>
                let d1 := Node.depth n_in in
                let d2 := Node.depth n_out in
                let '(id1, id2, id3, depth, this_gen_mutations, gen) :=
                  innovation (sd_normal d) (Gene.id edge) d1 d2 this_gen_mutations gen in
                let new_node := Node.init id1 depth None None (sd_merge d) in
                let new_edge_1 :=
                  Gene.copy (sd_copy d) edge id2 (Gene.id_in edge) (Node.id new_node) in
                match Gene.add_after (sd_class d) (sd_after d) edge id3
                        (Node.id new_node) (Gene.id_out edge) with
                | None => inl ValueError
                | Some new_edge_2 =>
                    let self := assign_enabled i false self in
                    let n := length (genes self) in
                    let self := set_nodes (nodes self ++ [new_node]) self in
                    let self := set_genes (genes self ++ [new_edge_1; new_edge_2]) self in
                    let self := set_nodes_by_id (<[id1 := new_node]> (nodes_by_id self)) self in
                    let self := set_genes_by_id (<[id2 := n]> (genes_by_id self)) self in
                    let self := set_genes_by_id (<[id3 := S n]> (genes_by_id self)) self in
                    inr (self, this_gen_mutations, gen)
                end
            | _, _ => inl KeyError
            end
        end
    end
  else inr (self, this_gen_mutations, gen).

(** The endpoint pairs [[[e.id_in, e.id_out] for e in self.genes]]. *)
Definition endpoints (gs : list Gene.t) : list (Z * Z) :=
  (fun e => (Gene.id_in e, Gene.id_out e)) <$> gs.

(** The draws of one [add_edge]: [ad_sample k] is the sample made while
    [k] tries are left; then the class and constructor draws of the edge. *)
Record AddDraws := mkAddDraws {
  ad_sample : nat -> nat * nat;
  ad_class : nat;
  ad_init : InitDraws
}.

Fixpoint add_edge_loop (d : AddDraws) (tries : nat) (gen : Z) (self : t)
  : Error + t * Z :=
  match tries with
  | O => inr (self, gen)
  | S tries' =>
      match sample2 (ad_sample d tries) (nodes self) with
      | None => inl ValueError
      | Some (n1, n2) =>
          let '(n1, n2) :=
            if negb (Qle_bool (Node.depth n1) (Node.depth n2)) then (n2, n1) else (n1, n2) in
          if Qeq_bool (Node.depth n1) (Node.depth n2)
             || bool_decide ((Node.id n1, Node.id n2) ∈ endpoints (genes self))
          then add_edge_loop d tries' gen self
          else
            let '(id, gen) := next_id gen in
            match weighted_choice (ad_class d) [KernelGeneC; PoolGeneC; DenseGeneC] [1; 1; 1] with
            | None => inl ValueError
            | Some cls =>
                let new_edge := Gene.construct cls (ad_init d) id (Node.id n1) (Node.id n2) in
                let n := length (genes self) in
                let self := set_genes (genes self ++ [new_edge]) self in
                let self := set_genes_by_id (<[id := n]> (genes_by_id self)) self in
                inr (self, gen)
            end
      end
  end.

Definition add_edge (d : AddDraws) (gen : Z) (self : t) : Error + t * Z :=
  if (2 <=? length (nodes self))%nat
  then add_edge_loop d 5 gen self
  else inr (self, gen).

(** Repeated calls of [add_edge], one [AddDraws] per call. *)
Fixpoint add_edges (ds : list AddDraws) (gen : Z) (self : t) : Error + t * Z :=
  match ds with
  | [] => inr (self, gen)
  | d :: ds' =>
      match add_edge d gen self with
      | inl e => inl e
      | inr (self', gen') => add_edges ds' gen' self'
      end
  end.

(** *** Loading a saved genome *)

(** The values held by the slots of a saved genome, as [save] writes them. *)
Inductive Value :=
  | VNone
  | VInt (z : Z)
  | VFloat (x : PyFloat)
  | VParameters (p : NetParameters)
  | VOptimizer (cls : OptimizerClass) (state : OptimizerState)
  | VNodes (saved : list (Z * Q * NodeState))
  | VGenes (saved : list (GeneClass * Z * Z * Z * GeneState)).

(** The fields of the genome are typed in this model.  A slot holding a
    value of another kind than [save] writes there is a [TypeError]. *)
Definition as_optimizer (v : Value) : Error + Optimizer :=
  match v with
  | VOptimizer cls state => inr (Optimizer_load cls state)
  | _ => inl TypeError
  end.

Definition as_nodes (v : Value) : Error + list Node.t :=
  match v with
  | VNodes saved => inr ((fun node => Node_load node.1.1 node.1.2 node.2) <$> saved)
  | _ => inl TypeError
  end.

Definition as_genes (v : Value) : Error + list Gene.t :=
  match v with
  | VGenes saved =>
      inr ((fun g => Gene_load g.1.1.1.1 g.1.1.1.2 g.1.1.2 g.1.2 g.2) <$> saved)
  | _ => inl TypeError
  end.

Definition as_acc (v : Value) : Error + option PyFloat :=
  match v with
  | VNone => inr None
  | VFloat x => inr (Some x)
  | _ => inl TypeError
  end.

Definition as_float (v : Value) : Error + PyFloat :=
  match v with
  | VFloat x => inr x
  | _ => inl TypeError
  end.

Definition as_int (v : Value) : Error + Z :=
  match v with
  | VInt z => inr z
  | _ => inl TypeError
  end.

Definition as_parameters (v : Value) : Error + option NetParameters :=
  match v with
  | VNone => inr None
  | VParameters p => inr (Some p)
  | _ => inl TypeError
  end.

(** The values [save] writes for [acc] and [net_parameters]. *)
Definition acc_slot (a : option PyFloat) : Value :=
  match a with
  | None => VNone
  | Some x => VFloat x
  end.

Definition parameters_slot (p : option NetParameters) : Value :=
  match p with
  | None => VNone
  | Some x => VParameters x
  end.

(** The bookkeeping fields as the unpacking of [save] leaves them. *)
Record Unpacked := mkUnpacked {
  u_optimizer : Value;
  u_nodes : Value;
  u_genes : Value;
  u_acc : Error + option PyFloat;
  u_loss : Error + PyFloat;
  u_trained : Error + Z;
  u_no_change : Error + Z;
  u_reward : Error + Z;
  u_net_parameters : Error + option NetParameters
}.

(** The three unpacking assignments of [load]; a target list of another
    length than [save] raises [ValueError] before anything is assigned. *)
Definition unpack (save : list Value) (self : t) : Error + Unpacked :=
  if (length save =? 5)%nat then
    match save with
    | [o; ns; gs; a; p] =>
        inr (mkUnpacked o ns gs (as_acc a) (inr (loss self)) (inr (trained self))
               (inr (no_change self)) (inr (reward self)) (as_parameters p))
    | _ => inl ValueError
    end
  else if (length save =? 9)%nat then
    match save with
    | [o; ns; gs; a; l; tr; nc; r; p] =>
        inr (mkUnpacked o ns gs (as_acc a) (as_float l) (as_int tr) (as_int nc)
               (as_int r) (as_parameters p))
    | _ => inl ValueError
    end
  else
    match save with
    | [o; ns; gs; a; l; tr; nc; r] =>
        inr (mkUnpacked o ns gs (as_acc a) (as_float l) (as_int tr) (as_int nc)
               (as_int r) (inr None))
    | _ => inl ValueError
    end.

Definition load (save : list Value) (load_params : bool) (self : t) : Error + t :=
  u ← unpack save self;
  acc ← u_acc u;
  loss ← u_loss u;
  trained ← u_trained u;
  no_change ← u_no_change u;
  reward ← u_reward u;
  net_parameters ← u_net_parameters u;
  let net_parameters := if negb load_params then None else net_parameters in
  optimizer ← as_optimizer (u_optimizer u);
  ns ← as_nodes (u_nodes u);
  gs ← as_genes (u_genes u);
  let '(genes_by_id, nodes_by_id) := dicts_by_id gs ns in
  inr (mk optimizer ns gs genes_by_id nodes_by_id net_parameters acc loss trained
          no_change reward).

(** *** Dissimilarity *)

(** The gene object [genes_by_id[_id]]. *)
Definition gene_by_id (self : t) (_id : Z) : option Gene.t :=
  i ← genes_by_id self !! _id; genes self !! i.

(** The coefficients [c], by default [(5, 5, 5, 1, 5, 1)]. *)
Record Coefficients := mkCoefficients {
  c0 : Q; c1 : Q; c2 : Q; c3 : Q; c4 : Q; c5 : Q
}.

Definition default_c : Coefficients := mkCoefficients 5 5 5 1 5 1.

Definition ids (self : t) : gset Z := dom (genes_by_id self).

Definition node_ids (self other : t) : gset Z :=
  dom (nodes_by_id self) ∩ dom (nodes_by_id other).

Definition N : Q := 1.

Definition excess_start (self other : t) : option Z :=
  m ← set_max (ids self ∪ ids other); Some (m + 1).

Definition S_term (self other : t) : Q :=
  Qsum (fun _id =>
          match gene_by_id self _id, gene_by_id other _id with
          | Some g1, Some g2 => Gene_dissimilarity g1 g2
          | _, _ => 0%Q
          end)
       (elements (ids self ∩ ids other)).

Definition D_term (self other : t) (excess_start : Z) : Z :=
  Z.of_nat (length (filter (fun _id => _id < excess_start)
                           (elements (symmetric_difference (ids self) (ids other))))).

Definition E_term (self other : t) (excess_start : Z) : Z :=
  Z.of_nat (length (elements (symmetric_difference (ids self) (ids other))))
  - D_term self other excess_start.

Definition T_term (self other : t) : Q :=
  Optimizer_dissimilarity (optimizer self) (optimizer other).

Definition K_term (self other : t) : option Q :=
  let common := elements (node_ids self other) in
  if (length common =? 0)%nat then None
  else
    Some (Qsum (fun _id =>
                  match nodes_by_id self !! _id, nodes_by_id other !! _id with
                  | Some n1, Some n2 => Node_dissimilarity n1 n2
                  | _, _ => 0%Q
                  end) common
          / inject_Z (Z.of_nat (length common)))%Q.

Definition X_term (self other : t) : Q :=
  limited_growth (inject_Z (Z.abs (trained self - trained other))) 1 10.

Definition dissimilarity (self other : t) (c : Coefficients) : Error + Q :=
  match excess_start self other with
  | None => inl ValueError
  | Some start =>
      let S := S_term self other in
      let D := D_term self other start in
      let E := E_term self other start in
      let T := T_term self other in
      match K_term self other with
      | None => inl ZeroDivisionError
      | Some K =>
          let X := X_term self other in
          inr ((c0 c * S + c1 c * inject_Z D + c2 c * inject_Z E) / N
               + c3 c * T + c4 c * K + c5 c * X)%Q
      end
  end.
End defs.
End Genome.

(** ** Vocabulary of the statements *)

(** [reach gs s t]: node [t] is reached from node [s] through enabled genes
    of [gs]. *)
Inductive reach (gs : list Gene.t) : Z -> Z -> Prop :=
  | reach_refl (s : Z) : reach gs s s
  | reach_step (e : Gene.t) (s t : Z) :
      e ∈ gs -> Gene.enabled e = true -> Gene.id_in e = s ->
      reach gs (Gene.id_out e) t -> reach gs s t.

(** [ascending depth gs]: every gene of [gs] leads to a node that [depth]
    places strictly deeper. *)
Definition ascending (depth : Z -> Q) (gs : list Gene.t) : Prop :=
  forall e, e ∈ gs -> (depth (Gene.id_in e) < depth (Gene.id_out e))%Q.

Section vocabulary.
Context {imports : Imported}.

(** The feed-forward ordering of a genome: both endpoints of every gene
    are nodes of the genome, and [depth(id_in) < depth(id_out)]. *)
Definition feed_forward (self : Genome.t) : Prop :=
  forall e, e ∈ Genome.genes self ->
    exists n1 n2,
      Genome.nodes_by_id self !! Gene.id_in e = Some n1
      /\ Genome.nodes_by_id self !! Gene.id_out e = Some n2
      /\ (Node.depth n1 < Node.depth n2)%Q.

(** The depth [nodes_by_id] gives to a node id (0 for an unknown id). *)
Definition depth_of (self : Genome.t) (id : Z) : Q :=
  match Genome.nodes_by_id self !! id with
  | Some n => Node.depth n
  | None => 0%Q
  end.

(** The edge [random.choice(enabled_edges)] returns on the draw [r], with
    its position in [genes]. *)
Definition selected_edge (r : nat) (self : Genome.t) : option (nat * Gene.t) :=
  i ← choice r (Genome.enabled_edges self);
  e ← Genome.genes self !! i;
  Some (i, e).

(** Every gene joins two node objects of the genome, the source one being
    strictly shallower than the target one. *)
Definition edges_ascend (self : Genome.t) : Prop :=
  forall e, e ∈ Genome.genes self ->
    exists n1 n2,
      n1 ∈ Genome.nodes self /\ n2 ∈ Genome.nodes self
      /\ Node.id n1 = Gene.id_in e /\ Node.id n2 = Gene.id_out e
      /\ (Node.depth n1 < Node.depth n2)%Q.
End vocabulary.

(** ** Concrete genomes *)

Definition dense_gene (id id_in id_out : Z) : Gene.t :=
  Gene.mk id id_in id_out true (Gene.Dense (DenseGene.mk 5 relu)).

Definition three_nodes : list Node.t :=
  [Node.mk 0 0 (Some role_input) upscale None;
   Node.mk 1 1 (Some role_flatten) upscale None;
   Node.mk 2 2 (Some role_output) upscale None].

(** The genome [Genome(population, nodes=ns, genes=gs)] over the trivial
    imports (see [genome_of_init]). *)
Definition genome_of (ns : list Node.t) (gs : list Gene.t)
  : Genome.t (imports := trivial_imports) :=
  Genome.mk (imports := trivial_imports) ADAMGene ns gs
    (Genome.dicts_by_id gs ns).1 (Genome.dicts_by_id gs ns).2 None None inf 0 0 0.

(** A genome with the cycle 0 -> 1 -> 0 beside the edge 0 -> 2. *)
Definition cyclic_genes : list Gene.t :=
  [dense_gene 3 0 1; dense_gene 4 1 0; dense_gene 5 0 2].

Definition cyclic_genome : Genome.t (imports := trivial_imports) :=
  genome_of three_nodes cyclic_genes.

(** The minimal genome with a third edge 0 -> 2. *)
Definition triangle_genome : Genome.t (imports := trivial_imports) :=
  genome_of three_nodes [dense_gene 3 0 1; dense_gene 4 1 2; dense_gene 5 0 2].

(** The minimal genome: 0 -> 1 -> 2. *)
Definition minimal_genome : Genome.t (imports := trivial_imports) :=
  genome_of three_nodes [dense_gene 3 0 1; dense_gene 4 1 2].

(** The draws of a split of the first enabled edge, the variate being [x]. *)
Definition first_edge_draws (x : Q) : Genome.SplitDraws :=
  Genome.mkSplitDraws 0 x 0 (mkInitDraws 0 0 0) 0 (mkInitDraws 0 0 0).

(** The genes that lead strictly deeper than node [s]: their number bounds
    the depth of the recursion of [dfs] from [s]. *)
Definition deeper (depth : Z -> Q) (gs : list Gene.t) (s : Z) : list Gene.t :=
  filter (fun e => negb (Qle_bool (depth (Gene.id_out e)) (depth s)) : bool) gs.

(** The minimal genome with its first gene disabled: node 2 is cut off. *)
Definition cut_genome : Genome.t (imports := trivial_imports) :=
  genome_of three_nodes [Gene.set_enabled false (dense_gene 3 0 1); dense_gene 4 1 2].

Section invariants.
Context {imports : Imported}.

(** The identity maps agree with the lists: each entry of [genes_by_id]
    refers to a gene of [genes] with that id, and each gene's id is a key;
    likewise for the nodes. *)
Definition genes_ok (m : gmap Z nat) (gs : list Gene.t) : Prop :=
  (forall id i, m !! id = Some i -> exists g, gs !! i = Some g /\ Gene.id g = id)
  /\ (forall g, g ∈ gs -> is_Some (m !! Gene.id g)).

Definition nodes_ok (m : gmap Z Node.t) (ns : list Node.t) : Prop :=
  (forall id n, m !! id = Some n -> n ∈ ns /\ Node.id n = id)
  /\ (forall n, n ∈ ns -> is_Some (m !! Node.id n)).

Definition by_id_ok (self : Genome.t) : Prop :=
  genes_ok (Genome.genes_by_id self) (Genome.genes self)
  /\ nodes_ok (Genome.nodes_by_id self) (Genome.nodes self).

(** Every id in use lies below the state of the id generator: the ids of
    the genes, the keys of [nodes_by_id] and the ids saved in the cache. *)
Definition ids_below (gen : Z) (self : Genome.t) (cache : gmap Z Innovation) : Prop :=
  (forall g, g ∈ Genome.genes self -> Gene.id g < gen)
  /\ (forall k, k ∈ dom (Genome.nodes_by_id self) -> k < gen)
  /\ (forall k id1 id2 id3 depth,
        cache !! k = Some (id1, id2, id3, depth) -> id1 < gen /\ id2 < gen /\ id3 < gen).
End invariants.

(** ** Saving

    [save] needs three more methods of the imported classes: the class and
    the saved state of an optimizer, and the saved states of nodes and
    genes. *)

Class ImportedSave {imports : Imported} := {
  (** [optimizer.__class__] *)
  Optimizer_class : Optimizer -> OptimizerClass;
  Optimizer_save : Optimizer -> OptimizerState;
  Node_save : Node.t -> NodeState;
  Gene_save : Gene.t -> GeneState
}.

(** [g.__class__] of a gene object. *)
Definition class_of (g : Gene.t) : GeneClass :=
  match Gene.payload g with
  | Gene.Kernel _ => KernelGeneC
  | Gene.Pool _ => PoolGeneC
  | Gene.Dense _ => DenseGeneC
  end.

Section saving.
Context {imports : Imported} {imports_save : ImportedSave}.

(** [save(parameters)]. *)
Definition save (parameters : bool) (self : Genome.t) : list Genome.Value :=
  let saved :=
    [Genome.VOptimizer (Optimizer_class (Genome.optimizer self))
       (Optimizer_save (Genome.optimizer self));
     Genome.VNodes ((fun node => (Node.id node, Node.depth node, Node_save node))
                      <$> Genome.nodes self);
     Genome.VGenes ((fun g => (class_of g, Gene.id g, Gene.id_in g, Gene.id_out g,
                               Gene_save g)) <$> Genome.genes self);
     Genome.acc_slot (Genome.acc self); Genome.VFloat (Genome.loss self);
     Genome.VInt (Genome.trained self); Genome.VInt (Genome.no_change self);
     Genome.VInt (Genome.reward self)] in
  if parameters then saved ++ [Genome.parameters_slot (Genome.net_parameters self)]
  else saved.

(** The imported [load] methods undo the imported [save] methods on the
    optimizer, the nodes and the genes of a genome. *)
Definition load_undoes_save (self : Genome.t) : Prop :=
  Optimizer_load (Optimizer_class (Genome.optimizer self))
    (Optimizer_save (Genome.optimizer self)) = Genome.optimizer self
  /\ (forall node, node ∈ Genome.nodes self ->
        Node_load (Node.id node) (Node.depth node) (Node_save node) = node)
  /\ (forall g, g ∈ Genome.genes self ->
        Gene_load (class_of g) (Gene.id g) (Gene.id_in g) (Gene.id_out g) (Gene_save g) = g).

(** The identity maps are the ones [dicts_by_id] builds from the lists. *)
Definition dicts_exact (self : Genome.t) : Prop :=
  (Genome.genes_by_id self, Genome.nodes_by_id self)
  = Genome.dicts_by_id (Genome.genes self) (Genome.nodes self).

(** The assignment [self.net_parameters = p]. *)
Definition with_net_parameters (p : option NetParameters) (self : Genome.t) : Genome.t :=
  Genome.mk (Genome.optimizer self) (Genome.nodes self) (Genome.genes self)
    (Genome.genes_by_id self) (Genome.nodes_by_id self) p (Genome.acc self)
    (Genome.loss self) (Genome.trained self) (Genome.no_change self) (Genome.reward self).
End saving.

(** Imports whose saved states are the objects themselves. *)
Definition identity_imports : Imported := {|
  Optimizer := OptimizerClass;
  OptimizerState := unit;
  NodeState := Node.t;
  GeneState := Gene.t;
  NetParameters := unit;
  Optimizer_load := fun cls _ => cls;
  Optimizer_dissimilarity := fun _ _ => 0%Q;
  Node_load := fun _ _ state => state;
  Gene_load := fun _ _ _ _ state => state;
  Node_dissimilarity := fun _ _ => 0%Q;
  Gene_dissimilarity := fun _ _ => 0%Q;
  limited_growth := fun x _ _ => x
|}.

Definition identity_imports_save : ImportedSave (imports := identity_imports) :=
  @Build_ImportedSave identity_imports
    (fun opt : OptimizerClass => opt) (fun _ : OptimizerClass => tt)
    (fun node : Node.t => node) (fun g : Gene.t => g).

(** The minimal genome over the identity imports. *)
Definition minimal_genome_id : Genome.t (imports := identity_imports) :=
  Genome.mk (imports := identity_imports) ADAMGene three_nodes
    [dense_gene 3 0 1; dense_gene 4 1 2]
    (Genome.dicts_by_id [dense_gene 3 0 1; dense_gene 4 1 2] three_nodes).1
    (Genome.dicts_by_id [dense_gene 3 0 1; dense_gene 4 1 2] three_nodes).2
    (Some tt) (Some (finite 1)) (finite 2) 3 1 0.

(** ** Further methods of [ConvNEAT.py] *)

#[global] Instance Merge_eq_dec : EqDecision Merge.
Proof. solve_decision. Defined.

(** [Node.mutate_merge]; [mutate_random] of a node is this mutation. *)
Definition Node_mutate_merge (r : nat) (self : Node.t) : Node.t :=
  Node.mk (Node.id self) (Node.depth self) (Node.role self)
    (default (Node.merge self)
       (choice r (filter (fun x => x <> Node.merge self) Node.possible_merges)))
    (Node.size self).

(** No numeric field of the gene is falsy (zero) where its constructor
    writes [field or default]. *)
Definition no_falsy_field (p : Gene.Payload) : Prop :=
  match p with
  | Gene.Kernel k =>
      KernelGene.depth k <> 0 /\ KernelGene.width k <> 0 /\ KernelGene.height k <> 0
      /\ KernelGene.stride k <> 0
  | Gene.Pool p => PoolGene.width p <> 0 /\ PoolGene.height p <> 0
  | Gene.Dense d => DenseGene.size_change d <> 0
  end.

(** ** Layers ([Genome.group_by])

    [sorted(self.nodes, key=lambda x: x.depth)] is stable: nodes of equal
    depth keep their order.  [sorted_by_depth] is the insertion sort with
    this result. *)
Fixpoint insert_by_depth (n : Node.t) (l : list Node.t) : list Node.t :=
  match l with
  | [] => [n]
  | m :: l' =>
      if Qle_bool (Node.depth n) (Node.depth m) then n :: m :: l'
      else m :: insert_by_depth n l'
  end.

Definition sorted_by_depth (l : list Node.t) : list Node.t :=
  foldr insert_by_depth [] l.

(** [[edge.id_out for edge in self.genes if edge.id_in == n.id and edge.enabled]] *)
Definition outs (genes : list Gene.t) (n : Node.t) : list Z :=
  Gene.id_out <$> filter (fun e => Gene.id_in e = Node.id n /\ Gene.enabled e = true) genes.

(** The state of the loop of [group_by]: [grouped], [group] and [c]. *)
Definition Grouping : Type := list (list Node.t) * list Node.t * list Z.

(** One round of the loop of [group_by]. *)
Definition group_step (genes : list Gene.t) (st : Grouping) (n : Node.t) : Grouping :=
  let '(grouped, group, c) := st in
  let '(grouped, group, c) :=
    if bool_decide (Node.id n ∈ c) then (grouped ++ [group], [n], [])
    else (grouped, group ++ [n], c) in
  (grouped, group, c ++ outs genes n).

Definition group_loop (genes : list Gene.t) (ns : list Node.t) (st : Grouping) : Grouping :=
  fold_left (group_step genes) ns st.

Section grouping.
Context {imports : Imported}.

(** [Genome.group_by] *)
Definition group_by (self : Genome.t) : list (list Node.t) :=
  let '(grouped, group, _) :=
    group_loop (Genome.genes self) (sorted_by_depth (Genome.nodes self)) ([], [], []) in
  if (0 <? length group)%nat then grouped ++ [group] else grouped.
End grouping.

(** The groups of a state of the loop, the one under construction last. *)
Definition layers (st : Grouping) : list (list Node.t) :=
  st.1.1 ++ [st.1.2].

(** No node of the group is the target of an enabled gene that leaves a
    node placed before it in the group. *)
Definition layered (genes : list Gene.t) (group : list Node.t) : Prop :=
  forall pre n post, group = pre ++ n :: post ->
    Node.id n ∉ concat (outs genes <$> pre).

(** The nodes in the order of ascending depth. *)
Definition by_depth (n m : Node.t) : Prop := (Node.depth n <= Node.depth m)%Q.

(** ** Repeated splits *)

(** [a < b] on depths, as a boolean. *)
Definition Qlt_bool (a b : Q) : bool := negb (Qle_bool b a).

Section repeated.
Context {imports : Imported}.

(** [feed_forward], decided gene by gene. *)
Definition feed_forward_b (self : Genome.t) : bool :=
  forallb
    (fun e =>
       match Genome.nodes_by_id self !! Gene.id_in e,
             Genome.nodes_by_id self !! Gene.id_out e with
       | Some n1, Some n2 => Qlt_bool (Node.depth n1) (Node.depth n2)
       | _, _ => false
       end)
    (Genome.genes self).

(** [random.normalvariate(mu, sigma)] returns [mu + z * sigma] for the
    variate [z] it draws; for [z = 0] that is [mu] itself, which
    [split_edge] computes as the float [(d1 + d2) / 2]. *)
Definition mean_depth (d1 d2 : Q) : Q := float_div (float_add d1 d2) 2.

(** The draws of a call of [split_edge] in which [random.choice] returns the
    last enabled gene and [normalvariate] returns its mean. *)
Definition last_edge_draws (self : Genome.t) : Genome.SplitDraws :=
  let r := (length (Genome.enabled_edges self) - 1)%nat in
  let x := match selected_edge r self with
           | Some (_, edge) =>
               mean_depth (depth_of self (Gene.id_in edge)) (depth_of self (Gene.id_out edge))
           | None => 0%Q
           end in
  Genome.mkSplitDraws r x 0 (mkInitDraws 0 0 0) 0 (mkInitDraws 0 0 0).

(** [k] calls of [split_edge] on a genome with these draws, each in a
    generation of its own (the cache [this_gen_mutations] starts empty). *)
Fixpoint repeated_split (k : nat) (self : Genome.t) (gen : Z) : Error + Genome.t * Z :=
  match k with
  | O => inr (self, gen)
  | S k' =>
      match repeated_split k' self gen with
      | inl e => inl e
      | inr (self, gen) =>
          match Genome.split_edge (last_edge_draws self) ∅ gen self with
          | inl e => inl e
          | inr (self, _, gen) => inr (self, gen)
          end
      end
  end.
End repeated.

(** Splits a hypothesis [H : x ∈ [a; b; ...]] into one goal per member. *)
Ltac each_member H :=
  repeat (apply elem_of_cons in H as [H|H]); [..|by apply elem_of_nil in H].

(** * Properties *)

(** ** Gene classes *)

Lemma nudge_values (r : nat) : nudge r ∈ [-2; -1; 1; 2].
Proof.
  unfold nudge, choice. cbn [length].
  assert (H : (r mod 4 < 4)%nat) by (apply Nat.mod_upper_bound; lia).
  destruct (r mod 4)%nat as [|[|[|[|n]]]]; cbn; try lia; set_solver.
Qed.

Lemma py_or_nonzero (x : option Z) (d : Z) : d <> 0 -> py_or x d <> 0.
Proof.
  intros Hd. unfold py_or. destruct x as [v|]; [|done].
  destruct (Z.eqb_spec v 0); done.
Qed.

(** The constructor never leaves a zero stride. *)
Lemma KernelGene_init_stride_nonzero size stride padding rw rh :
  KernelGene.stride (KernelGene.init size stride padding rw rh) <> 0.
Proof.
  destruct size as [[d w] h]. cbn. apply py_or_nonzero. done.
Qed.

(** No mutator of [KernelGene] assigns the stride. *)
Lemma KernelGene_mutate_random_stride mask rs self :
  KernelGene.stride (KernelGene.mutate_random mask rs self) = KernelGene.stride self.
Proof.
  unfold KernelGene.mutate_random.
  set (ms := [_; _; _; _; _; _]).
  assert (Hms : Forall (fun m : KernelGene.t -> KernelGene.t =>
                          forall g, KernelGene.stride (m g) = KernelGene.stride g) ms).
  { subst ms. repeat constructor. }
  assert (Hsub : Forall (fun m : KernelGene.t -> KernelGene.t =>
                           forall g, KernelGene.stride (m g) = KernelGene.stride g)
                        (random_choices mask ms)).
  { unfold random_choices. apply Forall_forall. intros m Hm.
    apply list_elem_of_fmap in Hm as [[m' b] [-> Hm]].
    apply list_elem_of_filter in Hm as [_ Hm].
    apply elem_of_zip_l in Hm. rewrite Forall_forall in Hms. by apply Hms. }
  clear Hms. generalize dependent self.
  induction Hsub as [|m l Hm _ IH]; intros self; [done|].
  cbn. rewrite IH. apply Hm.
Qed.

(** C3 (as amended): for every [KernelGene] with a non-zero stride and every
    input size [[in_depth, in_width, in_height]], [output_size] returns
    [[depth, ((in_width - width + 2*padding - 1) // stride) + 1,
      ((in_height - height + 2*padding - 1) // stride) + 1]].
    With width = height = 3 it maps [[1, 10, 10]] to [[1, 7, 7]] when depth = 1,
    stride = 1, padding = 0, and to [[depth, 5, 5]] when stride = 2,
    padding = 1. *)
Theorem KernelGene_output_size_formula :
  (forall (self : KernelGene.t) (in_depth in_width in_height : Z),
      KernelGene.stride self <> 0 ->
      KernelGene.output_size self [in_depth; in_width; in_height]
      = inr [KernelGene.depth self;
             (in_width - KernelGene.width self + 2 * KernelGene.padding self - 1)
               / KernelGene.stride self + 1;
             (in_height - KernelGene.height self + 2 * KernelGene.padding self - 1)
               / KernelGene.stride self + 1])
  /\ KernelGene.output_size (KernelGene.mk 1 3 3 1 0) [1; 10; 10] = inr [1; 7; 7]
  /\ (forall depth : Z,
        KernelGene.output_size (KernelGene.mk depth 3 3 2 1) [1; 10; 10] = inr [depth; 5; 5]).
Proof.
  split; [|split].
  - intros self d w h Hs. unfold KernelGene.output_size.
    destruct (Z.eqb_spec (KernelGene.stride self) 0); [contradiction|reflexivity].
  - reflexivity.
  - intros depth. reflexivity.
Qed.

Lemma KernelGene_output_size_formula_witness :
  KernelGene.stride (KernelGene.mk 4 3 5 2 1) <> 0
  /\ KernelGene.output_size (KernelGene.mk 4 3 5 2 1) [3; 50; 50] = inr [4; 25; 24].
Proof.
  split; [cbn; lia|].
  exact (proj1 KernelGene_output_size_formula (KernelGene.mk 4 3 5 2 1) 3 50 50
           ltac:(cbn; lia)).
Defined.

(** C3 (as stated) fails on its first example: with width = height = 3,
    stride = 1, padding = 0 and depth = 1 the result on [[1, 10, 10]] is not
    [[1, 6, 6]]. *)
Lemma KernelGene_output_size_example_refuted :
  KernelGene.output_size
    (KernelGene.init (Some 1, Some 3, Some 3) (Some 1) (Some 0) 0 0) [1; 10; 10]
  = inr [1; 7; 7]
  /\ KernelGene.output_size
       (KernelGene.init (Some 1, Some 3, Some 3) (Some 1) (Some 0) 0 0) [1; 10; 10]
     <> inr [1; 6; 6].
Proof.
  split; [reflexivity|]. cbv. discriminate.
Qed.

(** C4: the code at the failing input.  [mutate_stride] and [mutate_padding]
    of [KernelGene] both assign [depth] (the nudged value, floored at 1) and
    leave [stride] and [padding] as they were; on the gene with depth 1,
    width 3, height 3, stride 1, padding 0 and the step +1 both give depth 2,
    stride 1, padding 0. *)
Theorem KernelGene_mutate_stride_padding_assign_depth :
  (forall (r : nat) (self : KernelGene.t),
      KernelGene.mutate_stride r self
      = KernelGene.mk (Z.max 1 (KernelGene.depth self + nudge r)) (KernelGene.width self)
          (KernelGene.height self) (KernelGene.stride self) (KernelGene.padding self)
      /\ KernelGene.mutate_padding r self = KernelGene.mutate_stride r self)
  /\ nudge 2 = 1
  /\ KernelGene.mutate_stride 2 (KernelGene.mk 1 3 3 1 0) = KernelGene.mk 2 3 3 1 0
  /\ KernelGene.mutate_padding 2 (KernelGene.mk 1 3 3 1 0) = KernelGene.mk 2 3 3 1 0.
Proof.
  repeat split.
Qed.

(** C10: [PoolGene.mutate_padding] leaves a padding of at least 1, and so
    does every further run of padding mutations, although [init_padding] and
    the constructor without a padding argument give 0. *)
Theorem PoolGene_mutate_padding_floor :
  (forall (r : nat) (self : PoolGene.t),
      1 <= PoolGene.padding (PoolGene.mutate_padding r self))
  /\ (forall (rs : list nat) (r : nat) (self : PoolGene.t),
        1 <= PoolGene.padding
               (fold_left (fun g r' => PoolGene.mutate_padding r' g) rs
                  (PoolGene.mutate_padding r self)))
  /\ PoolGene.init_padding = 0
  /\ (forall pooling size rp rw rh,
        PoolGene.padding (PoolGene.init pooling size None rp rw rh) = 0).
Proof.
  assert (H1 : forall r self, 1 <= PoolGene.padding (PoolGene.mutate_padding r self)).
  { intros r self. cbn. lia. }
  repeat split.
  - apply H1.
  - intros rs. induction rs as [|r' rs IH]; intros r self; cbn [fold_left].
    + apply H1.
    + apply IH.
  - intros pooling [w h] rp rw rh. reflexivity.
Qed.

(** ** The id generator of [Population] *)

Lemma Population_next_ids_generator (k : nat) (self : Population.t) :
  Population.id_generator (snd (Population.next_ids k self))
  = Population.id_generator self + Z.of_nat k.
Proof.
  revert self. induction k as [|k IH]; intros self.
  - cbn. lia.
  - cbn [Population.next_ids]. unfold Population.next_id.
    specialize (IH (Population.mk (Population.id_generator self + 1)
                      (Population.genomes self))).
    destruct (Population.next_ids k _) as [rest self'']. cbn in *. lia.
Qed.

(** C5: the code at the failing input.  [Population.__init__] calls
    [next_id] five times, which issues the ids 0 to 4; whatever genomes it
    then creates, the first id issued after the construction is 5. *)
Theorem Population_init_first_id :
  fst (Population.next_ids 5 (Population.mk Population.count [])) = [0; 1; 2; 3; 4]
  /\ (forall draws : list Population.GenomeDraws,
        Population.id_generator (Population.init draws) = 5
        /\ fst (Population.next_id (Population.init draws)) = 5)
  /\ fst (Population.next_id (Population.init [Population.mkGenomeDraws 0 0 0 0])) = 5.
Proof.
  repeat split.
Qed.

(** ** Depth-first search *)

Lemma dfs_neighbours_true (rec : Z -> option bool) (neig : list Z) :
  Genome.dfs_neighbours rec neig = Some true ->
  exists p, p ∈ neig /\ rec p = Some true.
Proof.
  induction neig as [|p neig IH]; cbn; [discriminate|].
  destruct (rec p) as [[|]|] eqn:Hp; intros H; try discriminate.
  - exists p. split; [left|done].
  - destruct (IH H) as (q & Hq & Hrec). exists q. split; [by right|done].
Qed.

Lemma dfs_neighbours_false (rec : Z -> option bool) (neig : list Z) :
  Genome.dfs_neighbours rec neig = Some false ->
  forall p, p ∈ neig -> rec p = Some false.
Proof.
  induction neig as [|q neig IH]; cbn; intros H p Hp.
  - by apply elem_of_nil in Hp.
  - destruct (rec q) as [[|]|] eqn:Hq; try discriminate.
    apply elem_of_cons in Hp as [->|Hp]; [done|by apply IH].
Qed.

Lemma dfs_neighbours_defined (rec : Z -> option bool) (neig : list Z) :
  (forall p, p ∈ neig -> rec p <> None) ->
  Genome.dfs_neighbours rec neig <> None.
Proof.
  induction neig as [|q neig IH]; cbn; intros H; [done|].
  destruct (rec q) as [[|]|] eqn:Hq; [done| |].
  - apply IH. intros p Hp. apply H. by right.
  - exfalso. apply (H q); [left|done].
Qed.

(** The list [neig] of [dfs]: the targets of the enabled genes leaving [s]. *)
Lemma elem_of_neighbours (gs : list Gene.t) (s p : Z) :
  p ∈ Gene.id_out <$>
        filter (fun gene => (Gene.id_in gene =? s) && Gene.enabled gene : bool) gs
  <-> exists e, e ∈ gs /\ Gene.id_in e = s /\ Gene.enabled e = true /\ Gene.id_out e = p.
Proof.
  rewrite list_elem_of_fmap. split.
  - intros (e & -> & He). apply list_elem_of_filter in He as [Hp He].
    apply Is_true_true, andb_true_iff in Hp as [Hin Hen].
    exists e. repeat split; [done|lia|done].
  - intros (e & He & Hin & Hen & <-). exists e. split; [done|].
    apply list_elem_of_filter. split; [|done].
    apply Is_true_true, andb_true_iff. split; [lia|done].
Qed.

(** A positive answer of [dfs] is a path of enabled genes. *)
Lemma dfs_true_reach (fuel : nat) (gs : list Gene.t) (s t : Z) :
  Genome.dfs fuel gs s t = Some true -> reach gs s t.
Proof.
  revert s. induction fuel as [|fuel IH]; intros s; cbn; [discriminate|].
  destruct (Z.eqb_spec s t) as [->|Hst]; [intros _; apply reach_refl|].
  destruct (_ =? _)%nat; [discriminate|].
  intros H. apply dfs_neighbours_true in H as (p & Hp & Hrec).
  apply elem_of_neighbours in Hp as (e & He & Hin & Hen & <-).
  eapply reach_step; eauto.
Qed.

(** A negative answer of [dfs] excludes every such path. *)
Lemma dfs_false_unreachable (fuel : nat) (gs : list Gene.t) (s t : Z) :
  Genome.dfs fuel gs s t = Some false -> ~ reach gs s t.
Proof.
  revert s. induction fuel as [|fuel IH]; intros s; cbn; [discriminate|].
  destruct (Z.eqb_spec s t) as [->|Hst]; [discriminate|].
  intros H Hreach.
  destruct Hreach as [|e s t He Hen Hin Hreach]; [done|].
  assert (Hp : Gene.id_out e ∈ Gene.id_out <$>
            filter (fun gene => (Gene.id_in gene =? s) && Gene.enabled gene : bool) gs).
  { apply elem_of_neighbours. by exists e. }
  destruct (Nat.eqb_spec (length (Gene.id_out <$>
            filter (fun gene => (Gene.id_in gene =? s) && Gene.enabled gene : bool) gs)) 0)
    as [Hlen|Hlen].
  - apply nil_length_inv in Hlen. rewrite Hlen in Hp. by apply elem_of_nil in Hp.
  - eapply IH; [|exact Hreach].
    by eapply dfs_neighbours_false in H.
Qed.

(** Comparing the lengths of two filters of one list. *)
Lemma filter_length_strict {A : Type} (p q : A -> bool) (l : list A) (x : A) :
  (forall y, y ∈ l -> p y = true -> q y = true) ->
  x ∈ l -> q x = true -> p x = false ->
  (length (filter (fun y => p y : bool) l) < length (filter (fun y => q y : bool) l))%nat.
Proof.
  intros Hpq Hx Hqx Hpx.
  assert (Hle : forall l', (forall y, y ∈ l' -> p y = true -> q y = true) ->
            (length (filter (fun y => p y : bool) l')
             <= length (filter (fun y => q y : bool) l'))%nat).
  { induction l' as [|y l' IH]; intros H; [done|].
    rewrite !filter_cons.
    assert (IH' := IH (fun z Hz => H z (list_elem_of_further _ _ _ Hz))).
    repeat case_decide; cbn; try lia.
    exfalso. match goal with Hn : ~ _ |- _ => apply Hn end.
    apply Is_true_true, H; [left|by apply Is_true_true]. }
  induction l as [|y l IH]; [by apply elem_of_nil in Hx|].
  rewrite !filter_cons.
  apply elem_of_cons in Hx as [<-|Hx].
  - destruct (decide (p x)) as [Hd|_]; [exfalso; rewrite Hpx in Hd; exact Hd|].
    destruct (decide (q x)) as [_|Hd]; [|exfalso; apply Hd; rewrite Hqx; exact I]. cbn.
    specialize (Hle l (fun z Hz => Hpq z (list_elem_of_further _ _ _ Hz))). lia.
  - specialize (IH (fun z Hz => Hpq z (list_elem_of_further _ _ _ Hz)) Hx).
    repeat case_decide; cbn; try lia.
    exfalso. match goal with Hn : ~ _ |- _ => apply Hn end.
    apply Is_true_true, Hpq; [left|by apply Is_true_true].
Qed.

Lemma deeper_decreases (depth : Z -> Q) (gs : list Gene.t) (e : Gene.t) :
  ascending depth gs -> e ∈ gs ->
  (length (deeper depth gs (Gene.id_out e)) < length (deeper depth gs (Gene.id_in e)))%nat.
Proof.
  intros Hasc He. unfold deeper.
  assert (Hlt := Hasc e He).
  apply (filter_length_strict _ _ gs e); [|done| |].
  - intros y _ Hy. apply negb_true_iff in Hy. apply negb_true_iff.
    destruct (Qle_bool (depth (Gene.id_out y)) (depth (Gene.id_in e))) eqn:Hle; [|done].
    apply Qle_bool_iff in Hle.
    assert (Hc : Qle_bool (depth (Gene.id_out y)) (depth (Gene.id_out e)) = true).
    { apply Qle_bool_iff. lra. }
    congruence.
  - apply negb_true_iff.
    destruct (Qle_bool _ _) eqn:Hle; [|done]. apply Qle_bool_iff in Hle. lra.
  - apply negb_false_iff. apply Qle_bool_iff. lra.
Qed.

(** On an ascending gene list [dfs] answers whenever its fuel exceeds the
    number of genes. *)
Lemma dfs_defined (depth : Z -> Q) (gs : list Gene.t) (fuel : nat) (s t : Z) :
  ascending depth gs ->
  (length (deeper depth gs s) < fuel)%nat ->
  Genome.dfs fuel gs s t <> None.
Proof.
  intros Hasc. revert s. induction fuel as [|fuel IH]; intros s Hfuel; [lia|].
  cbn. destruct (s =? t); [done|].
  destruct (_ =? _)%nat; [done|].
  apply dfs_neighbours_defined. intros p Hp.
  apply elem_of_neighbours in Hp as (e & He & <- & _ & <-).
  apply IH. pose proof (deeper_decreases depth gs e Hasc He). lia.
Qed.

Lemma deeper_length (depth : Z -> Q) (gs : list Gene.t) (s : Z) :
  (length (deeper depth gs s) <= length gs)%nat.
Proof. apply length_filter. Qed.

(** ** Random draws *)

Lemma choice_elem_of {A : Type} (r : nat) (l : list A) (x : A) :
  choice r l = Some x -> x ∈ l.
Proof. unfold choice. apply list_elem_of_lookup_2. Qed.

Lemma choice_is_Some {A : Type} (r : nat) (l : list A) :
  l <> [] -> is_Some (choice r l).
Proof.
  intros Hl. unfold choice. apply lookup_lt_is_Some_2.
  apply Nat.mod_upper_bound. destruct l; [done|cbn; lia].
Qed.

Lemma elem_of_positions {A : Type} (p : A -> bool) (l : list A) (i : nat) :
  i ∈ positions p l <-> exists x, l !! i = Some x /\ p x = true.
Proof.
  unfold positions. rewrite list_elem_of_fmap. split.
  - intros ([j x] & -> & H). apply list_elem_of_filter in H as [Hp Hin].
    apply list_elem_of_lookup in Hin as [k Hk].
    apply list_lookup_imap_Some in Hk as (y & Hy & Heq).
    injection Heq as -> ->. exists y. split; [done|]. by apply Is_true_true.
  - intros (x & Hx & Hp). exists (i, x). split; [done|].
    apply list_elem_of_filter. split; [by apply Is_true_true|].
    apply list_elem_of_lookup. exists i.
    apply list_lookup_imap_Some. by exists x.
Qed.

(** ** Disabling edges *)

Lemma reach_mono (gs gs' : list Gene.t) (s t : Z) :
  (forall e, e ∈ gs -> Gene.enabled e = true ->
     exists e', e' ∈ gs' /\ Gene.enabled e' = true
                /\ Gene.id_in e' = Gene.id_in e /\ Gene.id_out e' = Gene.id_out e) ->
  reach gs s t -> reach gs' s t.
Proof.
  intros Hsub Hreach. induction Hreach as [s|e s t He Hen Hin _ IH].
  - apply reach_refl.
  - destruct (Hsub e He Hen) as (e' & He' & Hen' & Hin' & Hout').
    apply (reach_step gs' e'); [done|done|congruence|by rewrite Hout'].
Qed.

(** Assigning [enabled] keeps the endpoints of every gene. *)
Lemma elem_of_alter_enabled (b : bool) (i : nat) (gs : list Gene.t) (e' : Gene.t) :
  e' ∈ alter (Gene.set_enabled b) i gs ->
  exists e, e ∈ gs /\ Gene.id_in e' = Gene.id_in e /\ Gene.id_out e' = Gene.id_out e
            /\ Gene.id e' = Gene.id e.
Proof.
  intros He'. apply list_elem_of_lookup in He' as [j Hj].
  destruct (decide (i = j)) as [->|Hij].
  - rewrite list_lookup_alter_eq in Hj.
    destruct (gs !! j) as [e|] eqn:He; [|done]. injection Hj as <-.
    exists e. split; [by eapply list_elem_of_lookup_2|done].
  - rewrite list_lookup_alter_ne in Hj by done.
    exists e'. split; [by eapply list_elem_of_lookup_2|done].
Qed.

Lemma ascending_alter_enabled (depth : Z -> Q) (b : bool) (i : nat) (gs : list Gene.t) :
  ascending depth gs -> ascending depth (alter (Gene.set_enabled b) i gs).
Proof.
  intros Hasc e' He'.
  apply elem_of_alter_enabled in He' as (e & He & -> & -> & _). by apply Hasc.
Qed.

(** Disabling and enabling again the gene at one position loses no path. *)
Lemma reach_disable_enable (i : nat) (gs : list Gene.t) (s t : Z) :
  reach gs s t ->
  reach (alter (Gene.set_enabled true) i (alter (Gene.set_enabled false) i gs)) s t.
Proof.
  apply reach_mono. intros e He Hen.
  apply list_elem_of_lookup in He as [j Hj].
  destruct (decide (i = j)) as [->|Hij].
  - exists (Gene.set_enabled true (Gene.set_enabled false e)). split; [|done].
    eapply list_elem_of_lookup_2 with (i := j).
    by rewrite !list_lookup_alter_eq, Hj.
  - exists e. split; [|done].
    eapply list_elem_of_lookup_2 with (i := j).
    by rewrite !list_lookup_alter_ne.
Qed.

Section disable.
Context {imports : Imported}.

Lemma feed_forward_ascending (self : Genome.t) :
  feed_forward self -> ascending (depth_of self) (Genome.genes self).
Proof.
  intros Hff e He. destruct (Hff e He) as (n1 & n2 & H1 & H2 & Hlt).
  unfold depth_of. by rewrite H1, H2.
Qed.

(** What [disable_edge] does on an ascending gene list, given enough fuel:
    it returns, and node 2 stays reachable from node 0 if it was. *)
Lemma disable_edge_reach (depth : Z -> Q) (fuel i : nat) (self : Genome.t) :
  ascending depth (Genome.genes self) ->
  (length (Genome.genes self) < fuel)%nat ->
  reach (Genome.genes self) 0 2 ->
  exists b self',
    Genome.disable_edge fuel i self = inr (b, self')
    /\ ascending depth (Genome.genes self')
    /\ length (Genome.genes self') = length (Genome.genes self)
    /\ reach (Genome.genes self') 0 2.
Proof.
  intros Hasc Hfuel Hreach. unfold Genome.disable_edge.
  set (gs' := Genome.genes (Genome.assign_enabled i false self)).
  assert (Hasc' : ascending depth gs') by by apply ascending_alter_enabled.
  assert (Hlen' : length gs' = length (Genome.genes self)) by apply length_alter.
  destruct (Genome.dfs fuel gs' 0 2) as [[|]|] eqn:Hdfs.
  - exists true, (Genome.assign_enabled i false self).
    repeat split; [done|done|]. by eapply dfs_true_reach.
  - exists false, (Genome.assign_enabled i true (Genome.assign_enabled i false self)).
    repeat split.
    + by apply ascending_alter_enabled.
    + cbn. by rewrite !length_alter.
    + by apply reach_disable_enable.
  - exfalso. eapply (dfs_defined depth gs' fuel 0 2); [done| |done].
    pose proof (deeper_length depth gs' 0). lia.
Qed.

Lemma mutate_disable_edge_loop_reach (depth : Z -> Q) (fuel : nat)
    (enabled : list nat) (rs : nat -> nat) (tries : nat) (self : Genome.t) :
  enabled <> [] ->
  ascending depth (Genome.genes self) ->
  (length (Genome.genes self) < fuel)%nat ->
  reach (Genome.genes self) 0 2 ->
  exists self',
    Genome.mutate_disable_edge_loop fuel enabled rs tries self = inr self'
    /\ reach (Genome.genes self') 0 2.
Proof.
  intros Hen. revert self.
  induction tries as [|tries IH]; intros self Hasc Hfuel Hreach.
  - by exists self.
  - cbn [Genome.mutate_disable_edge_loop].
    destruct (choice_is_Some (rs (S tries)) enabled Hen) as [i ->].
    destruct (disable_edge_reach depth fuel i self Hasc Hfuel Hreach)
      as (b & self' & -> & Hasc' & Hlen' & Hreach').
    destruct b.
    + by exists self'.
    + apply IH; [done|lia|done].
Qed.
(** Whatever the genome, a call of [disable_edge] that returns leaves node 2
    reachable from node 0 if it was. *)
Lemma disable_edge_returns_reach (fuel i : nat) (self : Genome.t) (b : bool)
    (self' : Genome.t) :
  reach (Genome.genes self) 0 2 ->
  Genome.disable_edge fuel i self = inr (b, self') ->
  reach (Genome.genes self') 0 2.
Proof.
  intros Hreach. unfold Genome.disable_edge.
  destruct (Genome.dfs fuel (Genome.genes (Genome.assign_enabled i false self)) 0 2)
    as [[|]|] eqn:Hdfs; intros H; [| |done].
  - injection H as <- <-. by eapply dfs_true_reach.
  - injection H as <- <-. by apply reach_disable_enable.
Qed.

Lemma mutate_disable_edge_loop_returns_reach (fuel : nat) (enabled : list nat)
    (rs : nat -> nat) (tries : nat) (self self' : Genome.t) :
  reach (Genome.genes self) 0 2 ->
  Genome.mutate_disable_edge_loop fuel enabled rs tries self = inr self' ->
  reach (Genome.genes self') 0 2.
Proof.
  revert self. induction tries as [|tries IH]; intros self Hreach.
  - cbn. by intros [= <-].
  - cbn [Genome.mutate_disable_edge_loop].
    destruct (choice (rs (S tries)) enabled) as [i|]; [|done].
    destruct (Genome.disable_edge fuel i self) as [?|[b self1]] eqn:Hd; [done|].
    pose proof (disable_edge_returns_reach fuel i self b self1 Hreach Hd) as Hreach1.
    destruct b.
    + by intros [= <-].
    + by apply IH.
Qed.
End disable.

Lemma genome_of_init (ns : list Node.t) (gs : list Gene.t) (d : Genome.InitGenomeDraws) :
  Genome.init (imports := trivial_imports) ADAMGene None (Some ns) (Some gs)
    0 0 None None inf 0 d
  = Some (genome_of ns gs).
Proof. reflexivity. Qed.

Lemma three_nodes_feed_forward (gs : list Gene.t) :
  Forall (fun e => (Gene.id_in e, Gene.id_out e) ∈ [(0, 1); (1, 2); (0, 2)]) gs ->
  feed_forward (genome_of three_nodes gs).
Proof.
  intros Hgs e He. rewrite Forall_forall in Hgs. specialize (Hgs e He).
  cbn. each_member Hgs; injection Hgs as -> ->.
  - exists (Node.mk 0 0 (Some role_input) upscale None),
           (Node.mk 1 1 (Some role_flatten) upscale None).
    repeat split; cbn; try lra.
  - exists (Node.mk 1 1 (Some role_flatten) upscale None),
           (Node.mk 2 2 (Some role_output) upscale None).
    repeat split; cbn; try lra.
  - exists (Node.mk 0 0 (Some role_input) upscale None),
           (Node.mk 2 2 (Some role_output) upscale None).
    repeat split; cbn; try lra.
Qed.

(** C2: for every genome in which node 2 is reachable from node 0 through
    enabled edges, node 2 is still reachable from node 0 through enabled
    edges after any call of [mutate_disable_edge]: every call that returns
    leaves it reachable, and on a genome of the data model, which is
    feed-forward, every call returns, with node 2 reachable, the recursion
    of [dfs] needing a depth of at most the number of genes plus one. *)
Theorem mutate_disable_edge_keeps_output_reachable {imports : Imported}
    (self : Genome.t) (rs : nat -> nat) (tries fuel : nat) :
  reach (Genome.genes self) 0 2 ->
  (forall self',
      Genome.mutate_disable_edge fuel rs tries self = inr self' ->
      reach (Genome.genes self') 0 2)
  /\ (feed_forward self ->
      (length (Genome.genes self) < fuel)%nat ->
      exists self',
        Genome.mutate_disable_edge fuel rs tries self = inr self'
        /\ reach (Genome.genes self') 0 2).
Proof.
  intros Hreach.
  assert (Hkeeps : forall self',
             Genome.mutate_disable_edge fuel rs tries self = inr self' ->
             reach (Genome.genes self') 0 2).
  { unfold Genome.mutate_disable_edge.
    destruct (0 <? length (Genome.enabled_edges self))%nat.
    - intros self'. by apply mutate_disable_edge_loop_returns_reach.
    - by intros self' [= <-]. }
  split; [exact Hkeeps|]. intros Hff Hfuel.
  assert (Hreturns : exists self',
             Genome.mutate_disable_edge fuel rs tries self = inr self').
  { unfold Genome.mutate_disable_edge.
    destruct (Nat.ltb_spec 0 (length (Genome.enabled_edges self))) as [Hlen|Hlen];
      [|by exists self].
    destruct (mutate_disable_edge_loop_reach (depth_of self) fuel
                (Genome.enabled_edges self) rs tries self) as (self' & Hloop & _);
      [|by apply feed_forward_ascending|done|done|by exists self'].
    intros Hnil. rewrite Hnil in Hlen. cbn in Hlen. lia. }
  destruct Hreturns as [self' Hret]. exists self'. split; [exact Hret|by apply Hkeeps].
Qed.

Lemma triangle_reach : reach (Genome.genes triangle_genome) 0 2.
Proof.
  apply (reach_step _ (dense_gene 5 0 2)); [|done|done|apply reach_refl].
  cbn. set_solver.
Qed.

Lemma mutate_disable_edge_keeps_output_reachable_witness :
  reach (Genome.genes triangle_genome) 0 2
  /\ feed_forward triangle_genome
  /\ (length (Genome.genes triangle_genome) < 4)%nat
  /\ (forall self',
        Genome.mutate_disable_edge 4 (fun _ => 2%nat) 2 triangle_genome = inr self' ->
        reach (Genome.genes self') 0 2)
  /\ exists self',
       Genome.mutate_disable_edge 4 (fun _ => 2%nat) 2 triangle_genome = inr self'
       /\ reach (Genome.genes self') 0 2.
Proof.
  assert (Hff : feed_forward triangle_genome).
  { apply three_nodes_feed_forward. repeat constructor; cbn; set_solver. }
  assert (Hlen : (length (Genome.genes triangle_genome) < 4)%nat) by (cbn; lia).
  split; [exact triangle_reach|]. split; [exact Hff|]. split; [exact Hlen|].
  destruct (mutate_disable_edge_keeps_output_reachable triangle_genome (fun _ => 2%nat) 2 4
              triangle_reach) as [Hkeeps Hreturns].
  split; [exact Hkeeps|exact (Hreturns Hff Hlen)].
Defined.

(** On the cyclic genome with the edge 0 -> 2 disabled, [dfs] from node 0
    or node 1 exhausts every recursion depth. *)
Lemma cyclic_dfs_overflows (fuel : nat) :
  Genome.dfs fuel (Genome.genes (Genome.assign_enabled 2 false cyclic_genome)) 0 2 = None
  /\ Genome.dfs fuel (Genome.genes (Genome.assign_enabled 2 false cyclic_genome)) 1 2 = None.
Proof.
  induction fuel as [|fuel [IH0 IH1]]; [done|].
  split.
  - change (Genome.dfs (S fuel) (Genome.genes (Genome.assign_enabled 2 false cyclic_genome)) 0 2)
      with (match Genome.dfs fuel
                    (Genome.genes (Genome.assign_enabled 2 false cyclic_genome)) 1 2 with
            | None => None
            | Some true => Some true
            | Some false => Some false
            end).
    by rewrite IH1.
  - change (Genome.dfs (S fuel) (Genome.genes (Genome.assign_enabled 2 false cyclic_genome)) 1 2)
      with (match Genome.dfs fuel
                    (Genome.genes (Genome.assign_enabled 2 false cyclic_genome)) 0 2 with
            | None => None
            | Some true => Some true
            | Some false => Some false
            end).
    by rewrite IH0.
Qed.

Lemma cyclic_reach_stays (s t : Z) :
  reach (Genome.genes (Genome.assign_enabled 2 false cyclic_genome)) s t ->
  s ∈ [0; 1] -> t ∈ [0; 1].
Proof.
  induction 1 as [s|e s t He Hen Hin _ IH]; [done|].
  intros _. apply IH. cbn in He.
  each_member He; subst e; cbn in *; try discriminate; set_solver.
Qed.

(** The bound on the recursion of [dfs] rests on the feed-forward order.
    On a list of genes with a cycle, which no genome of the data model has
    and no operation builds (nodes 0, 1, 2 and the enabled genes 0 -> 1,
    1 -> 0, 0 -> 2), the search of [disable_edge] for node 2 without the
    gene 0 -> 2 recurses between nodes 0 and 1 beyond every recursion
    limit. *)
Lemma mutate_disable_edge_on_cycle :
  reach (Genome.genes cyclic_genome) 0 2
  /\ (forall fuel : nat,
        Genome.mutate_disable_edge fuel (fun _ => 2%nat) 2 cyclic_genome
        = inl (RecursionError, Genome.assign_enabled 2 false cyclic_genome))
  /\ ~ reach (Genome.genes (Genome.assign_enabled 2 false cyclic_genome)) 0 2.
Proof.
  split; [|split].
  - apply (reach_step _ (dense_gene 5 0 2)); [|done|done|apply reach_refl].
    cbn. set_solver.
  - intros fuel.
    assert (Hd : Genome.disable_edge fuel 2 cyclic_genome
                 = inl (RecursionError, Genome.assign_enabled 2 false cyclic_genome)).
    { unfold Genome.disable_edge. by rewrite (proj1 (cyclic_dfs_overflows fuel)). }
    unfold Genome.mutate_disable_edge.
    change (Genome.enabled_edges cyclic_genome) with [0; 1; 2]%nat.
    cbn [length Nat.ltb Nat.leb Genome.mutate_disable_edge_loop].
    change (choice 2 [0; 1; 2]%nat) with (Some 2%nat).
    cbv beta iota. by rewrite Hd.
  - intros Hreach.
    assert (H2 : 2 ∈ [0; 1]).
    { apply (cyclic_reach_stays 0 2 Hreach). left. }
    each_member H2; discriminate.
Qed.

(** ** Splitting edges *)

(** Every gene class may be followed by some class: [add_after] returns. *)
Lemma add_after_is_Some (rc : nat) (d : InitDraws) (self : Gene.t) (id id_in id_out : Z) :
  exists cls, Gene.add_after rc d self id id_in id_out
              = Some (Gene.construct cls d id id_in id_out).
Proof.
  unfold Gene.add_after, Gene.mutate_to.
  destruct (Gene.payload self).
  - change (weighted_choice rc _ _) with (choice rc [KernelGeneC; PoolGeneC]).
    destruct (choice_is_Some rc [KernelGeneC; PoolGeneC]) as [cls ->]; [done|by exists cls].
  - change (weighted_choice rc _ _) with (choice rc [KernelGeneC; PoolGeneC]).
    destruct (choice_is_Some rc [KernelGeneC; PoolGeneC]) as [cls ->]; [done|by exists cls].
  - change (weighted_choice rc _ _) with (choice rc [DenseGeneC]).
    destruct (choice_is_Some rc [DenseGeneC]) as [cls ->]; [done|by exists cls].
Qed.

(** The cut-off: the new depth lies between the two bounds when they are in
    order, and then strictly between [d1] and [d2] when the bounds do. *)
Lemma new_depth_in_cut (d1 d2 x : Q) :
  (Genome.cut_low d1 d2 <= Genome.cut_high d1 d2)%Q ->
  (Genome.cut_low d1 d2 <= Genome.new_depth d1 d2 x <= Genome.cut_high d1 d2)%Q.
Proof.
  intros Hlh. unfold Genome.new_depth.
  set (lo := Genome.cut_low d1 d2) in *. set (hi := Genome.cut_high d1 d2) in *.
  destruct (Q.max_spec lo x) as [[H1 H2]|[H1 H2]];
    destruct (Q.min_spec hi (Qmax lo x)) as [[H3 H4]|[H3 H4]];
    rewrite H4; rewrite ?H2 in *; split; lra.
Qed.

Section split.
Context {imports : Imported}.

Lemma selected_edge_spec (r : nat) (self : Genome.t) (i : nat) (edge : Gene.t) :
  selected_edge r self = Some (i, edge) <->
  choice r (Genome.enabled_edges self) = Some i /\ Genome.genes self !! i = Some edge.
Proof.
  unfold selected_edge. split.
  - destruct (choice r (Genome.enabled_edges self)) as [j|]; [|done]. cbn.
    destruct (Genome.genes self !! j) as [e|] eqn:He; [|done]. cbn.
    intros [= -> ->]. done.
  - intros [-> H]. cbn. by rewrite H.
Qed.

Lemma selected_edge_enabled (r : nat) (self : Genome.t) (i : nat) (edge : Gene.t) :
  selected_edge r self = Some (i, edge) ->
  edge ∈ Genome.genes self /\ Gene.enabled edge = true.
Proof.
  intros H. apply selected_edge_spec in H as [Hc Hi].
  apply choice_elem_of, elem_of_positions in Hc as (e & He & Hen).
  rewrite Hi in He. injection He as <-.
  split; [by eapply list_elem_of_lookup_2|done].
Qed.

(** Some enabled edge is selected whenever there is one. *)
Lemma selected_edge_is_Some (r : nat) (self : Genome.t) :
  Genome.enabled_edges self <> [] ->
  exists i edge, selected_edge r self = Some (i, edge).
Proof.
  intros Hne. destruct (choice_is_Some r _ Hne) as [i Hi].
  pose proof (choice_elem_of _ _ _ Hi) as Hpos.
  apply elem_of_positions in Hpos as (e & He & _).
  exists i, e. by apply selected_edge_spec.
Qed.

(** The effect of [split_edge] on the selected edge. *)
Lemma split_edge_selected (d : Genome.SplitDraws) (cache : gmap Z Innovation)
    (gen : Z) (self : Genome.t) (i : nat) (edge : Gene.t) (n_in n_out : Node.t) :
  selected_edge (Genome.sd_edge d) self = Some (i, edge) ->
  Genome.nodes_by_id self !! Gene.id_in edge = Some n_in ->
  Genome.nodes_by_id self !! Gene.id_out edge = Some n_out ->
  exists self' id1 id2 id3 depth cache' gen' cls,
    Genome.innovation (Genome.sd_normal d) (Gene.id edge) (Node.depth n_in)
      (Node.depth n_out) cache gen = (id1, id2, id3, depth, cache', gen')
    /\ Genome.split_edge d cache gen self = inr (self', cache', gen')
    /\ Genome.nodes self'
       = Genome.nodes self ++ [Node.init id1 depth None None (Genome.sd_merge d)]
    /\ Genome.genes self'
       = alter (Gene.set_enabled false) i (Genome.genes self)
         ++ [Gene.copy (Genome.sd_copy d) edge id2 (Gene.id_in edge) id1;
             Gene.construct cls (Genome.sd_after d) id3 id1 (Gene.id_out edge)].
Proof.
  intros Hsel Hin Hout.
  apply selected_edge_spec in Hsel as [Hc Hi].
  unfold Genome.split_edge.
  assert (Hlen : (0 <? length (Genome.enabled_edges self))%nat = true).
  { apply Nat.ltb_lt. apply choice_elem_of in Hc.
    destruct (Genome.enabled_edges self); [by apply elem_of_nil in Hc|cbn; lia]. }
  rewrite Hlen, Hc, Hi, Hin, Hout.
  destruct (Genome.innovation _ _ _ _ _ _) as [[[[[id1 id2] id3] depth] cache'] gen'] eqn:Hinn.
  destruct (add_after_is_Some (Genome.sd_class d) (Genome.sd_after d) edge id3
              (Node.id (Node.init id1 depth None None (Genome.sd_merge d)))
              (Gene.id_out edge)) as [cls ->].
  eexists _, id1, id2, id3, depth, cache', gen', cls.
  repeat split.
Qed.

(** [split_edge] returns only if the endpoints of the selected edge are
    known to [nodes_by_id]. *)
Lemma split_edge_returns_endpoints (d : Genome.SplitDraws) (cache : gmap Z Innovation)
    (gen : Z) (self : Genome.t) (i : nat) (edge : Gene.t) res :
  selected_edge (Genome.sd_edge d) self = Some (i, edge) ->
  Genome.split_edge d cache gen self = inr res ->
  exists n_in n_out,
    Genome.nodes_by_id self !! Gene.id_in edge = Some n_in
    /\ Genome.nodes_by_id self !! Gene.id_out edge = Some n_out.
Proof.
  intros Hsel. apply selected_edge_spec in Hsel as [Hc Hi].
  unfold Genome.split_edge.
  assert (Hlen : (0 <? length (Genome.enabled_edges self))%nat = true).
  { apply Nat.ltb_lt. apply choice_elem_of in Hc.
    destruct (Genome.enabled_edges self); [by apply elem_of_nil in Hc|cbn; lia]. }
  rewrite Hlen, Hc, Hi.
  destruct (Genome.nodes_by_id self !! Gene.id_in edge) as [n_in|]; [|done].
  destruct (Genome.nodes_by_id self !! Gene.id_out edge) as [n_out|]; [|done].
  intros _. by exists n_in, n_out.
Qed.
End split.

Lemma minimal_feed_forward : feed_forward minimal_genome.
Proof. apply three_nodes_feed_forward. repeat constructor; cbn; set_solver. Qed.

Lemma minimal_selected_first :
  selected_edge 0 minimal_genome = Some (0%nat, dense_gene 3 0 1).
Proof. reflexivity. Qed.

Lemma Qlt_bool_iff (a b : Q) : Qlt_bool a b = true <-> (a < b)%Q.
Proof.
  unfold Qlt_bool. rewrite negb_true_iff. split.
  - intros H. apply Qnot_le_lt. intros Hle. apply Qle_bool_iff in Hle. congruence.
  - intros Hlt. destruct (Qle_bool b a) eqn:Hle; [|done].
    apply Qle_bool_iff in Hle. exfalso. by apply (Qlt_not_le _ _ Hlt).
Qed.

Lemma feed_forward_b_spec {imports : Imported} (self : Genome.t) :
  feed_forward_b self = true <-> feed_forward self.
Proof.
  unfold feed_forward_b, feed_forward. rewrite List.forallb_forall. split.
  - intros H e He. specialize (H e (proj1 (list_elem_of_In _ _) He)).
    destruct (Genome.nodes_by_id self !! Gene.id_in e) as [n1|]; [|done].
    destruct (Genome.nodes_by_id self !! Gene.id_out e) as [n2|]; [|done].
    exists n1, n2. split; [done|]. split; [done|]. by apply Qlt_bool_iff.
  - intros H e He. destruct (H e (proj2 (list_elem_of_In _ _) He))
      as (n1 & n2 & -> & -> & Hlt). by apply Qlt_bool_iff.
Qed.

(** C1: the depth that [split_edge] gives the new node is not always
    strictly between the depths of the endpoints of the split edge, against
    the comment of line 166.  The minimal genome is feed-forward.  After 52
    calls of [split_edge], each on the last enabled gene and with the
    variate at its mean, the genome is still feed-forward and its last
    enabled gene leads from a node of depth [2 - 2^-52] to node 2, of depth
    2; these are neighbouring floats.  In the next call, on that gene, both
    bounds of the cut-off round to an endpoint: the new node gets the depth
    2 of node 2, its successor gene joins two nodes of equal depth, and the
    genome is no longer feed-forward.  On these endpoints only a variate
    strictly between the two depths, which no float is, would give a depth
    strictly between them. *)
Theorem split_edge_new_node_on_endpoint :
  feed_forward minimal_genome
  /\ exists self gen i edge n_in n_out self' cache' gen' n,
       repeated_split 52 minimal_genome 5 = inr (self, gen)
       /\ feed_forward self
       /\ selected_edge (Genome.sd_edge (last_edge_draws self)) self = Some (i, edge)
       /\ Genome.nodes_by_id self !! Gene.id_in edge = Some n_in
       /\ Genome.nodes_by_id self !! Gene.id_out edge = Some n_out
       /\ Node.depth n_in = (9007199254740991 # 4503599627370496)%Q
       /\ Node.depth n_out = 2%Q
       /\ Genome.sd_normal (last_edge_draws self)
          = mean_depth (Node.depth n_in) (Node.depth n_out)
       /\ Genome.split_edge (last_edge_draws self) ∅ gen self = inr (self', cache', gen')
       /\ Genome.nodes self' = Genome.nodes self ++ [n]
       /\ Genome.cut_low (Node.depth n_in) (Node.depth n_out) = Node.depth n_in
       /\ Genome.cut_high (Node.depth n_in) (Node.depth n_out) = Node.depth n_out
       /\ Node.depth n = Node.depth n_out
       /\ ~ (Node.depth n_in < Node.depth n < Node.depth n_out)%Q
       /\ ~ feed_forward self'
       /\ forall x : Q,
            (Node.depth n_in
             < Genome.new_depth (Node.depth n_in) (Node.depth n_out) x
             < Node.depth n_out)%Q ->
            (Node.depth n_in < x < Node.depth n_out)%Q.
Proof.
  split; [exact minimal_feed_forward|].
  eexists _, _, _, _, _, _, _, _, _, _.
  split; [vm_compute; reflexivity|].
  split; [apply feed_forward_b_spec; vm_compute; reflexivity|].
  split; [vm_compute; reflexivity|].
  split; [vm_compute; reflexivity|].
  split; [vm_compute; reflexivity|].
  split; [reflexivity|]. split; [reflexivity|].
  split; [vm_compute; reflexivity|].
  split; [vm_compute; reflexivity|].
  split; [vm_compute; reflexivity|].
  cbn [Node.depth].
  assert (Hlow : Genome.cut_low (9007199254740991 # 4503599627370496) 2
                 = (9007199254740991 # 4503599627370496)%Q) by (vm_compute; reflexivity).
  assert (Hhigh : Genome.cut_high (9007199254740991 # 4503599627370496) 2 = 2%Q)
    by (vm_compute; reflexivity).
  split; [exact Hlow|]. split; [exact Hhigh|].
  split; [reflexivity|].
  split; [intros [_ H]; by apply Qlt_irrefl in H|].
  split; [intros H%feed_forward_b_spec; vm_compute in H; discriminate|].
  intros x. unfold Genome.new_depth. rewrite Hlow, Hhigh.
  set (d1 := (9007199254740991 # 4503599627370496)%Q).
  destruct (Q.max_spec d1 x) as [[H1 H2]|[H1 H2]];
    destruct (Q.min_spec 2 (Qmax d1 x)) as [[H3 H4]|[H3 H4]];
    rewrite H4; rewrite ?H2 in *; intros [Ha Hb]; split; lra.
Qed.

(** ** The innovation cache *)

(** After [innovation], the cache holds the returned entry for the edge. *)
Lemma innovation_saved (x : Q) (edge_id : Z) (d1 d2 : Q) (cache : gmap Z Innovation)
    (gen : Z) (entry : Innovation) (cache' : gmap Z Innovation) (gen' : Z) :
  Genome.innovation x edge_id d1 d2 cache gen = (entry, cache', gen') ->
  cache' !! edge_id = Some entry.
Proof.
  unfold Genome.innovation.
  destruct (cache !! edge_id) as [e|] eqn:He.
  - intros [= <- <- <-]. done.
  - cbn. intros [= <- <- <-]. apply lookup_insert_eq.
Qed.

(** [innovation] only adds to the cache. *)
Lemma innovation_extends (x : Q) (edge_id : Z) (d1 d2 : Q) (cache : gmap Z Innovation)
    (gen : Z) (entry : Innovation) (cache' : gmap Z Innovation) (gen' : Z) :
  Genome.innovation x edge_id d1 d2 cache gen = (entry, cache', gen') ->
  cache ⊆ cache'.
Proof.
  unfold Genome.innovation.
  destruct (cache !! edge_id) as [e|] eqn:He.
  - intros [= <- <- <-]. done.
  - cbn. intros [= <- <- <-]. by apply insert_subseteq.
Qed.

(** On a cached edge, [innovation] returns the entry and issues no id. *)
Lemma innovation_cached (x : Q) (edge_id : Z) (d1 d2 : Q) (cache : gmap Z Innovation)
    (gen : Z) (entry : Innovation) :
  cache !! edge_id = Some entry ->
  Genome.innovation x edge_id d1 d2 cache gen = (entry, cache, gen).
Proof. intros H. unfold Genome.innovation. by rewrite H. Qed.

(** C6: two calls of [split_edge] sharing the innovation cache (the second
    call sees the cache the first one left, possibly extended by other
    splits) that select edges with the same id append a node with the same
    id and depth and genes with the same ids; the second call issues no id
    and leaves the cache as it is. *)
Theorem split_edge_reuses_innovation {imports : Imported}
    (self1 self2 self1' self2' : Genome.t) (d1 d2 : Genome.SplitDraws)
    (cache cache1 cache2 cache2' : gmap Z Innovation) (gen1 gen1' gen2 gen2' : Z)
    (i1 i2 : nat) (e1 e2 : Gene.t) :
  selected_edge (Genome.sd_edge d1) self1 = Some (i1, e1) ->
  Genome.split_edge d1 cache gen1 self1 = inr (self1', cache1, gen1') ->
  cache1 ⊆ cache2 ->
  selected_edge (Genome.sd_edge d2) self2 = Some (i2, e2) ->
  Genome.split_edge d2 cache2 gen2 self2 = inr (self2', cache2', gen2') ->
  Gene.id e1 = Gene.id e2 ->
  exists n1 a1 b1 n2 a2 b2,
    Genome.nodes self1' = Genome.nodes self1 ++ [n1]
    /\ Genome.genes self1'
       = alter (Gene.set_enabled false) i1 (Genome.genes self1) ++ [a1; b1]
    /\ Genome.nodes self2' = Genome.nodes self2 ++ [n2]
    /\ Genome.genes self2'
       = alter (Gene.set_enabled false) i2 (Genome.genes self2) ++ [a2; b2]
    /\ Node.id n1 = Node.id n2
    /\ Node.depth n1 = Node.depth n2
    /\ Gene.id a1 = Gene.id a2
    /\ Gene.id b1 = Gene.id b2
    /\ cache2' = cache2
    /\ gen2' = gen2.
Proof.
  intros Hsel1 Hsplit1 Hsub Hsel2 Hsplit2 Hid.
  destruct (split_edge_returns_endpoints _ _ _ _ _ _ _ Hsel1 Hsplit1) as (m1 & m2 & Hm1 & Hm2).
  destruct (split_edge_returns_endpoints _ _ _ _ _ _ _ Hsel2 Hsplit2) as (m3 & m4 & Hm3 & Hm4).
  destruct (split_edge_selected d1 cache gen1 self1 i1 e1 m1 m2 Hsel1 Hm1 Hm2)
    as (s1 & id1 & id2 & id3 & depth & c1 & g1 & cls1 & Hinn1 & Hs1 & Hnodes1 & Hgenes1).
  destruct (split_edge_selected d2 cache2 gen2 self2 i2 e2 m3 m4 Hsel2 Hm3 Hm4)
    as (s2 & j1 & j2 & j3 & depth' & c2 & g2 & cls2 & Hinn2 & Hs2 & Hnodes2 & Hgenes2).
  rewrite Hsplit1 in Hs1. injection Hs1 as <- <- <-.
  rewrite Hsplit2 in Hs2. injection Hs2 as <- <- <-.
  apply innovation_saved in Hinn1.
  assert (Hentry : cache2 !! Gene.id e2 = Some (id1, id2, id3, depth)).
  { rewrite <- Hid. by eapply lookup_weaken. }
  rewrite (innovation_cached _ _ _ _ _ _ _ Hentry) in Hinn2.
  injection Hinn2 as <- <- <- <- <- <-.
  eexists _, _, _, _, _, _.
  split; [exact Hnodes1|]. split; [exact Hgenes1|].
  split; [exact Hnodes2|]. split; [exact Hgenes2|].
  repeat split.
Qed.

Lemma split_edge_reuses_innovation_witness :
  exists (self1' self2' : Genome.t (imports := trivial_imports))
         (cache1 cache2' : gmap Z Innovation) (gen1' gen2' : Z),
    selected_edge 0 minimal_genome = Some (0%nat, dense_gene 3 0 1)
    /\ Genome.split_edge (first_edge_draws (1 # 2)) ∅ 5 minimal_genome
       = inr (self1', cache1, gen1')
    /\ cache1 ⊆ cache1
    /\ selected_edge 0 triangle_genome = Some (0%nat, dense_gene 3 0 1)
    /\ Genome.split_edge (first_edge_draws (1 # 3)) cache1 20 triangle_genome
       = inr (self2', cache2', gen2')
    /\ exists n1 a1 b1 n2 a2 b2,
         Genome.nodes self1' = Genome.nodes minimal_genome ++ [n1]
         /\ Genome.genes self1'
            = alter (Gene.set_enabled false) 0%nat (Genome.genes minimal_genome) ++ [a1; b1]
         /\ Genome.nodes self2' = Genome.nodes triangle_genome ++ [n2]
         /\ Genome.genes self2'
            = alter (Gene.set_enabled false) 0%nat (Genome.genes triangle_genome) ++ [a2; b2]
         /\ Node.id n1 = Node.id n2
         /\ Node.depth n1 = Node.depth n2
         /\ Gene.id a1 = Gene.id a2
         /\ Gene.id b1 = Gene.id b2
         /\ cache2' = cache1
         /\ gen2' = 20.
Proof.
  destruct (split_edge_selected (first_edge_draws (1 # 2)) ∅ 5 minimal_genome
              0%nat (dense_gene 3 0 1)
              (Node.mk 0 0 (Some role_input) upscale None)
              (Node.mk 1 1 (Some role_flatten) upscale None)
              minimal_selected_first eq_refl eq_refl)
    as (self1' & id1 & id2 & id3 & depth & cache1 & gen1' & cls1 & _ & Hsplit1 & _).
  destruct (split_edge_selected (first_edge_draws (1 # 3)) cache1 20 triangle_genome
              0%nat (dense_gene 3 0 1)
              (Node.mk 0 0 (Some role_input) upscale None)
              (Node.mk 1 1 (Some role_flatten) upscale None)
              eq_refl eq_refl eq_refl)
    as (self2' & j1 & j2 & j3 & depth' & cache2' & gen2' & cls2 & _ & Hsplit2 & _).
  exists self1', self2', cache1, cache2', gen1', gen2'.
  split; [reflexivity|]. split; [exact Hsplit1|]. split; [reflexivity|].
  split; [reflexivity|]. split; [exact Hsplit2|].
  exact (split_edge_reuses_innovation minimal_genome triangle_genome self1' self2'
           (first_edge_draws (1 # 2)) (first_edge_draws (1 # 3)) ∅ cache1 cache1 cache2'
           5 gen1' 20 gen2' 0%nat 0%nat (dense_gene 3 0 1) (dense_gene 3 0 1)
           minimal_selected_first Hsplit1 (reflexivity cache1) eq_refl Hsplit2 eq_refl).
Defined.

(** ** Adding edges *)

Lemma sample2_elem_of {A : Type} (r : nat * nat) (l : list A) (a b : A) :
  sample2 r l = Some (a, b) -> a ∈ l /\ b ∈ l.
Proof.
  unfold sample2. destruct (length l <? 2)%nat; [done|].
  set (i := (r.1 mod length l)%nat).
  set (j := if (_ <? i)%nat then _ else _). clearbody j. clearbody i.
  destruct (l !! i) as [a'|] eqn:Ha; cbn; [|done].
  destruct (l !! j) as [b'|] eqn:Hb; cbn; [|done].
  intros H. simplify_eq. split; by eapply list_elem_of_lookup_2.
Qed.

Lemma sample2_is_Some {A : Type} (r : nat * nat) (l : list A) :
  (2 <= length l)%nat -> is_Some (sample2 r l).
Proof.
  intros Hlen. unfold sample2.
  destruct (Nat.ltb_spec (length l) 2) as [?|_]; [lia|].
  set (i := (r.1 mod length l)%nat). set (j0 := (r.2 mod (length l - 1))%nat).
  assert (Hi : (i < length l)%nat) by (apply Nat.mod_upper_bound; lia).
  assert (Hj0 : (j0 < length l - 1)%nat) by (apply Nat.mod_upper_bound; lia).
  set (j := if (j0 <? i)%nat then j0 else S j0).
  assert (Hj : (j < length l)%nat) by (unfold j; destruct (j0 <? i)%nat; lia).
  destruct (lookup_lt_is_Some_2 l i Hi) as [a Ha].
  destruct (lookup_lt_is_Some_2 l j Hj) as [b Hb].
  rewrite Ha, Hb. by eexists.
Qed.

Lemma endpoints_app (gs : list Gene.t) (e : Gene.t) :
  Genome.endpoints (gs ++ [e]) = Genome.endpoints gs ++ [(Gene.id_in e, Gene.id_out e)].
Proof. unfold Genome.endpoints. by rewrite fmap_app. Qed.

(** Among node objects with distinct ids, an id names one object. *)
Lemma node_of_id_unique (ns : list Node.t) (n n' : Node.t) :
  NoDup (Node.id <$> ns) -> n ∈ ns -> n' ∈ ns -> Node.id n = Node.id n' -> n = n'.
Proof.
  induction ns as [|m ns IH]; intros Hnd Hn Hn' Hid; [by apply elem_of_nil in Hn|].
  rewrite fmap_cons in Hnd. apply NoDup_cons in Hnd as [Hm Hnd].
  apply elem_of_cons in Hn as [->|Hn]; apply elem_of_cons in Hn' as [->|Hn'].
  - done.
  - exfalso. apply Hm. rewrite Hid. apply list_elem_of_fmap. by exists n'.
  - exfalso. apply Hm. rewrite <- Hid. apply list_elem_of_fmap. by exists n.
  - by apply IH.
Qed.

Section add.
Context {imports : Imported}.

(** What one call of [add_edge] may do to a genome. *)
Lemma add_edge_loop_spec (d : Genome.AddDraws) (tries : nat) (gen : Z) (self : Genome.t) :
  (2 <= length (Genome.nodes self))%nat ->
  exists self' gen',
    Genome.add_edge_loop d tries gen self = inr (self', gen')
    /\ Genome.nodes self' = Genome.nodes self
    /\ (Genome.genes self' = Genome.genes self
        \/ exists new n1 n2,
             Genome.genes self' = Genome.genes self ++ [new]
             /\ ((Gene.id_in new, Gene.id_out new) ∉ Genome.endpoints (Genome.genes self))
             /\ n1 ∈ Genome.nodes self /\ n2 ∈ Genome.nodes self
             /\ Node.id n1 = Gene.id_in new /\ Node.id n2 = Gene.id_out new
             /\ (Node.depth n1 < Node.depth n2)%Q).
Proof.
  intros Hlen. induction tries as [|tries IH].
  - exists self, gen. split; [done|]. split; [done|]. by left.
  - cbn [Genome.add_edge_loop].
    destruct (sample2_is_Some (Genome.ad_sample d (S tries)) _ Hlen) as [[a b] Hs].
    rewrite Hs. apply sample2_elem_of in Hs as [Ha Hb].
    assert (Hord : exists n1 n2,
               (if negb (Qle_bool (Node.depth a) (Node.depth b)) then (b, a) else (a, b))
               = (n1, n2)
               /\ n1 ∈ Genome.nodes self /\ n2 ∈ Genome.nodes self
               /\ (Node.depth n1 <= Node.depth n2)%Q).
    { destruct (Qle_bool (Node.depth a) (Node.depth b)) eqn:Hle; cbn.
      - exists a, b. apply Qle_bool_iff in Hle. done.
      - exists b, a. repeat split; [done|done|].
        apply Qlt_le_weak, Qnot_le_lt. intros H. apply Qle_bool_iff in H. congruence. }
    destruct Hord as (n1 & n2 & -> & Hn1 & Hn2 & Hle).
    destruct (Qeq_bool (Node.depth n1) (Node.depth n2)
              || bool_decide ((Node.id n1, Node.id n2) ∈ Genome.endpoints (Genome.genes self)))
      eqn:Hrej; [exact IH|].
    apply orb_false_iff in Hrej as [Hne Hnew].
    apply bool_decide_eq_false in Hnew.
    cbn [Genome.next_id].
    change (weighted_choice (Genome.ad_class d) [KernelGeneC; PoolGeneC; DenseGeneC] [1; 1; 1])
      with (choice (Genome.ad_class d) [KernelGeneC; PoolGeneC; DenseGeneC]).
    destruct (choice_is_Some (Genome.ad_class d) [KernelGeneC; PoolGeneC; DenseGeneC])
      as [cls ->]; [done|].
    eexists _, _. split; [reflexivity|]. split; [reflexivity|]. right.
    exists (Gene.construct cls (Genome.ad_init d) gen (Node.id n1) (Node.id n2)), n1, n2.
    repeat split; try done.
    apply Qle_lteq in Hle as [Hlt|Heq]; [done|].
    apply Qeq_bool_iff in Heq. congruence.
Qed.

Lemma add_edge_spec (d : Genome.AddDraws) (gen : Z) (self : Genome.t) :
  exists self' gen',
    Genome.add_edge d gen self = inr (self', gen')
    /\ Genome.nodes self' = Genome.nodes self
    /\ (Genome.genes self' = Genome.genes self
        \/ exists new n1 n2,
             Genome.genes self' = Genome.genes self ++ [new]
             /\ ((Gene.id_in new, Gene.id_out new) ∉ Genome.endpoints (Genome.genes self))
             /\ n1 ∈ Genome.nodes self /\ n2 ∈ Genome.nodes self
             /\ Node.id n1 = Gene.id_in new /\ Node.id n2 = Gene.id_out new
             /\ (Node.depth n1 < Node.depth n2)%Q).
Proof.
  unfold Genome.add_edge.
  destruct (Nat.leb_spec 2 (length (Genome.nodes self))) as [Hlen|_].
  - by apply add_edge_loop_spec.
  - exists self, gen. split; [done|]. split; [done|]. by left.
Qed.

Lemma add_edge_preserves (d : Genome.AddDraws) (gen : Z) (self : Genome.t) :
  exists self' gen',
    Genome.add_edge d gen self = inr (self', gen')
    /\ (NoDup (Genome.endpoints (Genome.genes self)) ->
        NoDup (Genome.endpoints (Genome.genes self')))
    /\ (edges_ascend self -> edges_ascend self').
Proof.
  destruct (add_edge_spec d gen self) as (self' & gen' & Hadd & Hnodes & Hgenes).
  exists self', gen'. split; [done|].
  destruct Hgenes as [Hsame|(new & n1 & n2 & Hgenes & Hnew & Hn1 & Hn2 & Hid1 & Hid2 & Hlt)].
  - split; [by rewrite Hsame|].
    intros Hasc e He. rewrite Hsame in He. rewrite Hnodes. by apply Hasc.
  - split.
    + intros Hnd. rewrite Hgenes, endpoints_app. apply NoDup_app.
      split; [done|]. split; [|apply NoDup_singleton].
      intros p Hp Hp'. apply list_elem_of_singleton in Hp'. by subst p.
    + intros Hasc e He. rewrite Hgenes in He. rewrite Hnodes.
      apply elem_of_app in He as [He|He]; [by apply Hasc|].
      apply list_elem_of_singleton in He as ->. by exists n1, n2.
Qed.
End add.

(** One run of [add_edge] that adds an edge: on the minimal genome the
    sample of nodes 0 and 2 gives the gene 5: 0 -> 2. *)
Example add_edge_minimal :
  exists self',
    Genome.add_edge (Genome.mkAddDraws (fun _ => (0, 1)%nat) 2 (mkInitDraws 0 0 0)) 5
      minimal_genome = inr (self', 6)
    /\ Genome.genes self'
       = Genome.genes minimal_genome
         ++ [Gene.construct DenseGeneC (mkInitDraws 0 0 0) 5 0 2].
Proof. eexists. split; reflexivity. Qed.

(** C7: a call of [add_edge] returns, leaves the nodes alone and either
    leaves the genes alone or appends one gene; the appended gene's pair
    [(id_in, id_out)] is that of no gene present before, and it joins two
    node objects of the genome the first of which is strictly shallower than
    the second.  Hence any number of calls keeps the endpoint pairs of the
    gene list free of duplicates, and keeps every gene leading from a
    shallower node to a deeper one.  (A genome with fewer than two nodes is
    left as it is.) *)
Theorem add_edge_no_duplicate_feed_forward {imports : Imported} :
  (forall (d : Genome.AddDraws) (gen : Z) (self : Genome.t),
      exists self' gen',
        Genome.add_edge d gen self = inr (self', gen')
        /\ Genome.nodes self' = Genome.nodes self
        /\ (Genome.genes self' = Genome.genes self
            \/ exists new n1 n2,
                 Genome.genes self' = Genome.genes self ++ [new]
                 /\ ((Gene.id_in new, Gene.id_out new) ∉ Genome.endpoints (Genome.genes self))
                 /\ n1 ∈ Genome.nodes self /\ n2 ∈ Genome.nodes self
                 /\ Node.id n1 = Gene.id_in new /\ Node.id n2 = Gene.id_out new
                 /\ (Node.depth n1 < Node.depth n2)%Q))
  /\ (forall (ds : list Genome.AddDraws) (gen : Z) (self : Genome.t),
        exists self' gen',
          Genome.add_edges ds gen self = inr (self', gen')
          /\ (NoDup (Genome.endpoints (Genome.genes self)) ->
              NoDup (Genome.endpoints (Genome.genes self')))
          /\ (edges_ascend self -> edges_ascend self')).
Proof.
  split; [exact add_edge_spec|].
  induction ds as [|d ds IH]; intros gen self.
  - exists self, gen. by repeat split.
  - cbn [Genome.add_edges].
    destruct (add_edge_preserves d gen self) as (self1 & gen1 & -> & Hnd1 & Hasc1).
    destruct (IH gen1 self1) as (self' & gen' & Hadd & Hnd & Hasc).
    exists self', gen'. split; [done|]. split; auto.
Qed.

(** With distinct node ids, [edges_ascend] orders the nodes that the
    endpoints of a gene name. *)
Lemma edges_ascend_unique {imports : Imported} (self : Genome.t) (e : Gene.t)
    (n1 n2 : Node.t) :
  NoDup (Node.id <$> Genome.nodes self) ->
  edges_ascend self ->
  e ∈ Genome.genes self ->
  n1 ∈ Genome.nodes self -> n2 ∈ Genome.nodes self ->
  Node.id n1 = Gene.id_in e -> Node.id n2 = Gene.id_out e ->
  (Node.depth n1 < Node.depth n2)%Q.
Proof.
  intros Hnd Hasc He Hn1 Hn2 Hid1 Hid2.
  destruct (Hasc e He) as (m1 & m2 & Hm1 & Hm2 & Hi1 & Hi2 & Hlt).
  rewrite (node_of_id_unique _ n1 m1 Hnd Hn1 Hm1) by congruence.
  rewrite (node_of_id_unique _ n2 m2 Hnd Hn2 Hm2) by congruence.
  done.
Qed.

Lemma minimal_edges_ascend : edges_ascend minimal_genome.
Proof.
  intros e He. cbn in He. each_member He; subst e.
  - exists (Node.mk 0 0 (Some role_input) upscale None),
           (Node.mk 1 1 (Some role_flatten) upscale None).
    cbn. repeat split; set_solver.
  - exists (Node.mk 1 1 (Some role_flatten) upscale None),
           (Node.mk 2 2 (Some role_output) upscale None).
    cbn. repeat split; set_solver.
Qed.

Lemma add_edge_no_duplicate_feed_forward_witness :
  NoDup (Genome.endpoints (Genome.genes minimal_genome))
  /\ edges_ascend minimal_genome
  /\ exists self' gen',
       Genome.add_edges
         [Genome.mkAddDraws (fun _ => (0, 1)%nat) 2 (mkInitDraws 0 0 0);
          Genome.mkAddDraws (fun _ => (0, 1)%nat) 0 (mkInitDraws 0 0 0)] 5 minimal_genome
       = inr (self', gen')
       /\ NoDup (Genome.endpoints (Genome.genes self'))
       /\ edges_ascend self'.
Proof.
  assert (Hnd : NoDup (Genome.endpoints (Genome.genes minimal_genome))).
  { cbn. apply NoDup_cons. split; [|apply NoDup_singleton].
    intros H. apply list_elem_of_singleton in H. discriminate. }
  split; [exact Hnd|]. split; [exact minimal_edges_ascend|].
  destruct (proj2 (add_edge_no_duplicate_feed_forward (imports := trivial_imports))
              [Genome.mkAddDraws (fun _ => (0, 1)%nat) 2 (mkInitDraws 0 0 0);
               Genome.mkAddDraws (fun _ => (0, 1)%nat) 0 (mkInitDraws 0 0 0)] 5 minimal_genome)
    as (self' & gen' & Hadd & Hnd' & Hasc').
  exists self', gen'. split; [exact Hadd|]. split; [exact (Hnd' Hnd)|].
  exact (Hasc' minimal_edges_ascend).
Defined.

(** ** Dissimilarity *)

Lemma foldr_max_bound (l : list Z) (m : Z) :
  foldr (fun x acc => Some (match acc with Some m => Z.max x m | None => x end)) None l
  = Some m ->
  forall x, x ∈ l -> x <= m.
Proof.
  revert m. induction l as [|y l IH]; intros m Hm x Hx; [by apply elem_of_nil in Hx|].
  cbn in Hm.
  destruct (foldr _ None l) as [m'|] eqn:Hl.
  - injection Hm as <-. apply elem_of_cons in Hx as [->|Hx]; [lia|].
    specialize (IH m' eq_refl x Hx). lia.
  - injection Hm as <-. apply elem_of_cons in Hx as [->|Hx]; [lia|].
    destruct l; [by apply elem_of_nil in Hx|discriminate].
Qed.

Lemma set_max_bound (s : gset Z) (m x : Z) :
  set_max s = Some m -> x ∈ s -> x <= m.
Proof.
  unfold set_max. intros Hm Hx. eapply foldr_max_bound; [exact Hm|].
  by apply elem_of_elements.
Qed.

Lemma set_max_is_Some (s : gset Z) : s <> ∅ -> is_Some (set_max s).
Proof.
  unfold set_max. intros Hs.
  destruct (elements s) as [|x l] eqn:Hl.
  - exfalso. apply Hs. by apply elements_empty_inv, leibniz_equiv in Hl.
  - cbn. by eexists.
Qed.

Lemma filter_all {A : Type} (P : A -> Prop) `{forall x, Decision (P x)} (l : list A) :
  (forall x, x ∈ l -> P x) -> filter P l = l.
Proof.
  induction l as [|y l IH]; intros HP; [done|].
  rewrite filter_cons_True by (apply HP; left).
  f_equal. apply IH. intros x Hx. apply HP. by right.
Qed.

Section dissimilarity.
Context {imports : Imported}.

(** The table [genes_by_id] built by [dicts_by_id] is not empty when the
    gene list is not. *)
Lemma index_genes_nonempty (gs : list Gene.t) (i : nat) (m : gmap Z nat) :
  gs <> [] \/ m <> ∅ -> Genome.index_genes i gs m <> ∅.
Proof.
  revert i m. induction gs as [|g gs IH]; intros i m [H|H]; try done.
  - cbn. apply IH. right. apply insert_non_empty.
  - cbn. apply IH. right. apply insert_non_empty.
Qed.

(** A genome built by [__init__] with a gene has a non-empty gene table. *)
Lemma init_genes_by_id_nonempty opt nodes_and_genes ns gs trained reward acc
    net_parameters loss no_change d (self : Genome.t) :
  Genome.init opt nodes_and_genes ns gs trained reward acc net_parameters loss no_change d
  = Some self ->
  Genome.genes self <> [] -> Genome.genes_by_id self <> ∅.
Proof.
  unfold Genome.init. intros Hinit.
  destruct (match ns, gs with Some _, Some _ => _ | _, _ => _ end) as [[ns' gs']|]; [|done].
  cbn in Hinit. injection Hinit as <-. cbn. intros Hgs.
  apply index_genes_nonempty. by left.
Qed.

(** With [excess_start] one past the largest id, every id of the
    symmetric difference is counted by [D], and [E] is 0. *)
Lemma excess_is_zero (self other : Genome.t) (start : Z) :
  Genome.excess_start self other = Some start ->
  Genome.D_term self other start
  = Z.of_nat (length (elements (symmetric_difference (Genome.ids self) (Genome.ids other))))
  /\ Genome.E_term self other start = 0.
Proof.
  unfold Genome.excess_start. intros Hstart.
  destruct (set_max (Genome.ids self ∪ Genome.ids other)) as [m|] eqn:Hmax; [|done].
  injection Hstart as <-.
  assert (HD : Genome.D_term self other (m + 1)
               = Z.of_nat (length (elements (symmetric_difference
                                               (Genome.ids self) (Genome.ids other))))).
  { unfold Genome.D_term. rewrite filter_all; [done|].
    intros x Hx. apply elem_of_elements in Hx.
    assert (x <= m); [|lia].
    apply (set_max_bound _ _ _ Hmax). unfold symmetric_difference in Hx.
    apply elem_of_union in Hx as [Hx|Hx]; apply elem_of_difference in Hx as [Hx _];
      apply elem_of_union; [by left|by right]. }
  split; [exact HD|]. unfold Genome.E_term. rewrite HD. lia.
Qed.
End dissimilarity.

(** C8: for every two genomes whose gene tables [genes_by_id] are not empty
    and that have a node id in common, [dissimilarity] returns; in it every
    id of the symmetric difference is counted by [D], the excess term [E]
    is 0 and the normalizer [N] is 1, so that the returned distance equals
    [c0*S + c1*D + c3*T + c4*K + c5*X]. *)
Theorem dissimilarity_excess_zero {imports : Imported} (self other : Genome.t)
    (c : Genome.Coefficients) :
  Genome.genes_by_id self <> ∅ ->
  Genome.genes_by_id other <> ∅ ->
  (exists k, k ∈ dom (Genome.nodes_by_id self) /\ k ∈ dom (Genome.nodes_by_id other)) ->
  exists start K dist,
    Genome.excess_start self other = Some start
    /\ Genome.K_term self other = Some K
    /\ Genome.D_term self other start
       = Z.of_nat (size (symmetric_difference (Genome.ids self) (Genome.ids other)))
    /\ Genome.E_term self other start = 0
    /\ Genome.N = 1%Q
    /\ Genome.dissimilarity self other c = inr dist
    /\ (dist == Genome.c0 c * Genome.S_term self other
                + Genome.c1 c * inject_Z (Genome.D_term self other start)
                + Genome.c3 c * Genome.T_term self other
                + Genome.c4 c * K
                + Genome.c5 c * Genome.X_term self other)%Q.
Proof.
  intros Hself _ (k & Hk1 & Hk2).
  destruct (set_max_is_Some (Genome.ids self ∪ Genome.ids other)) as [m Hm].
  { unfold Genome.ids. intros Hempty.
    apply Hself. apply dom_empty_inv_L.
    apply leibniz_equiv. apply equiv_empty. intros x Hx.
    assert (Hx' : x ∈ dom (Genome.genes_by_id self) ∪ dom (Genome.genes_by_id other))
      by set_solver.
    rewrite Hempty in Hx'. set_solver. }
  assert (Hstart : Genome.excess_start self other = Some (m + 1))
    by (unfold Genome.excess_start; by rewrite Hm).
  destruct (excess_is_zero self other (m + 1) Hstart) as [HD HE].
  assert (HK : is_Some (Genome.K_term self other)).
  { unfold Genome.K_term.
    destruct (Nat.eqb_spec (length (elements (Genome.node_ids self other))) 0) as [Hlen|_];
      [|by eexists].
    exfalso. apply nil_length_inv in Hlen.
    assert (Hin : k ∈ elements (Genome.node_ids self other)).
    { apply elem_of_elements. unfold Genome.node_ids. set_solver. }
    rewrite Hlen in Hin. by apply elem_of_nil in Hin. }
  destruct HK as [K HK].
  eexists (m + 1), K, _.
  split; [exact Hstart|]. split; [exact HK|]. split; [exact HD|]. split; [exact HE|].
  split; [reflexivity|].
  split.
  { unfold Genome.dissimilarity. rewrite Hstart, HK. reflexivity. }
  rewrite HE. unfold Genome.N.
  change (inject_Z 0) with 0%Q.
  set (S := Genome.S_term self other). set (D := inject_Z _).
  set (T := Genome.T_term self other). set (X := Genome.X_term self other).
  change ((Genome.c0 c * S + Genome.c1 c * D + Genome.c2 c * 0) / 1)%Q
    with ((Genome.c0 c * S + Genome.c1 c * D + Genome.c2 c * 0) * 1)%Q.
  ring.
Qed.

Lemma dissimilarity_excess_zero_witness :
  Genome.genes_by_id minimal_genome <> ∅
  /\ Genome.genes_by_id triangle_genome <> ∅
  /\ (exists k, k ∈ dom (Genome.nodes_by_id minimal_genome)
                /\ k ∈ dom (Genome.nodes_by_id triangle_genome))
  /\ exists start K dist,
       Genome.excess_start minimal_genome triangle_genome = Some start
       /\ Genome.K_term minimal_genome triangle_genome = Some K
       /\ Genome.D_term minimal_genome triangle_genome start
          = Z.of_nat (size (symmetric_difference (Genome.ids minimal_genome)
                              (Genome.ids triangle_genome)))
       /\ Genome.E_term minimal_genome triangle_genome start = 0
       /\ Genome.N = 1%Q
       /\ Genome.dissimilarity minimal_genome triangle_genome Genome.default_c = inr dist
       /\ (dist == Genome.c0 Genome.default_c * Genome.S_term minimal_genome triangle_genome
                   + Genome.c1 Genome.default_c
                     * inject_Z (Genome.D_term minimal_genome triangle_genome start)
                   + Genome.c3 Genome.default_c * Genome.T_term minimal_genome triangle_genome
                   + Genome.c4 Genome.default_c * K
                   + Genome.c5 Genome.default_c
                     * Genome.X_term minimal_genome triangle_genome)%Q.
Proof.
  assert (H1 : Genome.genes_by_id minimal_genome <> ∅).
  { apply index_genes_nonempty. by left. }
  assert (H2 : Genome.genes_by_id triangle_genome <> ∅).
  { apply index_genes_nonempty. by left. }
  assert (H3 : exists k, k ∈ dom (Genome.nodes_by_id minimal_genome)
                         /\ k ∈ dom (Genome.nodes_by_id triangle_genome)).
  { exists 0. split; apply elem_of_dom; by eexists. }
  split; [exact H1|]. split; [exact H2|]. split; [exact H3|].
  exact (dissimilarity_excess_zero minimal_genome triangle_genome Genome.default_c H1 H2 H3).
Defined.

(** ** Loading *)

Section load.
Context {imports : Imported}.

(** The initial genome is always built: each initial gene has a class of
    positive weight to become. *)
Lemma init_genome_is_Some (d : Genome.InitGenomeDraws) :
  is_Some (Genome.init_genome d).
Proof.
  unfold Genome.init_genome, Gene.mutate_random.
  change (weighted_choice (Genome.ig_class3 d) _ _)
    with (choice (Genome.ig_class3 d) [KernelGeneC]).
  change (weighted_choice (Genome.ig_class4 d) _ _)
    with (choice (Genome.ig_class4 d) [DenseGeneC]).
  destruct (choice_is_Some (Genome.ig_class3 d) [KernelGeneC]) as [c3 ->]; [done|].
  destruct (choice_is_Some (Genome.ig_class4 d) [DenseGeneC]) as [c4 ->]; [done|].
  by eexists.
Qed.

(** A freshly constructed genome has the defaults of [__init__]. *)
Lemma fresh_defaults (opt : Optimizer) (d : Genome.InitGenomeDraws) :
  exists self,
    Genome.fresh opt d = Some self
    /\ Genome.loss self = inf /\ Genome.trained self = 0
    /\ Genome.no_change self = 0 /\ Genome.reward self = 0
    /\ Genome.acc self = None /\ Genome.net_parameters self = None.
Proof.
  unfold Genome.fresh, Genome.init.
  destruct (init_genome_is_Some d) as [[ns gs] ->]. cbn.
  eexists. split; [reflexivity|]. by repeat split.
Qed.

(** An unpacking into a list of another length raises [ValueError]. *)
Lemma unpack_other_arity (save : list Genome.Value) (self : Genome.t) :
  length save <> 5%nat -> length save <> 9%nat -> length save <> 8%nat ->
  Genome.unpack save self = inl ValueError.
Proof.
  intros H5 H9 H8. unfold Genome.unpack.
  destruct (Nat.eqb_spec (length save) 5) as [?|_]; [done|].
  destruct (Nat.eqb_spec (length save) 9) as [?|_]; [done|].
  do 9 (destruct save as [|? save]; [done|]). done.
Qed.
End load.

(** C9: [load] dispatches on the number of slots of the saved structure.
    Five slots restore [optimizer], [nodes], [genes], [acc] and
    [net_parameters] and keep [loss], [trained], [no_change] and [reward],
    which are [inf], 0, 0, 0 on a freshly constructed genome; nine slots
    restore all nine fields; eight slots restore all but [net_parameters],
    which becomes [None]; any other number of slots raises [ValueError].
    In each case the identity maps are rebuilt from the restored lists. *)
Theorem load_dispatches_on_arity {imports : Imported} :
  (forall (self : Genome.t) cls state ns gs a p,
      exists self',
        Genome.load [Genome.VOptimizer cls state; Genome.VNodes ns; Genome.VGenes gs;
                     Genome.acc_slot a; Genome.parameters_slot p] true self = inr self'
        /\ Genome.optimizer self' = Optimizer_load cls state
        /\ Genome.nodes self' = (fun n => Node_load n.1.1 n.1.2 n.2) <$> ns
        /\ Genome.genes self' = (fun g => Gene_load g.1.1.1.1 g.1.1.1.2 g.1.1.2 g.1.2 g.2) <$> gs
        /\ Genome.acc self' = a
        /\ Genome.net_parameters self' = p
        /\ Genome.loss self' = Genome.loss self
        /\ Genome.trained self' = Genome.trained self
        /\ Genome.no_change self' = Genome.no_change self
        /\ Genome.reward self' = Genome.reward self
        /\ (Genome.genes_by_id self', Genome.nodes_by_id self')
           = Genome.dicts_by_id (Genome.genes self') (Genome.nodes self'))
  /\ (forall (opt : Optimizer) (d : Genome.InitGenomeDraws) cls state ns gs a p,
        exists self self',
          Genome.fresh opt d = Some self
          /\ Genome.load [Genome.VOptimizer cls state; Genome.VNodes ns; Genome.VGenes gs;
                          Genome.acc_slot a; Genome.parameters_slot p] true self = inr self'
          /\ Genome.loss self' = inf /\ Genome.trained self' = 0
          /\ Genome.no_change self' = 0 /\ Genome.reward self' = 0)
  /\ (forall (self : Genome.t) cls state ns gs a l tr nc r p,
        exists self',
          Genome.load [Genome.VOptimizer cls state; Genome.VNodes ns; Genome.VGenes gs;
                       Genome.acc_slot a; Genome.VFloat l; Genome.VInt tr; Genome.VInt nc;
                       Genome.VInt r; Genome.parameters_slot p] true self = inr self'
          /\ Genome.optimizer self' = Optimizer_load cls state
          /\ Genome.nodes self' = (fun n => Node_load n.1.1 n.1.2 n.2) <$> ns
          /\ Genome.genes self'
             = (fun g => Gene_load g.1.1.1.1 g.1.1.1.2 g.1.1.2 g.1.2 g.2) <$> gs
          /\ Genome.acc self' = a
          /\ Genome.loss self' = l
          /\ Genome.trained self' = tr
          /\ Genome.no_change self' = nc
          /\ Genome.reward self' = r
          /\ Genome.net_parameters self' = p
          /\ (Genome.genes_by_id self', Genome.nodes_by_id self')
             = Genome.dicts_by_id (Genome.genes self') (Genome.nodes self'))
  /\ (forall (self : Genome.t) (load_params : bool) cls state ns gs a l tr nc r,
        exists self',
          Genome.load [Genome.VOptimizer cls state; Genome.VNodes ns; Genome.VGenes gs;
                       Genome.acc_slot a; Genome.VFloat l; Genome.VInt tr; Genome.VInt nc;
                       Genome.VInt r] load_params self = inr self'
          /\ Genome.optimizer self' = Optimizer_load cls state
          /\ Genome.nodes self' = (fun n => Node_load n.1.1 n.1.2 n.2) <$> ns
          /\ Genome.genes self'
             = (fun g => Gene_load g.1.1.1.1 g.1.1.1.2 g.1.1.2 g.1.2 g.2) <$> gs
          /\ Genome.acc self' = a
          /\ Genome.loss self' = l
          /\ Genome.trained self' = tr
          /\ Genome.no_change self' = nc
          /\ Genome.reward self' = r
          /\ Genome.net_parameters self' = None
          /\ (Genome.genes_by_id self', Genome.nodes_by_id self')
             = Genome.dicts_by_id (Genome.genes self') (Genome.nodes self'))
  /\ (forall (self : Genome.t) (load_params : bool) (save : list Genome.Value),
        length save <> 5%nat -> length save <> 9%nat -> length save <> 8%nat ->
        Genome.load save load_params self = inl ValueError).
Proof.
  split; [|split; [|split; [|split]]].
  - intros self cls state ns gs a p. eexists.
    split; [destruct a, p; reflexivity|].
    destruct a, p; by repeat split.
  - intros opt d cls state ns gs a p.
    destruct (fresh_defaults opt d) as (self & Hfresh & Hl & Ht & Hn & Hr & _).
    exists self. eexists. split; [exact Hfresh|].
    split; [destruct a, p; reflexivity|].
    destruct a, p; cbn; by repeat split.
  - intros self cls state ns gs a l tr nc r p. eexists.
    split; [destruct a, p; reflexivity|].
    destruct a, p; by repeat split.
  - intros self load_params cls state ns gs a l tr nc r. eexists.
    split; [destruct a, load_params; reflexivity|].
    destruct a, load_params; by repeat split.
  - intros self load_params save H5 H9 H8. unfold Genome.load.
    by rewrite unpack_other_arity.
Qed.

Lemma load_dispatches_on_arity_witness :
  length ([Genome.VNone; Genome.VInt 3] : list (Genome.Value (imports := trivial_imports)))
    <> 5%nat
  /\ length ([Genome.VNone; Genome.VInt 3] : list (Genome.Value (imports := trivial_imports)))
       <> 9%nat
  /\ length ([Genome.VNone; Genome.VInt 3] : list (Genome.Value (imports := trivial_imports)))
       <> 8%nat
  /\ Genome.load [Genome.VNone; Genome.VInt 3] true minimal_genome = inl ValueError.
Proof.
  split; [cbn; lia|]. split; [cbn; lia|]. split; [cbn; lia|].
  exact (proj2 (proj2 (proj2 (proj2 (load_dispatches_on_arity (imports := trivial_imports)))))
           minimal_genome true [Genome.VNone; Genome.VInt 3]
           ltac:(cbn; lia) ltac:(cbn; lia) ltac:(cbn; lia)).
Defined.

(** * Further properties of the modelled code *)

(** ** [dfs] as a decision procedure *)

(** X1: on a gene list that some depth assignment orders (every gene leads
    strictly deeper), [dfs] with a recursion depth above the number of genes
    answers [True] exactly when the target is reachable through enabled genes
    and [False] exactly when it is not. *)
Theorem dfs_decides_reach (depth : Z -> Q) (gs : list Gene.t) (fuel : nat) (s t : Z) :
  ascending depth gs ->
  (length gs < fuel)%nat ->
  (Genome.dfs fuel gs s t = Some true <-> reach gs s t)
  /\ (Genome.dfs fuel gs s t = Some false <-> ~ reach gs s t).
Proof.
  intros Hasc Hfuel.
  assert (Hdef : Genome.dfs fuel gs s t <> None).
  { apply (dfs_defined depth); [done|]. pose proof (deeper_length depth gs s). lia. }
  destruct (Genome.dfs fuel gs s t) as [[|]|] eqn:Hdfs; [| |done].
  - pose proof (dfs_true_reach _ _ _ _ Hdfs) as Hreach.
    split; split; intros; first [done|contradiction].
  - pose proof (dfs_false_unreachable _ _ _ _ Hdfs) as Hnot.
    split; split; intros; first [done|contradiction].
Qed.

Lemma dfs_decides_reach_witness :
  ascending inject_Z (Genome.genes triangle_genome)
  /\ (length (Genome.genes triangle_genome) < 4)%nat
  /\ (Genome.dfs 4 (Genome.genes triangle_genome) 0 2 = Some true
      <-> reach (Genome.genes triangle_genome) 0 2)
  /\ (Genome.dfs 4 (Genome.genes triangle_genome) 0 2 = Some false
      <-> ~ reach (Genome.genes triangle_genome) 0 2).
Proof.
  assert (Hasc : ascending inject_Z (Genome.genes triangle_genome)).
  { intros e He. cbn in He. each_member He; subst e; reflexivity. }
  assert (Hlen : (length (Genome.genes triangle_genome) < 4)%nat) by (cbn; lia).
  split; [exact Hasc|]. split; [exact Hlen|].
  exact (dfs_decides_reach inject_Z (Genome.genes triangle_genome) 4 0 2 Hasc Hlen).
Defined.

(** ** The exact effect of disabling and enabling *)

Lemma alter_enable_disable (i : nat) (gs : list Gene.t) (edge : Gene.t) :
  gs !! i = Some edge -> Gene.enabled edge = true ->
  alter (Gene.set_enabled true) i (alter (Gene.set_enabled false) i gs) = gs.
Proof.
  intros Hi Hen. apply list_eq. intros j.
  destruct (decide (i = j)) as [<-|Hij].
  - rewrite !list_lookup_alter_eq, Hi. cbn. f_equal.
    destruct edge as [a b c e p]. cbn in *. by subst e.
  - by rewrite !list_lookup_alter_ne.
Qed.

Section effects.
Context {imports : Imported}.

Lemma set_genes_same (self : Genome.t) : Genome.set_genes (Genome.genes self) self = self.
Proof. by destruct self. Qed.

Lemma assign_enabled_revert (i : nat) (self : Genome.t) (edge : Gene.t) :
  Genome.genes self !! i = Some edge -> Gene.enabled edge = true ->
  Genome.assign_enabled i true (Genome.assign_enabled i false self) = self.
Proof.
  intros Hi Hen. unfold Genome.assign_enabled. destruct self. cbn in *.
  unfold Genome.set_genes. cbn. f_equal. by eapply alter_enable_disable.
Qed.

Lemma disable_edge_cases (fuel i : nat) (self self' : Genome.t) (b : bool) :
  Genome.disable_edge fuel i self = inr (b, self') ->
  if b
  then self' = Genome.assign_enabled i false self
       /\ Genome.dfs fuel (Genome.genes self') 0 2 = Some true
  else self' = Genome.assign_enabled i true (Genome.assign_enabled i false self)
       /\ Genome.dfs fuel (Genome.genes (Genome.assign_enabled i false self)) 0 2
          = Some false.
Proof.
  unfold Genome.disable_edge.
  destruct (Genome.dfs fuel (Genome.genes (Genome.assign_enabled i false self)) 0 2)
    as [[|]|] eqn:Hdfs; intros H; [| |done].
  - by injection H as <- <-.
  - by injection H as <- <-.
Qed.

(** X2: [disable_edge] on an enabled gene.  If it returns [False] the genome
    is exactly as before and node 2 would be unreachable without the gene;
    if it returns [True] the gene is disabled, nothing else is changed and
    node 2 is reachable from node 0. *)
Theorem disable_edge_effect (fuel i : nat) (self self' : Genome.t) (edge : Gene.t)
    (b : bool) :
  Genome.genes self !! i = Some edge ->
  Gene.enabled edge = true ->
  Genome.disable_edge fuel i self = inr (b, self') ->
  if b
  then self' = Genome.assign_enabled i false self
       /\ Genome.genes self' !! i = Some (Gene.set_enabled false edge)
       /\ reach (Genome.genes self') 0 2
  else self' = self
       /\ ~ reach (alter (Gene.set_enabled false) i (Genome.genes self)) 0 2.
Proof.
  intros Hi Hen H. apply disable_edge_cases in H. destruct b.
  - destruct H as [-> Hdfs]. split; [done|]. split.
    + cbn. by rewrite list_lookup_alter_eq, Hi.
    + by eapply dfs_true_reach.
  - destruct H as [-> Hdfs]. split; [by eapply assign_enabled_revert|].
    by eapply dfs_false_unreachable.
Qed.

(** X3: [disable_edge] on a gene that is already disabled, in a genome in
    which node 2 is not reachable from node 0: a call that returns answers
    [False], and its revert leaves that gene enabled. *)
Theorem disable_edge_enables_disabled (fuel i : nat) (self self' : Genome.t)
    (edge : Gene.t) (b : bool) :
  Genome.genes self !! i = Some edge ->
  Gene.enabled edge = false ->
  ~ reach (Genome.genes self) 0 2 ->
  Genome.disable_edge fuel i self = inr (b, self') ->
  b = false /\ Genome.genes self' !! i = Some (Gene.set_enabled true edge).
Proof.
  intros Hi Hen Hnot. unfold Genome.disable_edge.
  destruct (Genome.dfs fuel (Genome.genes (Genome.assign_enabled i false self)) 0 2)
    as [[|]|] eqn:Hdfs; intros H; [| |done].
  - exfalso. apply Hnot. apply dfs_true_reach in Hdfs. revert Hdfs.
    apply reach_mono. intros e He Hene.
    apply list_elem_of_lookup in He as [j Hj]. cbn in Hj.
    destruct (decide (i = j)) as [<-|Hij].
    + rewrite list_lookup_alter_eq, Hi in Hj. injection Hj as <-. done.
    + rewrite list_lookup_alter_ne in Hj by done.
      exists e. split; [by eapply list_elem_of_lookup_2|done].
  - injection H as <- <-. split; [done|]. cbn.
    rewrite !list_lookup_alter_eq, Hi. cbn. f_equal.
Qed.

Lemma enabled_edges_spec (self : Genome.t) (i : nat) :
  i ∈ Genome.enabled_edges self
  <-> exists edge, Genome.genes self !! i = Some edge /\ Gene.enabled edge = true.
Proof. apply elem_of_positions. Qed.

Lemma mutate_disable_edge_loop_effect (fuel : nat) (enabled : list nat)
    (rs : nat -> nat) (tries : nat) (self self' : Genome.t) :
  (forall i, i ∈ enabled -> i ∈ Genome.enabled_edges self) ->
  Genome.mutate_disable_edge_loop fuel enabled rs tries self = inr self' ->
  self' = self
  \/ exists i edge,
       Genome.genes self !! i = Some edge /\ Gene.enabled edge = true
       /\ self' = Genome.assign_enabled i false self
       /\ reach (Genome.genes self') 0 2.
Proof.
  intros Hen. induction tries as [|tries IH].
  - cbn. intros [= <-]. by left.
  - cbn [Genome.mutate_disable_edge_loop].
    destruct (choice (rs (S tries)) enabled) as [i|] eqn:Hc; [|done].
    apply choice_elem_of, Hen, enabled_edges_spec in Hc as (edge & Hi & Hedge).
    destruct (Genome.disable_edge fuel i self) as [?|[b self1]] eqn:Hd; [done|].
    pose proof (disable_edge_cases fuel i self self1 b Hd) as Heff.
    destruct b.
    + intros [= <-]. destruct Heff as [-> Hdfs]. right. exists i, edge.
      split; [done|]. split; [done|]. split; [done|]. by eapply dfs_true_reach.
    + destruct Heff as [-> _]. by rewrite (assign_enabled_revert i self edge Hi Hedge).
Qed.

Lemma mutate_disable_edge_unfold (fuel : nat) (rs : nat -> nat) (tries : nat)
    (self self' : Genome.t) :
  Genome.mutate_disable_edge fuel rs tries self = inr self' ->
  self' = self
  \/ Genome.mutate_disable_edge_loop fuel (Genome.enabled_edges self) rs tries self
     = inr self'.
Proof.
  unfold Genome.mutate_disable_edge.
  destruct (0 <? length (Genome.enabled_edges self))%nat; [by right|].
  intros [= <-]. by left.
Qed.

Lemma mutate_disable_edge_assigns (fuel : nat) (rs : nat -> nat) (tries : nat)
    (self self' : Genome.t) :
  Genome.mutate_disable_edge fuel rs tries self = inr self' ->
  self' = self \/ exists i, self' = Genome.assign_enabled i false self.
Proof.
  intros [->|Hloop]%mutate_disable_edge_unfold; [by left|].
  apply mutate_disable_edge_loop_effect in Hloop as [->|(i & _ & _ & _ & -> & _)];
    [by left|by right; exists i|done].
Qed.

(** X4: a call of [mutate_disable_edge] that returns either leaves the
    genome exactly as it was, or has disabled one gene that was enabled,
    changing nothing else, with node 2 reachable from node 0 afterwards. *)
Theorem mutate_disable_edge_effect (fuel : nat) (rs : nat -> nat) (tries : nat)
    (self self' : Genome.t) :
  Genome.mutate_disable_edge fuel rs tries self = inr self' ->
  self' = self
  \/ exists i edge,
       Genome.genes self !! i = Some edge /\ Gene.enabled edge = true
       /\ self' = Genome.assign_enabled i false self
       /\ reach (Genome.genes self') 0 2.
Proof.
  unfold Genome.mutate_disable_edge.
  destruct (0 <? length (Genome.enabled_edges self))%nat.
  - by apply mutate_disable_edge_loop_effect.
  - intros [= <-]. by left.
Qed.

(** X5: when no enabled gene can be spared (without any one of them node 2
    is unreachable from node 0), [mutate_disable_edge] on a feed-forward
    genome returns it unchanged, whatever it draws. *)
Theorem mutate_disable_edge_gives_up (fuel : nat) (rs : nat -> nat) (tries : nat)
    (self : Genome.t) :
  feed_forward self ->
  (length (Genome.genes self) < fuel)%nat ->
  reach (Genome.genes self) 0 2 ->
  (forall i edge,
      Genome.genes self !! i = Some edge -> Gene.enabled edge = true ->
      ~ reach (alter (Gene.set_enabled false) i (Genome.genes self)) 0 2) ->
  Genome.mutate_disable_edge fuel rs tries self = inr self.
Proof.
  intros Hff Hfuel Hreach Hbridge.
  assert (Hret : exists self', Genome.mutate_disable_edge fuel rs tries self = inr self').
  { unfold Genome.mutate_disable_edge.
    destruct (Nat.ltb_spec 0 (length (Genome.enabled_edges self))) as [Hlen|Hlen];
      [|by exists self].
    destruct (mutate_disable_edge_loop_reach (depth_of self) fuel
                (Genome.enabled_edges self) rs tries self) as (self' & Hloop & _);
      [|by apply feed_forward_ascending|done|done|by exists self'].
    intros Hnil. rewrite Hnil in Hlen. cbn in Hlen. lia. }
  destruct Hret as [self' Hret]. rewrite Hret. f_equal.
  apply mutate_disable_edge_unfold in Hret as [->|Hloop]; [done|].
  apply mutate_disable_edge_loop_effect in Hloop
    as [->|(i & edge & Hi & Hen & -> & Hreach')]; [done| |done].
  exfalso. by apply (Hbridge i edge Hi Hen).
Qed.

Lemma enable_edge_cases (r : nat) (self : Genome.t) :
  (forall e, e ∈ Genome.genes self -> Gene.enabled e = true)
  /\ Genome.enable_edge r self = self
  \/ exists i edge,
       Genome.genes self !! i = Some edge /\ Gene.enabled edge = false
       /\ Genome.enable_edge r self = Genome.assign_enabled i true self.
Proof.
  unfold Genome.enable_edge.
  set (disabled := positions (fun gene => negb (Gene.enabled gene)) (Genome.genes self)).
  destruct (choice r disabled) as [i|] eqn:Hc.
  - apply choice_elem_of, elem_of_positions in Hc as (edge & Hi & Hdis).
    apply negb_true_iff in Hdis. right. by exists i, edge.
  - left. split; [|done].
    intros e He. destruct (Gene.enabled e) eqn:Hen; [done|exfalso].
    apply list_elem_of_lookup in He as [j Hj].
    assert (Hin : j ∈ disabled).
    { apply elem_of_positions. exists e. by rewrite Hen. }
    destruct (choice_is_Some r disabled) as [x Hx]; [|congruence].
    intros Hnil. rewrite Hnil in Hin. by apply elem_of_nil in Hin.
Qed.

(** X6: [enable_edge] either leaves the genome as it is (no gene is
    disabled) or enables one gene that was disabled and changes nothing
    else; every node reachable before is reachable afterwards. *)
Theorem enable_edge_effect (r : nat) (self : Genome.t) :
  ((forall e, e ∈ Genome.genes self -> Gene.enabled e = true)
   /\ Genome.enable_edge r self = self
   \/ exists i edge,
        Genome.genes self !! i = Some edge /\ Gene.enabled edge = false
        /\ Genome.enable_edge r self = Genome.assign_enabled i true self)
  /\ (forall s t, reach (Genome.genes self) s t ->
                  reach (Genome.genes (Genome.enable_edge r self)) s t).
Proof.
  pose proof (enable_edge_cases r self) as Hcases. split; [exact Hcases|].
  intros s t. destruct Hcases as [[_ ->]|(i & edge & Hi & Hdis & ->)]; [done|].
  apply reach_mono. intros e He Hen.
  apply list_elem_of_lookup in He as [j Hj].
  exists e. split; [|done].
  apply list_elem_of_lookup. exists j. cbn.
  destruct (decide (i = j)) as [<-|Hij]; [congruence|].
  by rewrite list_lookup_alter_ne.
Qed.
End effects.

Lemma disable_edge_effect_witness :
  Genome.genes triangle_genome !! 2%nat = Some (dense_gene 5 0 2)
  /\ Gene.enabled (dense_gene 5 0 2) = true
  /\ Genome.disable_edge 4 2 triangle_genome
     = inr (true, Genome.assign_enabled 2 false triangle_genome)
  /\ Genome.assign_enabled 2 false triangle_genome
     = Genome.assign_enabled 2 false triangle_genome
  /\ Genome.genes (Genome.assign_enabled 2 false triangle_genome) !! 2%nat
     = Some (Gene.set_enabled false (dense_gene 5 0 2))
  /\ reach (Genome.genes (Genome.assign_enabled 2 false triangle_genome)) 0 2.
Proof.
  split; [reflexivity|]. split; [reflexivity|]. split; [reflexivity|].
  exact (disable_edge_effect 4 2 triangle_genome _ (dense_gene 5 0 2) true
           eq_refl eq_refl eq_refl).
Defined.

Lemma cut_genome_unreachable : ~ reach (Genome.genes cut_genome) 0 2.
Proof. apply (dfs_false_unreachable 3). reflexivity. Qed.

Lemma disable_edge_enables_disabled_witness :
  Genome.genes cut_genome !! 0%nat = Some (Gene.set_enabled false (dense_gene 3 0 1))
  /\ Gene.enabled (Gene.set_enabled false (dense_gene 3 0 1)) = false
  /\ ~ reach (Genome.genes cut_genome) 0 2
  /\ Genome.disable_edge 3 0 cut_genome = inr (false, minimal_genome)
  /\ false = false
  /\ Genome.genes minimal_genome !! 0%nat
     = Some (Gene.set_enabled true (Gene.set_enabled false (dense_gene 3 0 1))).
Proof.
  split; [reflexivity|]. split; [reflexivity|]. split; [exact cut_genome_unreachable|].
  split; [reflexivity|].
  exact (disable_edge_enables_disabled 3 0 cut_genome minimal_genome _ false
           eq_refl eq_refl cut_genome_unreachable eq_refl).
Defined.

Lemma mutate_disable_edge_effect_witness :
  Genome.mutate_disable_edge 4 (fun _ => 2%nat) 2 triangle_genome
  = inr (Genome.assign_enabled 2 false triangle_genome)
  /\ (Genome.assign_enabled 2 false triangle_genome = triangle_genome
      \/ exists i edge,
           Genome.genes triangle_genome !! i = Some edge /\ Gene.enabled edge = true
           /\ Genome.assign_enabled 2 false triangle_genome
              = Genome.assign_enabled i false triangle_genome
           /\ reach (Genome.genes (Genome.assign_enabled 2 false triangle_genome)) 0 2).
Proof.
  split; [reflexivity|].
  exact (mutate_disable_edge_effect 4 (fun _ => 2%nat) 2 triangle_genome _ eq_refl).
Defined.

Lemma minimal_reach : reach (Genome.genes minimal_genome) 0 2.
Proof. apply (dfs_true_reach 3). reflexivity. Qed.

Lemma minimal_all_bridges (i : nat) (edge : Gene.t) :
  Genome.genes minimal_genome !! i = Some edge -> Gene.enabled edge = true ->
  ~ reach (alter (Gene.set_enabled false) i (Genome.genes minimal_genome)) 0 2.
Proof.
  intros Hi _. destruct i as [|[|i]]; [| |done].
  - apply (dfs_false_unreachable 3). reflexivity.
  - apply (dfs_false_unreachable 3). reflexivity.
Qed.

Lemma mutate_disable_edge_gives_up_witness :
  feed_forward minimal_genome
  /\ (length (Genome.genes minimal_genome) < 3)%nat
  /\ reach (Genome.genes minimal_genome) 0 2
  /\ (forall i edge,
        Genome.genes minimal_genome !! i = Some edge -> Gene.enabled edge = true ->
        ~ reach (alter (Gene.set_enabled false) i (Genome.genes minimal_genome)) 0 2)
  /\ Genome.mutate_disable_edge 3 (fun k => k) 2 minimal_genome = inr minimal_genome.
Proof.
  assert (Hlen : (length (Genome.genes minimal_genome) < 3)%nat) by (cbn; lia).
  split; [exact minimal_feed_forward|]. split; [exact Hlen|].
  split; [exact minimal_reach|]. split; [exact minimal_all_bridges|].
  exact (mutate_disable_edge_gives_up 3 (fun k => k) 2 minimal_genome
           minimal_feed_forward Hlen minimal_reach minimal_all_bridges).
Defined.

(** ** More on [split_edge] *)

Lemma reach_split (gs : list Gene.t) (i : nat) (edge e1 e2 : Gene.t) (s t : Z) :
  gs !! i = Some edge ->
  Gene.enabled e1 = true -> Gene.enabled e2 = true ->
  Gene.id_in e1 = Gene.id_in edge -> Gene.id_out e1 = Gene.id_in e2 ->
  Gene.id_out e2 = Gene.id_out edge ->
  reach gs s t ->
  reach (alter (Gene.set_enabled false) i gs ++ [e1; e2]) s t.
Proof.
  intros Hi Hen1 Hen2 Hin1 Hmid Hout2 Hreach.
  induction Hreach as [s|e s t He Hen Hin _ IH]; [apply reach_refl|].
  apply list_elem_of_lookup in He as [j Hj].
  destruct (decide (i = j)) as [<-|Hij].
  - assert (e = edge) as -> by congruence.
    apply (reach_step _ e1); [|done|congruence|].
    { apply elem_of_app. right. left. }
    apply (reach_step _ e2); [|done|congruence|by rewrite Hout2].
    apply elem_of_app. right. right. left.
  - apply (reach_step _ e); [|done|done|done].
    apply elem_of_app. left. apply list_elem_of_lookup. exists j.
    by rewrite list_lookup_alter_ne.
Qed.

Section split_more.
Context {imports : Imported}.

(** The genome, cache and generator that [split_edge] returns for the
    selected edge. *)
Lemma split_edge_result (d : Genome.SplitDraws) (cache : gmap Z Innovation)
    (gen : Z) (self : Genome.t) (i : nat) (edge : Gene.t) (n_in n_out : Node.t) :
  selected_edge (Genome.sd_edge d) self = Some (i, edge) ->
  Genome.nodes_by_id self !! Gene.id_in edge = Some n_in ->
  Genome.nodes_by_id self !! Gene.id_out edge = Some n_out ->
  exists id1 id2 id3 depth cache' gen' cls,
    Genome.innovation (Genome.sd_normal d) (Gene.id edge) (Node.depth n_in)
      (Node.depth n_out) cache gen = (id1, id2, id3, depth, cache', gen')
    /\ Genome.split_edge d cache gen self
       = inr (Genome.mk (Genome.optimizer self)
                (Genome.nodes self ++ [Node.init id1 depth None None (Genome.sd_merge d)])
                (alter (Gene.set_enabled false) i (Genome.genes self)
                 ++ [Gene.copy (Genome.sd_copy d) edge id2 (Gene.id_in edge) id1;
                     Gene.construct cls (Genome.sd_after d) id3 id1 (Gene.id_out edge)])
                (<[id3 := S (length (Genome.genes self))]>
                   (<[id2 := length (Genome.genes self)]> (Genome.genes_by_id self)))
                (<[id1 := Node.init id1 depth None None (Genome.sd_merge d)]>
                   (Genome.nodes_by_id self))
                (Genome.net_parameters self) (Genome.acc self) (Genome.loss self)
                (Genome.trained self) (Genome.no_change self) (Genome.reward self),
              cache', gen').
Proof.
  intros Hsel Hin Hout.
  apply selected_edge_spec in Hsel as [Hc Hi].
  unfold Genome.split_edge.
  assert (Hlen : (0 <? length (Genome.enabled_edges self))%nat = true).
  { apply Nat.ltb_lt. apply choice_elem_of in Hc.
    destruct (Genome.enabled_edges self); [by apply elem_of_nil in Hc|cbn; lia]. }
  rewrite Hlen, Hc, Hi, Hin, Hout.
  destruct (Genome.innovation _ _ _ _ _ _) as [[[[[id1 id2] id3] depth] cache'] gen'] eqn:Hinn.
  destruct (add_after_is_Some (Genome.sd_class d) (Genome.sd_after d) edge id3
              (Node.id (Node.init id1 depth None None (Genome.sd_merge d)))
              (Gene.id_out edge)) as [cls ->].
  exists id1, id2, id3, depth, cache', gen', cls.
  split; [done|]. cbn. by rewrite length_alter.
Qed.

(** A call of [split_edge] that returns has either found no enabled edge
    and changed nothing, or selected an edge whose endpoints are nodes. *)
Lemma split_edge_cases (d : Genome.SplitDraws) (cache : gmap Z Innovation)
    (gen : Z) (self self' : Genome.t) (cache' : gmap Z Innovation) (gen' : Z) :
  Genome.split_edge d cache gen self = inr (self', cache', gen') ->
  Genome.enabled_edges self = [] /\ self' = self /\ cache' = cache /\ gen' = gen
  \/ exists i edge n_in n_out,
       selected_edge (Genome.sd_edge d) self = Some (i, edge)
       /\ Genome.nodes_by_id self !! Gene.id_in edge = Some n_in
       /\ Genome.nodes_by_id self !! Gene.id_out edge = Some n_out.
Proof.
  intros Hsplit.
  destruct (Genome.enabled_edges self) as [|x l] eqn:Hen.
  - left. unfold Genome.split_edge in Hsplit. rewrite Hen in Hsplit. cbn in Hsplit.
    by injection Hsplit as <- <- <-.
  - right.
    destruct (selected_edge_is_Some (Genome.sd_edge d) self) as (i & edge & Hsel);
      [by rewrite Hen|].
    destruct (split_edge_returns_endpoints _ _ _ _ _ _ _ Hsel Hsplit)
      as (n_in & n_out & Hin & Hout).
    by exists i, edge, n_in, n_out.
Qed.

(** X7: every path of enabled genes that exists before a call of
    [split_edge] exists after it: the disabled edge is replaced by the two
    new enabled genes through the new node. *)
Theorem split_edge_keeps_paths (d : Genome.SplitDraws) (cache : gmap Z Innovation)
    (gen : Z) (self self' : Genome.t) (cache' : gmap Z Innovation) (gen' : Z) (s t : Z) :
  Genome.split_edge d cache gen self = inr (self', cache', gen') ->
  reach (Genome.genes self) s t ->
  reach (Genome.genes self') s t.
Proof.
  intros Hsplit Hreach.
  destruct (split_edge_cases _ _ _ _ _ _ _ Hsplit)
    as [(_ & -> & _)|(i & edge & n_in & n_out & Hsel & Hin & Hout)]; [done|].
  destruct (split_edge_result d cache gen self i edge n_in n_out Hsel Hin Hout)
    as (id1 & id2 & id3 & depth & c & g & cls & _ & Hres).
  rewrite Hres in Hsplit. injection Hsplit as <- <- <-. cbn.
  apply selected_edge_spec in Hsel as [_ Hi].
  by eapply reach_split.
Qed.

(** X8: [split_edge] raises only [KeyError], and exactly when an endpoint of
    the edge it selects is not a key of [nodes_by_id]; on a genome with no
    enabled gene it returns the genome, the cache and the id generator as
    they are. *)
Theorem split_edge_raises (d : Genome.SplitDraws) (cache : gmap Z Innovation)
    (gen : Z) (self : Genome.t) :
  (forall e : Error,
      Genome.split_edge d cache gen self = inl e
      <-> e = KeyError
          /\ exists i edge,
               selected_edge (Genome.sd_edge d) self = Some (i, edge)
               /\ (Genome.nodes_by_id self !! Gene.id_in edge = None
                   \/ Genome.nodes_by_id self !! Gene.id_out edge = None))
  /\ (Genome.enabled_edges self = [] ->
      Genome.split_edge d cache gen self = inr (self, cache, gen)).
Proof.
  split; [|intros Hen; unfold Genome.split_edge; by rewrite Hen].
  intros e. split.
  - intros Hsplit.
    destruct (Genome.enabled_edges self) as [|x l] eqn:Hen.
    { unfold Genome.split_edge in Hsplit. rewrite Hen in Hsplit. done. }
    destruct (selected_edge_is_Some (Genome.sd_edge d) self) as (i & edge & Hsel);
      [by rewrite Hen|].
    pose proof Hsel as Hsel'. apply selected_edge_spec in Hsel' as [Hc Hi].
    assert (Hlen : (0 <? length (Genome.enabled_edges self))%nat = true)
      by (by rewrite Hen).
    destruct (Genome.nodes_by_id self !! Gene.id_in edge) as [n_in|] eqn:Hin;
      destruct (Genome.nodes_by_id self !! Gene.id_out edge) as [n_out|] eqn:Hout.
    + destruct (split_edge_result d cache gen self i edge n_in n_out Hsel Hin Hout)
        as (id1 & id2 & id3 & depth & c & g & cls & _ & Hres). congruence.
    + unfold Genome.split_edge in Hsplit. rewrite Hlen, Hc, Hi, Hin, Hout in Hsplit.
      injection Hsplit as <-. split; [done|]. exists i, edge. auto.
    + unfold Genome.split_edge in Hsplit. rewrite Hlen, Hc, Hi, Hin in Hsplit.
      injection Hsplit as <-. split; [done|]. exists i, edge. auto.
    + unfold Genome.split_edge in Hsplit. rewrite Hlen, Hc, Hi, Hin in Hsplit.
      injection Hsplit as <-. split; [done|]. exists i, edge. auto.
  - intros (-> & i & edge & Hsel & Hmiss).
    apply selected_edge_spec in Hsel as [Hc Hi].
    unfold Genome.split_edge.
    assert (Hlen : (0 <? length (Genome.enabled_edges self))%nat = true).
    { apply Nat.ltb_lt. apply choice_elem_of in Hc.
      destruct (Genome.enabled_edges self); [by apply elem_of_nil in Hc|cbn; lia]. }
    rewrite Hlen, Hc, Hi.
    destruct Hmiss as [-> | ->]; [done|].
    by destruct (Genome.nodes_by_id self !! Gene.id_in edge).
Qed.
End split_more.

(** ** The identity maps *)

Lemma genes_ok_alter (m : gmap Z nat) (gs : list Gene.t) (b : bool) (i : nat) :
  genes_ok m gs -> genes_ok m (alter (Gene.set_enabled b) i gs).
Proof.
  intros [Hrefs Hkeys]. split.
  - intros id k Hk. destruct (Hrefs id k Hk) as (g & Hg & Hid).
    destruct (decide (i = k)) as [<-|Hik].
    + exists (Gene.set_enabled b g). by rewrite list_lookup_alter_eq, Hg.
    + exists g. by rewrite list_lookup_alter_ne.
  - intros g Hg. apply elem_of_alter_enabled in Hg as (g0 & Hg0 & _ & _ & ->).
    by apply Hkeys.
Qed.

Lemma genes_ok_snoc (m : gmap Z nat) (gs : list Gene.t) (g : Gene.t) :
  genes_ok m gs -> genes_ok (<[Gene.id g := length gs]> m) (gs ++ [g]).
Proof.
  intros [Hrefs Hkeys]. split.
  - intros id k Hk. destruct (decide (Gene.id g = id)) as [<-|Hne].
    + rewrite lookup_insert_eq in Hk. injection Hk as <-.
      exists g. split; [|done]. by rewrite list_lookup_middle.
    + rewrite lookup_insert_ne in Hk by done.
      destruct (Hrefs id k Hk) as (g0 & Hg0 & Hid).
      exists g0. split; [by apply lookup_app_l_Some|done].
  - intros g0 Hg0. destruct (decide (Gene.id g = Gene.id g0)) as [<-|Hne].
    + rewrite lookup_insert_eq. by eexists.
    + rewrite lookup_insert_ne by done.
      apply elem_of_app in Hg0 as [Hg0|Hg0]; [by apply Hkeys|].
      apply list_elem_of_singleton in Hg0. by subst.
Qed.

Lemma nodes_ok_snoc (m : gmap Z Node.t) (ns : list Node.t) (n : Node.t) :
  nodes_ok m ns -> nodes_ok (<[Node.id n := n]> m) (ns ++ [n]).
Proof.
  intros [Hrefs Hkeys]. split.
  - intros id n0 Hn0. destruct (decide (Node.id n = id)) as [<-|Hne].
    + rewrite lookup_insert_eq in Hn0. injection Hn0 as <-.
      split; [|done]. apply elem_of_app. right. left.
    + rewrite lookup_insert_ne in Hn0 by done.
      destruct (Hrefs id n0 Hn0) as [Hin Hid].
      split; [|done]. apply elem_of_app. by left.
  - intros n0 Hn0. destruct (decide (Node.id n = Node.id n0)) as [<-|Hne].
    + rewrite lookup_insert_eq. by eexists.
    + rewrite lookup_insert_ne by done.
      apply elem_of_app in Hn0 as [Hn0|Hn0]; [by apply Hkeys|].
      apply list_elem_of_singleton in Hn0. by subst.
Qed.

Lemma genes_ok_index (pre gs : list Gene.t) (m : gmap Z nat) :
  genes_ok m pre -> genes_ok (Genome.index_genes (length pre) gs m) (pre ++ gs).
Proof.
  revert pre m. induction gs as [|g gs IH]; intros pre m Hok.
  - by rewrite app_nil_r.
  - cbn [Genome.index_genes].
    replace (pre ++ g :: gs) with ((pre ++ [g]) ++ gs) by by rewrite <- app_assoc.
    replace (S (length pre)) with (length (pre ++ [g])) by (rewrite length_app; cbn; lia).
    apply IH. by apply genes_ok_snoc.
Qed.

Lemma nodes_ok_index (pre ns : list Node.t) (m : gmap Z Node.t) :
  nodes_ok m pre -> nodes_ok (Genome.index_nodes ns m) (pre ++ ns).
Proof.
  revert pre m. induction ns as [|n ns IH]; intros pre m Hok.
  - by rewrite app_nil_r.
  - cbn [Genome.index_nodes].
    replace (pre ++ n :: ns) with ((pre ++ [n]) ++ ns) by by rewrite <- app_assoc.
    apply IH. by apply nodes_ok_snoc.
Qed.

Lemma dicts_by_id_ok (gs : list Gene.t) (ns : list Node.t) :
  genes_ok (Genome.dicts_by_id gs ns).1 gs /\ nodes_ok (Genome.dicts_by_id gs ns).2 ns.
Proof.
  split.
  - apply (genes_ok_index [] gs ∅). split; [intros id i H|intros g H].
    + by rewrite lookup_empty in H.
    + by apply elem_of_nil in H.
  - apply (nodes_ok_index [] ns ∅). split; [intros id i H|intros g H].
    + by rewrite lookup_empty in H.
    + by apply elem_of_nil in H.
Qed.

(** Among gene objects with distinct ids, an id names one object. *)
Lemma gene_of_id_unique (gs : list Gene.t) (g g' : Gene.t) :
  NoDup (Gene.id <$> gs) -> g ∈ gs -> g' ∈ gs -> Gene.id g = Gene.id g' -> g = g'.
Proof.
  induction gs as [|m gs IH]; intros Hnd Hg Hg' Hid; [by apply elem_of_nil in Hg|].
  rewrite fmap_cons in Hnd. apply NoDup_cons in Hnd as [Hm Hnd].
  apply elem_of_cons in Hg as [->|Hg]; apply elem_of_cons in Hg' as [->|Hg'].
  - done.
  - exfalso. apply Hm. rewrite Hid. apply list_elem_of_fmap. by exists g'.
  - exfalso. apply Hm. rewrite <- Hid. apply list_elem_of_fmap. by exists g.
  - by apply IH.
Qed.

Section by_id.
Context {imports : Imported}.

(** X9: a genome built by [__init__] or returned by [load] has identity maps
    that agree with its lists: every entry refers to an object of the list
    with that id and every id of the list is a key. *)
Theorem by_id_ok_established :
  (forall opt nodes_and_genes ns gs trained reward acc net_parameters loss no_change d
          (self : Genome.t),
      Genome.init opt nodes_and_genes ns gs trained reward acc net_parameters loss
        no_change d = Some self ->
      by_id_ok self)
  /\ (forall (save : list Genome.Value) (load_params : bool) (self self' : Genome.t),
        Genome.load save load_params self = inr self' -> by_id_ok self').
Proof.
  split.
  - intros opt nodes_and_genes ns gs trained reward acc net_parameters loss no_change d self.
    unfold Genome.init.
    destruct (match ns, gs with Some _, Some _ => _ | _, _ => _ end) as [[ns' gs']|]; [|done].
    cbn. intros [= <-]. apply dicts_by_id_ok.
  - intros save load_params self self'. unfold Genome.load.
    destruct (Genome.unpack save self) as [?|u]; [done|]. cbn.
    destruct (Genome.u_acc u); [done|]. cbn.
    destruct (Genome.u_loss u); [done|]. cbn.
    destruct (Genome.u_trained u); [done|]. cbn.
    destruct (Genome.u_no_change u); [done|]. cbn.
    destruct (Genome.u_reward u); [done|]. cbn.
    destruct (Genome.u_net_parameters u); [done|]. cbn.
    destruct (Genome.as_optimizer _); [done|]. cbn.
    destruct (Genome.as_nodes _) as [?|ns]; [done|]. cbn.
    destruct (Genome.as_genes _) as [?|gs]; [done|]. cbn.
    intros [= <-]. apply dicts_by_id_ok.
Qed.

Lemma nodes_by_id_lookup (self : Genome.t) (n : Node.t) :
  by_id_ok self -> NoDup (Node.id <$> Genome.nodes self) ->
  n ∈ Genome.nodes self -> Genome.nodes_by_id self !! Node.id n = Some n.
Proof.
  intros [_ [Hnrefs Hnkeys]] Hnd Hn.
  destruct (Hnkeys n Hn) as [n' Hn']. rewrite Hn'. f_equal.
  destruct (Hnrefs _ _ Hn') as [Hin Hid].
  by eapply node_of_id_unique.
Qed.

(** X10: in a genome whose identity maps agree with its lists, looking up
    the id of a gene (of a node) of the list returns that very object,
    provided the ids in the list are distinct. *)
Theorem by_id_lookup (self : Genome.t) :
  by_id_ok self ->
  (NoDup (Gene.id <$> Genome.genes self) ->
   forall g, g ∈ Genome.genes self -> Genome.gene_by_id self (Gene.id g) = Some g)
  /\ (NoDup (Node.id <$> Genome.nodes self) ->
      forall n, n ∈ Genome.nodes self -> Genome.nodes_by_id self !! Node.id n = Some n).
Proof.
  intros Hok. pose proof Hok as [[Hgrefs Hgkeys] _]. split.
  - intros Hnd g Hg. unfold Genome.gene_by_id.
    destruct (Hgkeys g Hg) as [i Hi]. rewrite Hi. cbn.
    destruct (Hgrefs _ _ Hi) as (g' & Hg' & Hid). rewrite Hg'. f_equal.
    eapply gene_of_id_unique; [done| |done|done].
    by eapply list_elem_of_lookup_2.
  - intros Hnd n Hn. by apply nodes_by_id_lookup.
Qed.
End by_id.

(** ** Bookkeeping of [split_edge] and [add_edge] *)

Section bookkeeping.
Context {imports : Imported}.

(** X11: the bookkeeping of a split.  The appended node and genes carry the
    ids and the depth that the cache holds for the split edge afterwards.
    If the edge was already in the cache, cache and generator are as
    before; otherwise the three ids are the next three of the generator,
    in the order node, copy, successor, and the entry is saved.  The node
    and the genes are entered in the identity maps, the new genes are
    enabled, and the other fields of the genome are untouched. *)
Theorem split_edge_bookkeeping (d : Genome.SplitDraws) (cache cache' : gmap Z Innovation)
    (gen gen' : Z) (self self' : Genome.t) (i : nat) (edge : Gene.t) :
  selected_edge (Genome.sd_edge d) self = Some (i, edge) ->
  Genome.split_edge d cache gen self = inr (self', cache', gen') ->
  exists n a b,
    Genome.nodes self' = Genome.nodes self ++ [n]
    /\ Genome.genes self'
       = alter (Gene.set_enabled false) i (Genome.genes self) ++ [a; b]
    /\ cache' !! Gene.id edge = Some (Node.id n, Gene.id a, Gene.id b, Node.depth n)
    /\ match cache !! Gene.id edge with
       | Some _ => cache' = cache /\ gen' = gen
       | None =>
           Node.id n = gen /\ Gene.id a = gen + 1 /\ Gene.id b = gen + 2
           /\ gen' = gen + 3
           /\ cache' = <[Gene.id edge := (gen, gen + 1, gen + 2, Node.depth n)]> cache
       end
    /\ Genome.nodes_by_id self' = <[Node.id n := n]> (Genome.nodes_by_id self)
    /\ Genome.genes_by_id self'
       = <[Gene.id b := S (length (Genome.genes self))]>
           (<[Gene.id a := length (Genome.genes self)]> (Genome.genes_by_id self))
    /\ Gene.enabled a = true /\ Gene.enabled b = true
    /\ Gene.payload a = Gene.payload (Gene.copy (Genome.sd_copy d) edge 0 0 0)
    /\ Node.role n = None
    /\ Genome.optimizer self' = Genome.optimizer self
    /\ Genome.net_parameters self' = Genome.net_parameters self
    /\ Genome.acc self' = Genome.acc self
    /\ Genome.loss self' = Genome.loss self
    /\ Genome.trained self' = Genome.trained self
    /\ Genome.no_change self' = Genome.no_change self
    /\ Genome.reward self' = Genome.reward self.
Proof.
  intros Hsel Hsplit.
  destruct (split_edge_returns_endpoints _ _ _ _ _ _ _ Hsel Hsplit)
    as (n_in & n_out & Hin & Hout).
  destruct (split_edge_result d cache gen self i edge n_in n_out Hsel Hin Hout)
    as (id1 & id2 & id3 & depth & c & g & cls & Hinn & Hres).
  rewrite Hres in Hsplit. injection Hsplit as <- <- <-.
  eexists _, _, _. split; [reflexivity|]. split; [reflexivity|].
  split; [by eapply innovation_saved|].
  split.
  { unfold Genome.innovation in Hinn.
    destruct (cache !! Gene.id edge) as [entry|].
    - by injection Hinn as _ <- <-.
    - cbn in Hinn.
      replace (gen + 1 + 1 + 1) with (gen + 3) in Hinn by lia.
      replace (gen + 1 + 1) with (gen + 2) in Hinn by lia.
      injection Hinn as <- <- <- <- <- <-. cbn. by repeat split. }
  by repeat split.
Qed.

(** The genome and generator that [add_edge] returns. *)
Lemma add_edge_loop_result (d : Genome.AddDraws) (tries : nat) (gen : Z) (self : Genome.t) :
  (2 <= length (Genome.nodes self))%nat ->
  exists self' gen',
    Genome.add_edge_loop d tries gen self = inr (self', gen')
    /\ (self' = self /\ gen' = gen
        \/ exists cls n1 n2,
             n1 ∈ Genome.nodes self /\ n2 ∈ Genome.nodes self
             /\ (Node.depth n1 < Node.depth n2)%Q
             /\ ((Node.id n1, Node.id n2) ∉ Genome.endpoints (Genome.genes self))
             /\ gen' = gen + 1
             /\ self' = Genome.mk (Genome.optimizer self) (Genome.nodes self)
                          (Genome.genes self
                           ++ [Gene.construct cls (Genome.ad_init d) gen
                                 (Node.id n1) (Node.id n2)])
                          (<[gen := length (Genome.genes self)]> (Genome.genes_by_id self))
                          (Genome.nodes_by_id self) (Genome.net_parameters self)
                          (Genome.acc self) (Genome.loss self) (Genome.trained self)
                          (Genome.no_change self) (Genome.reward self)).
Proof.
  intros Hlen. induction tries as [|tries IH].
  - exists self, gen. split; [done|]. by left.
  - cbn [Genome.add_edge_loop].
    destruct (sample2_is_Some (Genome.ad_sample d (S tries)) _ Hlen) as [[a b] Hs].
    rewrite Hs. apply sample2_elem_of in Hs as [Ha Hb].
    assert (Hord : exists n1 n2,
               (if negb (Qle_bool (Node.depth a) (Node.depth b)) then (b, a) else (a, b))
               = (n1, n2)
               /\ n1 ∈ Genome.nodes self /\ n2 ∈ Genome.nodes self
               /\ (Node.depth n1 <= Node.depth n2)%Q).
    { destruct (Qle_bool (Node.depth a) (Node.depth b)) eqn:Hle; cbn.
      - exists a, b. apply Qle_bool_iff in Hle. done.
      - exists b, a. repeat split; [done|done|].
        apply Qlt_le_weak, Qnot_le_lt. intros H. apply Qle_bool_iff in H. congruence. }
    destruct Hord as (n1 & n2 & -> & Hn1 & Hn2 & Hle).
    destruct (Qeq_bool (Node.depth n1) (Node.depth n2)
              || bool_decide ((Node.id n1, Node.id n2) ∈ Genome.endpoints (Genome.genes self)))
      eqn:Hrej; [exact IH|].
    apply orb_false_iff in Hrej as [Hne Hnew].
    apply bool_decide_eq_false in Hnew.
    cbn [Genome.next_id].
    change (weighted_choice (Genome.ad_class d) [KernelGeneC; PoolGeneC; DenseGeneC] [1; 1; 1])
      with (choice (Genome.ad_class d) [KernelGeneC; PoolGeneC; DenseGeneC]).
    destruct (choice_is_Some (Genome.ad_class d) [KernelGeneC; PoolGeneC; DenseGeneC])
      as [cls ->]; [done|].
    eexists _, _. split; [reflexivity|]. right.
    exists cls, n1, n2. repeat split; try done.
    apply Qle_lteq in Hle as [Hlt|Heq]; [done|].
    apply Qeq_bool_iff in Heq. congruence.
Qed.

Lemma add_edge_cases (d : Genome.AddDraws) (gen gen' : Z) (self self' : Genome.t) :
  Genome.add_edge d gen self = inr (self', gen') ->
  self' = self /\ gen' = gen
  \/ exists cls n1 n2,
       n1 ∈ Genome.nodes self /\ n2 ∈ Genome.nodes self
       /\ (Node.depth n1 < Node.depth n2)%Q
       /\ gen' = gen + 1
       /\ self' = Genome.mk (Genome.optimizer self) (Genome.nodes self)
                    (Genome.genes self
                     ++ [Gene.construct cls (Genome.ad_init d) gen
                           (Node.id n1) (Node.id n2)])
                    (<[gen := length (Genome.genes self)]> (Genome.genes_by_id self))
                    (Genome.nodes_by_id self) (Genome.net_parameters self)
                    (Genome.acc self) (Genome.loss self) (Genome.trained self)
                    (Genome.no_change self) (Genome.reward self).
Proof.
  unfold Genome.add_edge.
  destruct (Nat.leb_spec 2 (length (Genome.nodes self))) as [Hlen|_].
  - destruct (add_edge_loop_result d 5 gen self Hlen) as (s & g & Hadd & Hres).
    rewrite Hadd. intros [= <- <-].
    destruct Hres as [?|(cls & n1 & n2 & Hn1 & Hn2 & Hlt & _ & Hgen & Hself)];
      [by left|]. right. by exists cls, n1, n2.
  - intros [= <- <-]. by left.
Qed.

(** X12: [add_edge] never raises.  It returns the genome and the generator
    unchanged (always so with fewer than two nodes), or it has issued one
    id and appended one enabled gene with that id, entered in [genes_by_id],
    between two node objects of the genome of strictly increasing depth
    that no gene joined in that direction; nothing else is touched: no
    gene is removed or has its [enabled] flag assigned. *)
Theorem add_edge_result (d : Genome.AddDraws) (gen : Z) (self : Genome.t) :
  exists self' gen',
    Genome.add_edge d gen self = inr (self', gen')
    /\ (self' = self /\ gen' = gen
        \/ (2 <= length (Genome.nodes self))%nat
           /\ exists cls n1 n2,
                n1 ∈ Genome.nodes self /\ n2 ∈ Genome.nodes self
                /\ (Node.depth n1 < Node.depth n2)%Q
                /\ ((Node.id n1, Node.id n2) ∉ Genome.endpoints (Genome.genes self))
                /\ gen' = gen + 1
                /\ self' = Genome.mk (Genome.optimizer self) (Genome.nodes self)
                             (Genome.genes self
                              ++ [Gene.construct cls (Genome.ad_init d) gen
                                    (Node.id n1) (Node.id n2)])
                             (<[gen := length (Genome.genes self)]> (Genome.genes_by_id self))
                             (Genome.nodes_by_id self) (Genome.net_parameters self)
                             (Genome.acc self) (Genome.loss self) (Genome.trained self)
                             (Genome.no_change self) (Genome.reward self)).
Proof.
  unfold Genome.add_edge.
  destruct (Nat.leb_spec 2 (length (Genome.nodes self))) as [Hlen|_].
  - destruct (add_edge_loop_result d 5 gen self Hlen) as (self' & gen' & Hadd & Hres).
    exists self', gen'. split; [done|].
    destruct Hres as [?|?]; [by left|by right].
  - exists self, gen. split; [done|]. by left.
Qed.

(** X13: the mutation operators keep the identity maps in agreement with
    the lists: [split_edge], [add_edge], [mutate_disable_edge] and
    [enable_edge] each return a genome whose maps agree if they did. *)
Theorem by_id_ok_preserved (self : Genome.t) :
  by_id_ok self ->
  (forall d cache gen self' cache' gen',
      Genome.split_edge d cache gen self = inr (self', cache', gen') -> by_id_ok self')
  /\ (forall d gen self' gen',
        Genome.add_edge d gen self = inr (self', gen') -> by_id_ok self')
  /\ (forall fuel rs tries self',
        Genome.mutate_disable_edge fuel rs tries self = inr self' -> by_id_ok self')
  /\ (forall r, by_id_ok (Genome.enable_edge r self)).
Proof.
  intros [Hg Hn]. split; [|split; [|split]].
  - intros d cache gen self' cache' gen' Hsplit.
    destruct (split_edge_cases _ _ _ _ _ _ _ Hsplit)
      as [(_ & -> & _)|(i & edge & n_in & n_out & Hsel & Hin & Hout)]; [done|].
    destruct (split_edge_result d cache gen self i edge n_in n_out Hsel Hin Hout)
      as (id1 & id2 & id3 & depth & c & g & cls & _ & Hres).
    rewrite Hres in Hsplit. injection Hsplit as <- <- <-. split; cbn.
    + set (e1 := Gene.copy _ _ _ _ _). set (e2 := Gene.construct _ _ _ _ _).
      set (gs' := alter (Gene.set_enabled false) i (Genome.genes self)).
      replace (gs' ++ [e1; e2]) with ((gs' ++ [e1]) ++ [e2]) by by rewrite <- app_assoc.
      replace (S (length (Genome.genes self))) with (length (gs' ++ [e1]))
        by (unfold gs'; rewrite length_app, length_alter; cbn; lia).
      apply (genes_ok_snoc _ _ e2).
      replace (length (Genome.genes self)) with (length gs')
        by (unfold gs'; by rewrite length_alter).
      apply (genes_ok_snoc _ _ e1). by apply genes_ok_alter.
    + by apply (nodes_ok_snoc _ _ (Node.init id1 depth None None (Genome.sd_merge d))).
  - intros d gen self' gen' Hadd.
    destruct (add_edge_cases _ _ _ _ _ Hadd)
      as [[-> _]|(cls & n1 & n2 & _ & _ & _ & _ & ->)]; [done|].
    split; cbn; [|done].
    by apply (genes_ok_snoc _ _ (Gene.construct cls (Genome.ad_init d) gen _ _)).
  - intros fuel rs tries self' Hdis.
    destruct (mutate_disable_edge_assigns _ _ _ _ _ Hdis) as [->|[i ->]]; [done|].
    split; cbn; [by apply genes_ok_alter|done].
  - intros r.
    destruct (enable_edge_cases r self) as [[_ ->]|(i & edge & _ & _ & ->)]; [done|].
    split; cbn; [by apply genes_ok_alter|done].
Qed.
End bookkeeping.

(** ** Invariants along mutations *)

Section along.
Context {imports : Imported}.

(** X14: when every id in use (gene ids, node ids, ids saved in the cache)
    lies below the generator, it still does after [split_edge] and after
    [add_edge], and the generator never goes back; in particular the ids
    issued by a split that misses the cache are ids of no node and no gene
    of the genome. *)
Theorem ids_below_preserved (gen : Z) (self : Genome.t) (cache : gmap Z Innovation) :
  ids_below gen self cache ->
  (forall d self' cache' gen',
      Genome.split_edge d cache gen self = inr (self', cache', gen') ->
      gen <= gen' /\ ids_below gen' self' cache')
  /\ (forall d self' gen',
        Genome.add_edge d gen self = inr (self', gen') ->
        gen <= gen' /\ ids_below gen' self' cache)
  /\ (gen ∉ dom (Genome.nodes_by_id self))
  /\ (forall g, g ∈ Genome.genes self ->
        Gene.id g <> gen /\ Gene.id g <> gen + 1 /\ Gene.id g <> gen + 2).
Proof.
  intros (Hgenes & Hnodes & Hcache). split; [|split; [|split]].
  - intros d self' cache' gen' Hsplit.
    destruct (split_edge_cases _ _ _ _ _ _ _ Hsplit)
      as [(_ & -> & -> & ->)|(i & edge & n_in & n_out & Hsel & Hin & Hout)].
    { split; [lia|done]. }
    destruct (split_edge_result d cache gen self i edge n_in n_out Hsel Hin Hout)
      as (id1 & id2 & id3 & depth & c & g & cls & Hinn & Hres).
    rewrite Hres in Hsplit. injection Hsplit as <- <- <-.
    assert (Hnew : gen <= g /\ id1 < g /\ id2 < g /\ id3 < g
                   /\ forall k j1 j2 j3 dep,
                        c !! k = Some (j1, j2, j3, dep) -> j1 < g /\ j2 < g /\ j3 < g).
    { unfold Genome.innovation in Hinn.
      destruct (cache !! Gene.id edge) as [[[[j1 j2] j3] dep]|] eqn:Hentry.
      - injection Hinn as <- <- <- <- <- <-.
        destruct (Hcache _ _ _ _ _ Hentry) as (? & ? & ?).
        split; [lia|]. split; [done|]. split; [done|]. split; [done|]. exact Hcache.
      - cbn in Hinn. injection Hinn as <- <- <- <- <- <-.
        split; [lia|]. split; [lia|]. split; [lia|]. split; [lia|].
        intros k j1 j2 j3 dep H.
        destruct (decide (Gene.id edge = k)) as [<-|Hk].
        + rewrite lookup_insert_eq in H. injection H as <- <- <- <-. lia.
        + rewrite lookup_insert_ne in H by done.
          destruct (Hcache _ _ _ _ _ H) as (? & ? & ?). lia. }
    destruct Hnew as (Hle & H1 & H2 & H3 & Hc).
    split; [done|]. split; [|split; [|done]]; cbn.
    + intros e He. apply elem_of_app in He as [He|He].
      * apply elem_of_alter_enabled in He as (e0 & He0 & _ & _ & ->).
        specialize (Hgenes e0 He0). lia.
      * each_member He; subst e; cbn; lia.
    + intros k Hk. rewrite dom_insert_L in Hk.
      apply elem_of_union in Hk as [Hk|Hk].
      * apply elem_of_singleton in Hk. lia.
      * specialize (Hnodes k Hk). lia.
  - intros d self' gen' Hadd.
    destruct (add_edge_cases _ _ _ _ _ Hadd)
      as [[-> ->]|(cls & n1 & n2 & _ & _ & _ & -> & ->)].
    { split; [lia|done]. }
    split; [lia|]. split; [|split]; cbn.
    + intros e He. apply elem_of_app in He as [He|He].
      * specialize (Hgenes e He). lia.
      * apply list_elem_of_singleton in He. subst e. cbn. lia.
    + intros k Hk. specialize (Hnodes k Hk). lia.
    + intros k j1 j2 j3 dep H. destruct (Hcache _ _ _ _ _ H) as (? & ? & ?). lia.
  - intros Hin. specialize (Hnodes gen Hin). lia.
  - intros g Hg. specialize (Hgenes g Hg). lia.
Qed.

(** X15: a call of [split_edge] that selects an edge and brings a node
    whose id is not yet a key of [nodes_by_id] keeps a feed-forward genome
    feed-forward exactly when the depth it gives the new node lies strictly
    between the depths of the endpoints of the selected edge. *)
Theorem split_edge_keeps_feed_forward (d : Genome.SplitDraws)
    (cache cache' : gmap Z Innovation) (gen gen' : Z) (self self' : Genome.t)
    (i : nat) (edge : Gene.t) (n : Node.t) :
  feed_forward self ->
  selected_edge (Genome.sd_edge d) self = Some (i, edge) ->
  Genome.split_edge d cache gen self = inr (self', cache', gen') ->
  Genome.nodes self' = Genome.nodes self ++ [n] ->
  Genome.nodes_by_id self !! Node.id n = None ->
  feed_forward self'
  <-> (depth_of self (Gene.id_in edge) < Node.depth n
       < depth_of self (Gene.id_out edge))%Q.
Proof.
  intros Hff Hsel Hsplit Hnodes Hnew.
  destruct (split_edge_returns_endpoints _ _ _ _ _ _ _ Hsel Hsplit)
    as (n_in & n_out & Hin & Hout).
  destruct (split_edge_result d cache gen self i edge n_in n_out Hsel Hin Hout)
    as (id1 & id2 & id3 & depth & c & g & cls & Hinn & Hres).
  rewrite Hres in Hsplit. injection Hsplit as <- <- <-.
  cbn in Hnodes. apply app_inj_tail in Hnodes as [_ <-].
  set (new_node := Node.init id1 depth None None (Genome.sd_merge d)) in *.
  change (Node.id new_node) with id1 in Hnew.
  assert (Hne : forall k m, Genome.nodes_by_id self !! k = Some m -> id1 <> k).
  { intros k m Hk ->. congruence. }
  unfold depth_of. rewrite Hin, Hout. split.
  - intros Hff'. split.
    + destruct (Hff' (Gene.copy (Genome.sd_copy d) edge id2 (Gene.id_in edge) id1))
        as (k1 & k2 & Hk1 & Hk2 & Hlt).
      { cbn. apply elem_of_app. right. left. }
      cbn in Hk1, Hk2. rewrite lookup_insert_eq in Hk2.
      rewrite lookup_insert_ne in Hk1 by by eapply Hne. congruence.
    + destruct (Hff' (Gene.construct cls (Genome.sd_after d) id3 id1 (Gene.id_out edge)))
        as (k1 & k2 & Hk1 & Hk2 & Hlt).
      { cbn. apply elem_of_app. right. right. left. }
      destruct cls; cbn in Hk1, Hk2; rewrite lookup_insert_eq in Hk1;
        rewrite lookup_insert_ne in Hk2 by (by eapply Hne); congruence.
  - intros Hbetween e He. cbn in He |- *. apply elem_of_app in He as [He|He].
    + apply elem_of_alter_enabled in He as (e0 & He0 & -> & -> & _).
      destruct (Hff e0 He0) as (k1 & k2 & Hk1 & Hk2 & Hk).
      exists k1, k2. rewrite !lookup_insert_ne by by eapply Hne. done.
    + each_member He; subst e; cbn.
      * exists n_in, new_node. rewrite lookup_insert_eq.
        rewrite lookup_insert_ne by by eapply Hne. repeat split; [done|]. apply Hbetween.
      * exists new_node, n_out. rewrite lookup_insert_eq.
        rewrite lookup_insert_ne by by eapply Hne. repeat split; [done|]. apply Hbetween.
Qed.

(** X28: on an edge that is not in the cache, when the two float bounds of
    the cut-off are in order the depth that [split_edge] gives the new node
    lies within them, whatever the variate; it is then strictly between the
    depths of the endpoints if the bounds are. *)
Theorem split_edge_depth_within_cut (d : Genome.SplitDraws)
    (cache cache' : gmap Z Innovation) (gen gen' : Z) (self self' : Genome.t)
    (i : nat) (edge : Gene.t) (n_in n_out n : Node.t) :
  selected_edge (Genome.sd_edge d) self = Some (i, edge) ->
  Genome.nodes_by_id self !! Gene.id_in edge = Some n_in ->
  Genome.nodes_by_id self !! Gene.id_out edge = Some n_out ->
  cache !! Gene.id edge = None ->
  Genome.split_edge d cache gen self = inr (self', cache', gen') ->
  Genome.nodes self' = Genome.nodes self ++ [n] ->
  (Genome.cut_low (Node.depth n_in) (Node.depth n_out)
   <= Genome.cut_high (Node.depth n_in) (Node.depth n_out))%Q ->
  (Genome.cut_low (Node.depth n_in) (Node.depth n_out) <= Node.depth n
   <= Genome.cut_high (Node.depth n_in) (Node.depth n_out))%Q
  /\ ((Node.depth n_in < Genome.cut_low (Node.depth n_in) (Node.depth n_out))%Q ->
      (Genome.cut_high (Node.depth n_in) (Node.depth n_out) < Node.depth n_out)%Q ->
      (Node.depth n_in < Node.depth n < Node.depth n_out)%Q).
Proof.
  intros Hsel Hin Hout Hmiss Hsplit Hnodes Hcut.
  destruct (split_edge_result d cache gen self i edge n_in n_out Hsel Hin Hout)
    as (id1 & id2 & id3 & depth & c & g & cls & Hinn & Hres).
  rewrite Hres in Hsplit. injection Hsplit as <- <- <-.
  cbn in Hnodes. apply app_inj_tail in Hnodes as [_ <-]. cbn [Node.depth Node.init].
  unfold Genome.innovation in Hinn. rewrite Hmiss in Hinn. cbn in Hinn.
  injection Hinn as _ _ _ <- _ _.
  pose proof (new_depth_in_cut (Node.depth n_in) (Node.depth n_out) (Genome.sd_normal d) Hcut)
    as [Hlow Hhigh].
  split; [by split|]. intros H1 H2. split.
  - eapply Qlt_le_trans; [exact H1|exact Hlow].
  - eapply Qle_lt_trans; [exact Hhigh|exact H2].
Qed.

(** X16: [add_edge] keeps a genome feed-forward when the identity maps
    agree with the lists and the node ids are distinct. *)
Theorem add_edge_keeps_feed_forward (d : Genome.AddDraws) (gen gen' : Z)
    (self self' : Genome.t) :
  feed_forward self ->
  by_id_ok self ->
  NoDup (Node.id <$> Genome.nodes self) ->
  Genome.add_edge d gen self = inr (self', gen') ->
  feed_forward self'.
Proof.
  intros Hff Hok Hnd Hadd.
  destruct (add_edge_cases _ _ _ _ _ Hadd)
    as [[-> _]|(cls & n1 & n2 & Hn1 & Hn2 & Hlt & _ & ->)]; [done|].
  intros e He. cbn in He |- *. apply elem_of_app in He as [He|He]; [by apply Hff|].
  apply list_elem_of_singleton in He. subst e. cbn.
  exists n1, n2. by rewrite !(nodes_by_id_lookup self _ Hok Hnd).
Qed.
End along.

(** ** The invariants on the minimal genome *)

Lemma genome_of_by_id_ok (ns : list Node.t) (gs : list Gene.t) : by_id_ok (genome_of ns gs).
Proof. apply dicts_by_id_ok. Qed.

Lemma minimal_ids_below : ids_below 5 minimal_genome ∅.
Proof.
  split; [|split].
  - intros g Hg. cbn in Hg. each_member Hg; subst g; cbn; lia.
  - intros k Hk. apply elem_of_dom in Hk as [n Hn].
    destruct (proj1 (proj2 (genome_of_by_id_ok three_nodes
                              [dense_gene 3 0 1; dense_gene 4 1 2])) k n Hn) as [Hin <-].
    cbn in Hin. each_member Hin; subst n; cbn; lia.
  - intros k id1 id2 id3 depth H. by rewrite lookup_empty in H.
Qed.

Lemma split_edge_keeps_paths_witness :
  exists self' cache' gen',
    Genome.split_edge (first_edge_draws (1 # 2)) ∅ 5 minimal_genome
    = inr (self', cache', gen')
    /\ reach (Genome.genes minimal_genome) 0 2
    /\ reach (Genome.genes self') 0 2.
Proof.
  eexists _, _, _. split; [reflexivity|]. split; [exact minimal_reach|].
  exact (split_edge_keeps_paths (first_edge_draws (1 # 2)) ∅ 5 minimal_genome _ _ _ 0 2
           eq_refl minimal_reach).
Defined.

Lemma split_edge_bookkeeping_witness :
  exists self' cache' gen',
    selected_edge 0 minimal_genome = Some (0%nat, dense_gene 3 0 1)
    /\ Genome.split_edge (first_edge_draws (1 # 2)) ∅ 5 minimal_genome
       = inr (self', cache', gen')
    /\ exists n a b,
         Genome.nodes self' = Genome.nodes minimal_genome ++ [n]
         /\ Genome.genes self'
            = alter (Gene.set_enabled false) 0%nat (Genome.genes minimal_genome) ++ [a; b]
         /\ cache' !! 3 = Some (Node.id n, Gene.id a, Gene.id b, Node.depth n)
         /\ Node.id n = 5 /\ Gene.id a = 6 /\ Gene.id b = 7 /\ gen' = 8.
Proof.
  destruct (Genome.split_edge (first_edge_draws (1 # 2)) ∅ 5 minimal_genome)
    as [e|[[self' cache'] gen']] eqn:Hsplit; [discriminate Hsplit|].
  exists self', cache', gen'. split; [reflexivity|]. split; [reflexivity|].
  destruct (split_edge_bookkeeping (first_edge_draws (1 # 2)) ∅ cache' 5 gen'
              minimal_genome self' 0%nat (dense_gene 3 0 1) eq_refl Hsplit)
    as (n & a & b & Hn & Hg & Hc & Hm & _).
  exists n, a, b. change ((∅ : gmap Z Innovation) !! Gene.id (dense_gene 3 0 1))
    with (@None Innovation) in Hm.
  destruct Hm as (H1 & H2 & H3 & H4 & _).
  split; [exact Hn|]. split; [exact Hg|]. split; [exact Hc|].
  split; [exact H1|]. split; [exact H2|]. split; [exact H3|]. exact H4.
Defined.

(** A split whose selected edge leads to an unknown node raises [KeyError]. *)
Example split_edge_raises_KeyError :
  Genome.split_edge (first_edge_draws (1 # 2)) ∅ 5
    (genome_of three_nodes [dense_gene 3 0 9])
  = inl KeyError.
Proof. reflexivity. Qed.

Lemma by_id_lookup_witness :
  by_id_ok minimal_genome
  /\ NoDup (Gene.id <$> Genome.genes minimal_genome)
  /\ NoDup (Node.id <$> Genome.nodes minimal_genome)
  /\ Genome.gene_by_id minimal_genome 4 = Some (dense_gene 4 1 2)
  /\ Genome.nodes_by_id minimal_genome !! 2
     = Some (Node.mk 2 2 (Some role_output) upscale None).
Proof.
  assert (Hok : by_id_ok minimal_genome) by apply genome_of_by_id_ok.
  assert (Hg : NoDup (Gene.id <$> Genome.genes minimal_genome)).
  { by apply (bool_decide_unpack _). }
  assert (Hn : NoDup (Node.id <$> Genome.nodes minimal_genome)).
  { by apply (bool_decide_unpack _). }
  split; [exact Hok|]. split; [exact Hg|]. split; [exact Hn|]. split.
  - apply (proj1 (by_id_lookup minimal_genome Hok) Hg (dense_gene 4 1 2)).
    cbn. set_solver.
  - apply (proj2 (by_id_lookup minimal_genome Hok) Hn
             (Node.mk 2 2 (Some role_output) upscale None)).
    cbn. set_solver.
Defined.

Lemma by_id_ok_preserved_witness :
  by_id_ok minimal_genome
  /\ exists self' cache' gen',
       Genome.split_edge (first_edge_draws (1 # 2)) ∅ 5 minimal_genome
       = inr (self', cache', gen')
       /\ by_id_ok self'.
Proof.
  assert (Hok : by_id_ok minimal_genome) by apply genome_of_by_id_ok.
  split; [exact Hok|]. eexists _, _, _. split; [reflexivity|].
  exact (proj1 (by_id_ok_preserved minimal_genome Hok)
           (first_edge_draws (1 # 2)) ∅ 5 _ _ _ eq_refl).
Defined.

Lemma ids_below_preserved_witness :
  ids_below 5 minimal_genome ∅
  /\ exists self' cache' gen',
       Genome.split_edge (first_edge_draws (1 # 2)) ∅ 5 minimal_genome
       = inr (self', cache', gen')
       /\ 5 <= gen' /\ ids_below gen' self' cache'.
Proof.
  split; [exact minimal_ids_below|]. eexists _, _, _. split; [reflexivity|].
  exact (proj1 (ids_below_preserved 5 minimal_genome ∅ minimal_ids_below)
           (first_edge_draws (1 # 2)) _ _ _ eq_refl).
Defined.

Lemma split_edge_keeps_feed_forward_witness :
  exists self' cache' gen' n,
    feed_forward minimal_genome
    /\ selected_edge 0 minimal_genome = Some (0%nat, dense_gene 3 0 1)
    /\ Genome.split_edge (first_edge_draws (1 # 2)) ∅ 5 minimal_genome
       = inr (self', cache', gen')
    /\ Genome.nodes self' = Genome.nodes minimal_genome ++ [n]
    /\ Genome.nodes_by_id minimal_genome !! Node.id n = None
    /\ (feed_forward self'
        <-> (depth_of minimal_genome (Gene.id_in (dense_gene 3 0 1)) < Node.depth n
             < depth_of minimal_genome (Gene.id_out (dense_gene 3 0 1)))%Q).
Proof.
  eexists _, _, _, _.
  split; [exact minimal_feed_forward|]. split; [reflexivity|].
  split; [reflexivity|]. split; [reflexivity|]. split; [reflexivity|].
  exact (split_edge_keeps_feed_forward (first_edge_draws (1 # 2)) ∅ _ 5 _ minimal_genome _
           0%nat (dense_gene 3 0 1) _ minimal_feed_forward eq_refl eq_refl eq_refl eq_refl).
Defined.

Lemma split_edge_depth_within_cut_witness :
  exists self' cache' gen' n,
    selected_edge 0 minimal_genome = Some (0%nat, dense_gene 3 0 1)
    /\ Genome.nodes_by_id minimal_genome !! 0
       = Some (Node.mk 0 0 (Some role_input) upscale None)
    /\ Genome.nodes_by_id minimal_genome !! 1
       = Some (Node.mk 1 1 (Some role_flatten) upscale None)
    /\ (∅ : gmap Z Innovation) !! 3 = None
    /\ Genome.split_edge (first_edge_draws (1 # 2)) ∅ 5 minimal_genome
       = inr (self', cache', gen')
    /\ Genome.nodes self' = Genome.nodes minimal_genome ++ [n]
    /\ (Genome.cut_low 0 1 <= Genome.cut_high 0 1)%Q
    /\ (Genome.cut_low 0 1 <= Node.depth n <= Genome.cut_high 0 1)%Q
    /\ ((0 < Genome.cut_low 0 1)%Q -> (Genome.cut_high 0 1 < 1)%Q ->
        (0 < Node.depth n < 1)%Q).
Proof.
  assert (Hcut : (Genome.cut_low 0 1 <= Genome.cut_high 0 1)%Q)
    by (vm_compute; discriminate).
  eexists _, _, _, _.
  split; [reflexivity|]. split; [reflexivity|]. split; [reflexivity|].
  split; [reflexivity|]. split; [reflexivity|]. split; [reflexivity|].
  split; [exact Hcut|].
  exact (split_edge_depth_within_cut (first_edge_draws (1 # 2)) ∅ _ 5 _ minimal_genome _
           0%nat (dense_gene 3 0 1) (Node.mk 0 0 (Some role_input) upscale None)
           (Node.mk 1 1 (Some role_flatten) upscale None) _
           eq_refl eq_refl eq_refl eq_refl eq_refl eq_refl Hcut).
Defined.

Lemma add_edge_keeps_feed_forward_witness :
  feed_forward minimal_genome
  /\ by_id_ok minimal_genome
  /\ NoDup (Node.id <$> Genome.nodes minimal_genome)
  /\ exists self' gen',
       Genome.add_edge (Genome.mkAddDraws (fun _ => (0, 1)%nat) 2 (mkInitDraws 0 0 0)) 5
         minimal_genome = inr (self', gen')
       /\ feed_forward self'.
Proof.
  assert (Hok : by_id_ok minimal_genome) by apply genome_of_by_id_ok.
  assert (Hn : NoDup (Node.id <$> Genome.nodes minimal_genome)).
  { by apply (bool_decide_unpack _). }
  split; [exact minimal_feed_forward|]. split; [exact Hok|]. split; [exact Hn|].
  eexists _, _. split; [reflexivity|].
  exact (add_edge_keeps_feed_forward
           (Genome.mkAddDraws (fun _ => (0, 1)%nat) 2 (mkInitDraws 0 0 0)) 5 _
           minimal_genome _ minimal_feed_forward Hok Hn eq_refl).
Defined.

(** ** The identity maps in lockstep with the lists *)

Lemma index_genes_alter (b : bool) (k i : nat) (gs : list Gene.t) (m : gmap Z nat) :
  Genome.index_genes i (alter (Gene.set_enabled b) k gs) m = Genome.index_genes i gs m.
Proof.
  revert k i m. induction gs as [|g gs IH]; intros k i m; [done|].
  destruct k as [|k]; cbn; [done|apply IH].
Qed.

Lemma index_genes_snoc (i : nat) (gs : list Gene.t) (g : Gene.t) (m : gmap Z nat) :
  Genome.index_genes i (gs ++ [g]) m
  = <[Gene.id g := (i + length gs)%nat]> (Genome.index_genes i gs m).
Proof.
  revert i m. induction gs as [|g0 gs IH]; intros i m; cbn.
  - by rewrite Nat.add_0_r.
  - rewrite IH. by rewrite Nat.add_succ_r.
Qed.

Lemma index_nodes_snoc (ns : list Node.t) (n : Node.t) (m : gmap Z Node.t) :
  Genome.index_nodes (ns ++ [n]) m = <[Node.id n := n]> (Genome.index_nodes ns m).
Proof. revert m. induction ns as [|n0 ns IH]; intros m; cbn; [done|apply IH]. Qed.

Section lockstep.
Context {imports : Imported}.

Lemma dicts_exact_iff (self : Genome.t) :
  dicts_exact self
  <-> Genome.genes_by_id self = Genome.index_genes 0 (Genome.genes self) ∅
      /\ Genome.nodes_by_id self = Genome.index_nodes (Genome.nodes self) ∅.
Proof.
  unfold dicts_exact, Genome.dicts_by_id. split.
  - by intros [= -> ->].
  - by intros [-> ->].
Qed.

(** X17: the mutation operators update the identity maps in lockstep with
    the lists: if the maps are those that [dicts_by_id] builds from the
    lists, they still are after [split_edge], [add_edge],
    [mutate_disable_edge] and [enable_edge]. *)
Theorem dicts_in_lockstep (self : Genome.t) :
  dicts_exact self ->
  (forall d cache gen self' cache' gen',
      Genome.split_edge d cache gen self = inr (self', cache', gen') -> dicts_exact self')
  /\ (forall d gen self' gen',
        Genome.add_edge d gen self = inr (self', gen') -> dicts_exact self')
  /\ (forall fuel rs tries self',
        Genome.mutate_disable_edge fuel rs tries self = inr self' -> dicts_exact self')
  /\ (forall r, dicts_exact (Genome.enable_edge r self)).
Proof.
  intros Hex. pose proof Hex as [Hg Hn]%dicts_exact_iff.
  split; [|split; [|split]].
  - intros d cache gen self' cache' gen' Hsplit.
    destruct (split_edge_cases _ _ _ _ _ _ _ Hsplit)
      as [(_ & -> & _)|(i & edge & n_in & n_out & Hsel & Hin & Hout)]; [done|].
    destruct (split_edge_result d cache gen self i edge n_in n_out Hsel Hin Hout)
      as (id1 & id2 & id3 & depth & c & g & cls & _ & Hres).
    rewrite Hres in Hsplit. injection Hsplit as <- <- <-.
    apply dicts_exact_iff. cbn. split.
    + set (e1 := Gene.copy _ _ _ _ _). set (e2 := Gene.construct _ _ _ _ _).
      replace (alter (Gene.set_enabled false) i (Genome.genes self) ++ [e1; e2])
        with ((alter (Gene.set_enabled false) i (Genome.genes self) ++ [e1]) ++ [e2])
        by by rewrite <- app_assoc.
      rewrite !index_genes_snoc, index_genes_alter, Hg.
      rewrite length_app, length_alter. cbn.
      by replace (length (Genome.genes self) + 1)%nat with (S (length (Genome.genes self)))
        by lia.
    + by rewrite index_nodes_snoc, Hn.
  - intros d gen self' gen' Hadd.
    destruct (add_edge_cases _ _ _ _ _ Hadd)
      as [[-> _]|(cls & n1 & n2 & _ & _ & _ & _ & ->)]; [done|].
    apply dicts_exact_iff. cbn. split; [|done].
    by rewrite index_genes_snoc, Hg.
  - intros fuel rs tries self' Hdis.
    destruct (mutate_disable_edge_assigns _ _ _ _ _ Hdis) as [->|[i ->]]; [done|].
    apply dicts_exact_iff. cbn. split; [|done]. by rewrite index_genes_alter.
  - intros r.
    destruct (enable_edge_cases r self) as [[_ ->]|(i & edge & _ & _ & ->)]; [done|].
    apply dicts_exact_iff. cbn. split; [|done]. by rewrite index_genes_alter.
Qed.

(** Maps built by [dicts_by_id] agree with the lists. *)
Lemma dicts_exact_by_id_ok (self : Genome.t) : dicts_exact self -> by_id_ok self.
Proof.
  intros [Hg Hn]%dicts_exact_iff. unfold by_id_ok. rewrite Hg, Hn.
  apply (dicts_by_id_ok (Genome.genes self) (Genome.nodes self)).
Qed.
End lockstep.

Lemma dicts_in_lockstep_witness :
  dicts_exact minimal_genome
  /\ exists self' cache' gen',
       Genome.split_edge (first_edge_draws (1 # 2)) ∅ 5 minimal_genome
       = inr (self', cache', gen')
       /\ dicts_exact self'.
Proof.
  assert (Hex : dicts_exact minimal_genome) by reflexivity.
  split; [exact Hex|]. eexists _, _, _. split; [reflexivity|].
  exact (proj1 (dicts_in_lockstep minimal_genome Hex)
           (first_edge_draws (1 # 2)) ∅ 5 _ _ _ eq_refl).
Defined.

(** ** Saving and loading *)

Section round_trip.
Context {imports : Imported} {imports_save : ImportedSave}.

Lemma fmap_undo {A B : Type} (f : A -> B) (g : B -> A) (l : list A) :
  (forall x, x ∈ l -> g (f x) = x) -> g <$> (f <$> l) = l.
Proof.
  induction l as [|x l IH]; intros H; [done|].
  cbn. rewrite H by left. f_equal. apply IH. intros y Hy. apply H. by right.
Qed.

(** X18: loading what [save] wrote gives the genome back.  For a genome
    whose identity maps are those of [dicts_by_id] and on whose optimizer,
    nodes and genes the imported [load] undoes the imported [save]:
    [load(save())] into any genome is the saved genome; loading it with
    [load_params=False], or loading [save(parameters=False)], gives the
    saved genome with [net_parameters] set to [None]. *)
Theorem load_save_round_trip (self other : Genome.t) :
  dicts_exact self ->
  load_undoes_save self ->
  Genome.load (save true self) true other = inr self
  /\ Genome.load (save true self) false other = inr (with_net_parameters None self)
  /\ (forall load_params,
        Genome.load (save false self) load_params other
        = inr (with_net_parameters None self)).
Proof.
  intros Hex (Hopt & Hnodes & Hgenes).
  apply dicts_exact_iff in Hex as [Hg Hn].
  assert (Hns : (fun node : Z * Q * NodeState => Node_load node.1.1 node.1.2 node.2)
                  <$> ((fun node => (Node.id node, Node.depth node, Node_save node))
                         <$> Genome.nodes self) = Genome.nodes self)
    by (by apply fmap_undo).
  assert (Hgs : (fun g : GeneClass * Z * Z * Z * GeneState =>
                   Gene_load g.1.1.1.1 g.1.1.1.2 g.1.1.2 g.1.2 g.2)
                  <$> ((fun g => (class_of g, Gene.id g, Gene.id_in g, Gene.id_out g,
                                  Gene_save g)) <$> Genome.genes self) = Genome.genes self)
    by (by apply fmap_undo).
  destruct self as [opt ns gs gm nm np acc loss tr nc rw]. cbn in *. subst gm nm.
  unfold Genome.load, save, with_net_parameters. cbn.
  split; [|split; [|intros load_params]].
  - destruct acc, np; cbn; rewrite Hopt, Hns, Hgs; reflexivity.
  - destruct acc, np; cbn; rewrite Hopt, Hns, Hgs; reflexivity.
  - destruct acc, load_params; cbn; rewrite Hopt, Hns, Hgs; reflexivity.
Qed.
End round_trip.

Lemma load_save_round_trip_witness :
  dicts_exact minimal_genome_id
  /\ load_undoes_save (imports_save := identity_imports_save) minimal_genome_id
  /\ Genome.load (save (imports_save := identity_imports_save) true minimal_genome_id)
       true minimal_genome_id = inr minimal_genome_id
  /\ Genome.load (save (imports_save := identity_imports_save) true minimal_genome_id)
       false minimal_genome_id = inr (with_net_parameters None minimal_genome_id)
  /\ (forall load_params,
        Genome.load (save (imports_save := identity_imports_save) false minimal_genome_id)
          load_params minimal_genome_id
        = inr (with_net_parameters None minimal_genome_id)).
Proof.
  assert (Hex : dicts_exact minimal_genome_id) by reflexivity.
  assert (Hundo : load_undoes_save (imports_save := identity_imports_save) minimal_genome_id).
  { by repeat split. }
  split; [exact Hex|]. split; [exact Hundo|].
  exact (load_save_round_trip (imports_save := identity_imports_save)
           minimal_genome_id minimal_genome_id Hex Hundo).
Defined.

(** ** Construction *)

Lemma choice_singleton {A : Type} (r : nat) (x : A) : choice r [x] = Some x.
Proof. unfold choice. cbn [length]. by rewrite Nat.mod_1_r. Qed.

Lemma randrange_bounds (r : nat) (a b : Z) : a < b -> a <= randrange r a b < b.
Proof.
  intros Hab. unfold randrange.
  pose proof (Z.mod_pos_bound (Z.of_nat r) (b - a)). lia.
Qed.

(** X19: every genome built by [Genome(population)] is the minimal net:
    nodes 0, 1, 2 at depths 0, 1, 2 with roles input, flatten, output, and
    two enabled genes, 3 from 0 to 1, always a [KernelGene] (depth 1, width
    and height in [3, 6), stride 1, padding 0), and 4 from 1 to 2, always a
    [DenseGene] with a size change among -10..-5, 5..10.  It is
    feed-forward, node 2 is reachable from node 0, and its identity maps
    are those of [dicts_by_id]. *)
Theorem fresh_genome_minimal {imports : Imported} (opt : Optimizer)
    (d : Genome.InitGenomeDraws) :
  exists self k dn m0 m1 m2,
    Genome.fresh opt d = Some self
    /\ Genome.optimizer self = opt
    /\ Genome.nodes self
       = [Node.mk 0 0 (Some role_input) m0 None; Node.mk 1 1 (Some role_flatten) m1 None;
          Node.mk 2 2 (Some role_output) m2 None]
    /\ Genome.genes self
       = [Gene.mk 3 0 1 true (Gene.Kernel k); Gene.mk 4 1 2 true (Gene.Dense dn)]
    /\ KernelGene.depth k = 1 /\ KernelGene.stride k = 1 /\ KernelGene.padding k = 0
    /\ 3 <= KernelGene.width k < 6 /\ 3 <= KernelGene.height k < 6
    /\ DenseGene.size_change dn ∈ DenseGene.size_changes
    /\ feed_forward self
    /\ reach (Genome.genes self) 0 2
    /\ dicts_exact self.
Proof.
  unfold Genome.fresh, Genome.init, Genome.init_genome, Gene.mutate_random.
  change (weighted_choice (Genome.ig_class3 d) _ _)
    with (choice (Genome.ig_class3 d) [KernelGeneC]).
  change (weighted_choice (Genome.ig_class4 d) _ _)
    with (choice (Genome.ig_class4 d) [DenseGeneC]).
  rewrite !choice_singleton. cbn.
  eexists _, _, _, _, _, _. split; [reflexivity|]. cbn.
  split; [done|]. split; [done|]. split; [done|].
  split; [done|]. split; [done|]. split; [done|].
  split; [by apply randrange_bounds|]. split; [by apply randrange_bounds|].
  split.
  { unfold DenseGene.init, DenseGene.init_size_change. cbn [DenseGene.size_change py_or].
    destruct (choice_is_Some (draw1 (Genome.ig_init4 d)) DenseGene.size_changes) as [x Hx];
      [done|].
    rewrite Hx. cbn [default]. by eapply choice_elem_of. }
  split.
  { intros e He. cbn in He. each_member He; subst e; cbn.
    - eexists _, _. split; [reflexivity|]. split; [reflexivity|]. reflexivity.
    - eexists _, _. split; [reflexivity|]. split; [reflexivity|]. reflexivity. }
  split; [|reflexivity].
  eapply reach_step with (e := Gene.mk 3 0 1 true _); [left|done|done|].
  eapply reach_step with (e := Gene.mk 4 1 2 true _); [right; left|done|done|].
  apply reach_refl.
Qed.

(** X20: [next_id] issues consecutive ids: [k] successive calls return the
    [k] integers from the generator's state on, in order, so no id is
    issued twice, and leave the generator [k] further; the genomes are not
    touched. *)
Theorem Population_next_ids_consecutive (k : nat) (self : Population.t) :
  fst (Population.next_ids k self) = seqZ (Population.id_generator self) (Z.of_nat k)
  /\ NoDup (fst (Population.next_ids k self))
  /\ Population.id_generator (snd (Population.next_ids k self))
     = Population.id_generator self + Z.of_nat k
  /\ Population.genomes (snd (Population.next_ids k self)) = Population.genomes self.
Proof.
  assert (H : fst (Population.next_ids k self)
              = seqZ (Population.id_generator self) (Z.of_nat k)
              /\ Population.genomes (snd (Population.next_ids k self))
                 = Population.genomes self).
  { revert self. induction k as [|k IH]; intros self; [done|].
    cbn [Population.next_ids]. unfold Population.next_id.
    specialize (IH (Population.mk (Population.id_generator self + 1)
                      (Population.genomes self))).
    destruct (Population.next_ids k _) as [rest self'']. cbn in *.
    destruct IH as [-> ->]. split; [|done].
    rewrite Nat2Z.inj_succ, (seqZ_cons (Population.id_generator self)) by lia.
    replace (Z.pred (Z.succ (Z.of_nat k))) with (Z.of_nat k) by lia.
    by replace (Z.succ (Population.id_generator self))
      with (Population.id_generator self + 1) by lia. }
  destruct H as [Hids Hgen]. split; [done|]. split; [|split; [|done]].
  - rewrite Hids. apply NoDup_seqZ.
  - apply Population_next_ids_generator.
Qed.

(** ** Mutators of the gene classes *)

Lemma fold_mutations_invariant {A : Type} (P : A -> Prop) (mask : list bool)
    (ms : list (A -> A)) (x : A) :
  Forall (fun m => forall y, P y -> P (m y)) ms ->
  P x -> P (fold_left (fun g mutate => mutate g) (random_choices mask ms) x).
Proof.
  intros Hms.
  assert (Hsub : Forall (fun m => forall y, P y -> P (m y)) (random_choices mask ms)).
  { unfold random_choices. apply Forall_forall. intros m Hm.
    apply list_elem_of_fmap in Hm as [[m' b] [-> Hm]].
    apply list_elem_of_filter in Hm as [_ Hm].
    apply elem_of_zip_l in Hm. rewrite Forall_forall in Hms. by apply Hms. }
  clear Hms. revert x. induction Hsub as [|m l Hm _ IH]; intros x Hx; [done|].
  cbn. apply IH, Hm, Hx.
Qed.

(** X21: whatever mutators fire, [mutate_random] of a [KernelGene] leaves
    stride and padding as they are and keeps depth, width and height at
    least 1 if they were; [mutate_random] of a [PoolGene] keeps width and
    height at least 1 if they were and leaves a padding that is unchanged
    or at least 1. *)
Theorem mutate_random_keeps_sizes :
  (forall mask rs (self : KernelGene.t),
      KernelGene.stride (KernelGene.mutate_random mask rs self) = KernelGene.stride self
      /\ KernelGene.padding (KernelGene.mutate_random mask rs self) = KernelGene.padding self
      /\ (1 <= KernelGene.depth self -> 1 <= KernelGene.width self ->
          1 <= KernelGene.height self ->
          1 <= KernelGene.depth (KernelGene.mutate_random mask rs self)
          /\ 1 <= KernelGene.width (KernelGene.mutate_random mask rs self)
          /\ 1 <= KernelGene.height (KernelGene.mutate_random mask rs self)))
  /\ (forall mask rs (self : PoolGene.t),
        (PoolGene.padding (PoolGene.mutate_random mask rs self) = PoolGene.padding self
         \/ 1 <= PoolGene.padding (PoolGene.mutate_random mask rs self))
        /\ (1 <= PoolGene.width self -> 1 <= PoolGene.height self ->
            1 <= PoolGene.width (PoolGene.mutate_random mask rs self)
            /\ 1 <= PoolGene.height (PoolGene.mutate_random mask rs self))).
Proof.
  split.
  - intros mask rs self. unfold KernelGene.mutate_random.
    split; [|split].
    + apply (fold_mutations_invariant
               (fun g => KernelGene.stride g = KernelGene.stride self)); [|done].
      repeat first [apply List.Forall_nil | apply List.Forall_cons]; intros y Hy; exact Hy.
    + apply (fold_mutations_invariant
               (fun g => KernelGene.padding g = KernelGene.padding self)); [|done].
      repeat first [apply List.Forall_nil | apply List.Forall_cons]; intros y Hy; exact Hy.
    + intros Hd Hw Hh.
      apply (fold_mutations_invariant
               (fun g => 1 <= KernelGene.depth g /\ 1 <= KernelGene.width g
                         /\ 1 <= KernelGene.height g)); [|done].
      repeat first [apply List.Forall_nil | apply List.Forall_cons]; intros y (? & ? & ?); cbn; lia.
  - intros mask rs self. unfold PoolGene.mutate_random. split.
    + apply (fold_mutations_invariant
               (fun g => PoolGene.padding g = PoolGene.padding self
                         \/ 1 <= PoolGene.padding g)); [|by left].
      repeat first [apply List.Forall_nil | apply List.Forall_cons]; intros y Hy; cbn; try exact Hy. right. lia.
    + intros Hw Hh.
      apply (fold_mutations_invariant
               (fun g => 1 <= PoolGene.width g /\ 1 <= PoolGene.height g)); [|done].
      repeat first [apply List.Forall_nil | apply List.Forall_cons]; intros y (? & ?); cbn; lia.
Qed.

Lemma py_or_Some_nonzero (v d : Z) : v <> 0 -> py_or (Some v) d = v.
Proof. intros Hv. unfold py_or. by destruct (Z.eqb_spec v 0). Qed.

(** X22: [copy] goes through the constructor.  The copy of a gene carries
    the new id and endpoints and is enabled, whether or not the original
    is; its other fields are those of the original whenever none of the
    fields that the constructor reads with [or] is zero. *)
Theorem Gene_copy_fields (d : InitDraws) (self : Gene.t) (id id_in id_out : Z) :
  no_falsy_field (Gene.payload self) ->
  Gene.copy d self id id_in id_out = Gene.mk id id_in id_out true (Gene.payload self).
Proof.
  unfold Gene.copy. destruct self as [i0 i1 i2 en [k|p|dn]]; cbn.
  - intros (Hd & Hw & Hh & Hs). destruct k as [kd kw kh ks kp]. cbn in *.
    unfold KernelGene.copy, KernelGene.init. cbn -[py_or].
    rewrite ?py_or_Some_nonzero by assumption.
    by repeat match goal with H : ?v <> 0 |- _ => rewrite (proj2 (Z.eqb_neq v 0) H) end.
  - intros (Hw & Hh). destruct p as [pp pw ph ppad]. cbn in *.
    unfold PoolGene.copy, PoolGene.init. cbn -[py_or].
    rewrite ?py_or_Some_nonzero by assumption.
    by repeat match goal with H : ?v <> 0 |- _ => rewrite (proj2 (Z.eqb_neq v 0) H) end.
  - intros Hs. destruct dn as [ds da]. cbn in *.
    unfold DenseGene.copy, DenseGene.init. cbn -[py_or].
    rewrite ?py_or_Some_nonzero by assumption.
    by repeat match goal with H : ?v <> 0 |- _ => rewrite (proj2 (Z.eqb_neq v 0) H) end.
Qed.

Lemma Gene_copy_fields_witness :
  no_falsy_field (Gene.payload (Gene.set_enabled false (dense_gene 3 0 1)))
  /\ Gene.copy (mkInitDraws 0 0 0) (Gene.set_enabled false (dense_gene 3 0 1)) 7 0 6
     = Gene.mk 7 0 6 true (Gene.payload (Gene.set_enabled false (dense_gene 3 0 1))).
Proof.
  assert (H : no_falsy_field (Gene.payload (Gene.set_enabled false (dense_gene 3 0 1))))
    by (cbn; lia).
  split; [exact H|].
  exact (Gene_copy_fields (mkInitDraws 0 0 0) (Gene.set_enabled false (dense_gene 3 0 1))
           7 0 6 H).
Defined.

(** X23: a [DenseGene] whose [size_change] has become 0 is not copied
    faithfully: the constructor takes the 0 for a missing argument, and the
    copy gets a freshly drawn size change among -10..-5, 5..10, never 0.
    Mutations do lead to 0: from 5 the step -5 gives it. *)
Theorem DenseGene_copy_of_zero (rs ra : nat) (self : DenseGene.t) :
  DenseGene.size_change self = 0 ->
  DenseGene.size_change (DenseGene.copy rs ra self) ∈ DenseGene.size_changes
  /\ DenseGene.size_change (DenseGene.copy rs ra self) <> 0
  /\ DenseGene.copy rs ra self <> self
  /\ DenseGene.activation (DenseGene.copy rs ra self) = DenseGene.activation self.
Proof.
  intros Hz. unfold DenseGene.copy, DenseGene.init. rewrite Hz. cbn.
  unfold DenseGene.init_size_change.
  destruct (choice_is_Some rs DenseGene.size_changes) as [x Hx]; [done|].
  rewrite Hx. cbn. apply choice_elem_of in Hx.
  assert (Hx0 : x <> 0).
  { unfold DenseGene.size_changes in Hx. each_member Hx; subst x; lia. }
  split; [done|]. split; [done|]. split; [|done].
  intros Heq. apply (f_equal DenseGene.size_change) in Heq. cbn in Heq. congruence.
Qed.

Lemma DenseGene_copy_of_zero_witness :
  DenseGene.size_change (DenseGene.mutate_size_change 5 (DenseGene.mk 5 relu)) = 0
  /\ DenseGene.size_change
       (DenseGene.copy 0 0 (DenseGene.mutate_size_change 5 (DenseGene.mk 5 relu)))
     ∈ DenseGene.size_changes
  /\ DenseGene.size_change
       (DenseGene.copy 0 0 (DenseGene.mutate_size_change 5 (DenseGene.mk 5 relu))) <> 0
  /\ DenseGene.copy 0 0 (DenseGene.mutate_size_change 5 (DenseGene.mk 5 relu))
     <> DenseGene.mutate_size_change 5 (DenseGene.mk 5 relu)
  /\ DenseGene.activation
       (DenseGene.copy 0 0 (DenseGene.mutate_size_change 5 (DenseGene.mk 5 relu)))
     = DenseGene.activation (DenseGene.mutate_size_change 5 (DenseGene.mk 5 relu)).
Proof.
  split; [reflexivity|].
  exact (DenseGene_copy_of_zero 0 0 (DenseGene.mutate_size_change 5 (DenseGene.mk 5 relu))
           eq_refl).
Defined.

Lemma mutate_activation_other (r : nat) (self : DenseGene.t) :
  DenseGene.mutate_activation r self
  = DenseGene.mk (DenseGene.size_change self)
      match DenseGene.activation self with relu => tanh | tanh => relu end.
Proof.
  destruct self as [sc [|]]; unfold DenseGene.mutate_activation;
    cbn [DenseGene.activation DenseGene.size_change].
  - change (filter _ DenseGene.possible_activations) with [tanh].
    by rewrite choice_singleton.
  - change (filter _ DenseGene.possible_activations) with [relu].
    by rewrite choice_singleton.
Qed.

Lemma mutate_pooling_other (r : nat) (self : PoolGene.t) :
  PoolGene.mutate_pooling r self
  = PoolGene.mk match PoolGene.pooling self with pool_max => pool_avg | pool_avg => pool_max end
      (PoolGene.width self) (PoolGene.height self) (PoolGene.padding self).
Proof.
  destruct self as [[|] w h p]; unfold PoolGene.mutate_pooling;
    cbn [PoolGene.pooling PoolGene.width PoolGene.height PoolGene.padding].
  - change (filter _ PoolGene.possible_pooling) with [pool_avg].
    by rewrite choice_singleton.
  - change (filter _ PoolGene.possible_pooling) with [pool_max].
    by rewrite choice_singleton.
Qed.

Lemma mutate_merge_others (r : nat) (me : Merge) :
  exists x, choice r (filter (fun x => x <> me) Node.possible_merges) = Some x
            /\ x <> me /\ x ∈ Node.possible_merges.
Proof.
  destruct (choice_is_Some r (filter (fun x => x <> me) Node.possible_merges)) as [x Hx].
  { by destruct me. }
  exists x. split; [done|]. apply choice_elem_of in Hx.
  by apply list_elem_of_filter in Hx.
Qed.

(** X24: the mutators that redraw a choice always change it.
    [DenseGene.mutate_activation] and [PoolGene.mutate_pooling] switch to
    the other of the two values, so doing them twice restores the gene;
    [Node.mutate_merge] gives one of the four merges other than the current
    one and touches no other field. *)
Theorem choice_mutators_change :
  (forall r r' (self : DenseGene.t),
      DenseGene.activation (DenseGene.mutate_activation r self) <> DenseGene.activation self
      /\ DenseGene.mutate_activation r' (DenseGene.mutate_activation r self) = self)
  /\ (forall r r' (self : PoolGene.t),
        PoolGene.pooling (PoolGene.mutate_pooling r self) <> PoolGene.pooling self
        /\ PoolGene.mutate_pooling r' (PoolGene.mutate_pooling r self) = self)
  /\ (forall r (self : Node.t),
        Node.merge (Node_mutate_merge r self) <> Node.merge self
        /\ Node.merge (Node_mutate_merge r self) ∈ Node.possible_merges
        /\ Node.id (Node_mutate_merge r self) = Node.id self
        /\ Node.depth (Node_mutate_merge r self) = Node.depth self
        /\ Node.role (Node_mutate_merge r self) = Node.role self).
Proof.
  split; [|split].
  - intros r r' self. rewrite !mutate_activation_other. by destruct self as [sc [|]].
  - intros r r' self. rewrite !mutate_pooling_other. by destruct self as [[|] w h p].
  - intros r [i dp ro me sz]. unfold Node_mutate_merge.
    cbn [Node.merge Node.id Node.depth Node.role].
    destruct (mutate_merge_others r me) as (x & -> & Hne & Hin). done.
Qed.

(** ** Layers *)

Lemma insert_by_depth_perm (n : Node.t) (l : list Node.t) :
  insert_by_depth n l ≡ₚ n :: l.
Proof.
  induction l as [|m l IH]; [done|]. cbn.
  destruct (Qle_bool _ _); [done|]. rewrite IH. apply Permutation_swap.
Qed.

Lemma sorted_by_depth_perm (l : list Node.t) : sorted_by_depth l ≡ₚ l.
Proof.
  induction l as [|n l IH]; [done|]. cbn.
  rewrite insert_by_depth_perm. by rewrite IH.
Qed.

Lemma insert_by_depth_sorted (n : Node.t) (l : list Node.t) :
  StronglySorted by_depth l -> StronglySorted by_depth (insert_by_depth n l).
Proof.
  induction 1 as [|m l Hl IH Hm]; cbn.
  - constructor; [constructor|]. apply List.Forall_nil.
  - destruct (Qle_bool (Node.depth n) (Node.depth m)) eqn:Hle.
    + apply Qle_bool_iff in Hle. constructor; [by constructor|].
      apply List.Forall_cons; [exact Hle|].
      apply Forall_forall. intros x Hx. rewrite Forall_forall in Hm.
      unfold by_depth in *. eapply Qle_trans; [exact Hle|]. by apply Hm.
    + constructor; [exact IH|].
      apply Forall_forall. intros x Hx.
      rewrite insert_by_depth_perm in Hx. apply elem_of_cons in Hx as [->|Hx].
      * unfold by_depth. apply Qlt_le_weak, Qnot_le_lt. intros Hc.
        apply Qle_bool_iff in Hc. congruence.
      * rewrite Forall_forall in Hm. by apply Hm.
Qed.

Lemma sorted_by_depth_sorted (l : list Node.t) :
  StronglySorted by_depth (sorted_by_depth l).
Proof.
  induction l as [|n l IH]; cbn; [constructor|]. by apply insert_by_depth_sorted.
Qed.

Lemma sorted_split (l : list Node.t) (x y : Node.t) :
  StronglySorted by_depth l -> x ∈ l -> y ∈ l ->
  (Node.depth x < Node.depth y)%Q ->
  exists l1 l2 l3, l = l1 ++ x :: l2 ++ y :: l3.
Proof.
  intros Hs Hx Hy Hlt. induction Hs as [|a l Hl IH Ha]; [by apply elem_of_nil in Hx|].
  rewrite Forall_forall in Ha. unfold by_depth in Ha.
  apply elem_of_cons in Hx as [->|Hx]; apply elem_of_cons in Hy as [->|Hy].
  - by apply Qlt_irrefl in Hlt.
  - apply list_elem_of_split in Hy as (l2 & l3 & ->). by exists [], l2, l3.
  - specialize (Ha _ Hx). exfalso. by apply (Qlt_not_le _ _ Hlt).
  - destruct (IH Hx Hy) as (l1 & l2 & l3 & ->). by exists (a :: l1), l2, l3.
Qed.

Lemma group_step_unfold (genes : list Gene.t) (G : list (list Node.t)) (g : list Node.t)
    (c : list Z) (n : Node.t) :
  group_step genes (G, g, c) n
  = if bool_decide (Node.id n ∈ c) then (G ++ [g], [n], outs genes n)
    else (G, g ++ [n], c ++ outs genes n).
Proof. unfold group_step. by destruct (bool_decide _). Qed.

Lemma group_loop_concat (genes : list Gene.t) (ns : list Node.t) (st : Grouping) :
  concat (layers (group_loop genes ns st)) = concat (layers st) ++ ns.
Proof.
  revert st. induction ns as [|n ns IH]; intros st; cbn; [by rewrite app_nil_r|].
  unfold group_loop in IH. rewrite IH. destruct st as [[G g] c].
  rewrite group_step_unfold. unfold layers.
  destruct (bool_decide _); cbn; rewrite !concat_app; cbn;
    rewrite ?app_nil_r, <- ?app_assoc; done.
Qed.

Lemma group_loop_nonempty (genes : list Gene.t) (ns : list Node.t) (st : Grouping) :
  Forall (fun g => g <> []) st.1.1 -> (st.1.2 = [] -> st.2 = []) ->
  Forall (fun g => g <> []) (group_loop genes ns st).1.1
  /\ (ns <> [] -> (group_loop genes ns st).1.2 <> []).
Proof.
  revert st. induction ns as [|n ns IH]; intros st HG Hg; cbn; [done|].
  destruct st as [[G g] c]. cbn in HG, Hg.
  assert (Hstep : Forall (fun g => g <> []) (group_step genes (G, g, c) n).1.1
                  /\ (group_step genes (G, g, c) n).1.2 <> []).
  { rewrite group_step_unfold. case_bool_decide as Hin; cbn.
    - split; [|done]. apply Forall_app. split; [done|].
      apply List.Forall_cons; [|apply List.Forall_nil].
      intros ->. rewrite Hg in Hin by done. by apply elem_of_nil in Hin.
    - split; [done|]. by destruct g. }
  destruct Hstep as [HG' Hg'].
  destruct (IH (group_step genes (G, g, c) n) HG' ltac:(done)) as [H1 H2].
  split; [exact H1|]. intros _. destruct ns as [|m ns']; [exact Hg'|].
  by apply H2.
Qed.

Lemma layered_nil (genes : list Gene.t) : layered genes [].
Proof. intros pre n post Heq. by destruct pre. Qed.

Lemma layered_singleton (genes : list Gene.t) (n : Node.t) : layered genes [n].
Proof.
  intros pre m post Heq. destruct pre as [|p pre]; [apply not_elem_of_nil|].
  injection Heq as _ Heq. by destruct pre.
Qed.

Lemma layered_snoc (genes : list Gene.t) (g : list Node.t) (n : Node.t) :
  layered genes g -> Node.id n ∉ concat (outs genes <$> g) -> layered genes (g ++ [n]).
Proof.
  intros Hg Hn pre m post Heq.
  destruct post as [|x post _] using rev_ind.
  - apply app_inj_tail in Heq as [-> ->]. exact Hn.
  - change (pre ++ m :: post ++ [x]) with (pre ++ (m :: post) ++ [x]) in Heq.
    rewrite app_assoc in Heq. apply app_inj_tail in Heq as [-> _].
    by eapply Hg.
Qed.

Lemma group_loop_layered (genes : list Gene.t) (ns : list Node.t) (st : Grouping) :
  st.2 = concat (outs genes <$> st.1.2) ->
  Forall (layered genes) st.1.1 -> layered genes st.1.2 ->
  Forall (layered genes) (layers (group_loop genes ns st)).
Proof.
  revert st. induction ns as [|n ns IH]; intros st Hc HG Hg; cbn.
  - unfold layers. apply Forall_app. split; [done|].
    apply List.Forall_cons; [done|apply List.Forall_nil].
  - destruct st as [[G g] c]. cbn in Hc, HG, Hg. apply IH.
    + rewrite group_step_unfold. case_bool_decide; cbn; [by rewrite app_nil_r|].
      rewrite fmap_app, concat_app. cbn. by rewrite app_nil_r, Hc.
    + rewrite group_step_unfold. case_bool_decide; cbn; [|done].
      apply Forall_app. split; [done|].
      apply List.Forall_cons; [done|apply List.Forall_nil].
    + rewrite group_step_unfold. case_bool_decide as Hin; cbn.
      * apply layered_singleton.
      * apply layered_snoc; [done|]. by rewrite <- Hc.
Qed.

(** X25: [group_by] cuts the nodes, sorted by depth (nodes of equal depth
    in their order in [nodes]), into consecutive groups: concatenated, the
    groups are the sorted list, which is a permutation of [nodes] in
    ascending depth; no group is empty; and inside a group no node is the
    target of an enabled gene leaving a node placed before it in the
    group. *)
Theorem group_by_partition {imports : Imported} (self : Genome.t) :
  concat (group_by self) = sorted_by_depth (Genome.nodes self)
  /\ sorted_by_depth (Genome.nodes self) ≡ₚ Genome.nodes self
  /\ StronglySorted by_depth (sorted_by_depth (Genome.nodes self))
  /\ Forall (fun group => group <> []) (group_by self)
  /\ Forall (layered (Genome.genes self)) (group_by self).
Proof.
  pose proof (group_loop_concat (Genome.genes self) (sorted_by_depth (Genome.nodes self))
                ([], [], [])) as Hcat.
  destruct (group_loop_nonempty (Genome.genes self) (sorted_by_depth (Genome.nodes self))
              ([], [], [])) as [Hne _]; [apply List.Forall_nil|done|].
  pose proof (group_loop_layered (Genome.genes self) (sorted_by_depth (Genome.nodes self))
                ([], [], []) eq_refl (List.Forall_nil _) (layered_nil _)) as Hlay.
  unfold group_by.
  destruct (group_loop _ _ _) as [[G g] c]. unfold layers in *. cbn in *.
  split; [|split; [apply sorted_by_depth_perm|split; [apply sorted_by_depth_sorted|]]].
  - rewrite concat_app in Hcat. cbn in Hcat. rewrite app_nil_r in Hcat.
    destruct g as [|n g]; cbn.
    + by rewrite app_nil_r in Hcat.
    + rewrite concat_app. cbn. by rewrite app_nil_r.
  - destruct g as [|n g]; cbn.
    + split; [done|]. by apply Forall_app in Hlay as [? _].
    + split; [|done]. apply Forall_app. split; [done|].
      apply List.Forall_cons; [done|apply List.Forall_nil].
Qed.

Lemma group_loop_cons (genes : list Gene.t) (n : Node.t) (ns : list Node.t) (st : Grouping) :
  group_loop genes (n :: ns) st = group_loop genes ns (group_step genes st n).
Proof. reflexivity. Qed.

Lemma group_loop_app (genes : list Gene.t) (l1 l2 : list Node.t) (st : Grouping) :
  group_loop genes (l1 ++ l2) st = group_loop genes l2 (group_loop genes l1 st).
Proof. apply fold_left_app. Qed.

Lemma group_loop_places (genes : list Gene.t) (ns : list Node.t)
    (G : list (list Node.t)) (g : list Node.t) (c : list Z) :
  exists rest more,
    layers (group_loop genes ns (G, g, c)) = G ++ (g ++ rest) :: more
    /\ forall x, x ∈ ns -> x ∈ rest \/ exists gj, gj ∈ more /\ x ∈ gj.
Proof.
  revert G g c. induction ns as [|n ns IH]; intros G g c.
  - exists [], []. split; [by rewrite app_nil_r|]. intros x Hx. by apply elem_of_nil in Hx.
  - rewrite group_loop_cons, group_step_unfold. case_bool_decide.
    + destruct (IH (G ++ [g]) [n] (outs genes n)) as (rest & more & Heq & Hin).
      exists [], (([n] ++ rest) :: more). split.
      { rewrite Heq, app_nil_r, <- app_assoc. done. }
      intros x Hx. right. apply elem_of_cons in Hx as [->|Hx].
      * exists ([n] ++ rest). split; [left|]. apply elem_of_app. left. left.
      * destruct (Hin x Hx) as [Hr|(gj & Hgj & Hxj)].
        -- exists ([n] ++ rest). split; [left|]. apply elem_of_app. by right.
        -- exists gj. split; [by right|done].
    + destruct (IH G (g ++ [n]) (c ++ outs genes n)) as (rest & more & Heq & Hin).
      exists ([n] ++ rest), more. split.
      { rewrite Heq, <- app_assoc. done. }
      intros x Hx. apply elem_of_cons in Hx as [->|Hx].
      * left. apply elem_of_app. left. left.
      * destruct (Hin x Hx) as [Hr|Hm]; [|by right].
        left. apply elem_of_app. by right.
Qed.

Lemma group_loop_separates (genes : list Gene.t) (l2 l3 : list Node.t) (b : Node.t)
    (G : list (list Node.t)) (g : list Node.t) (c : list Z) :
  Node.id b ∈ c ->
  exists rest more gj,
    layers (group_loop genes (l2 ++ b :: l3) (G, g, c)) = G ++ (g ++ rest) :: more
    /\ gj ∈ more /\ b ∈ gj.
Proof.
  revert G g c. induction l2 as [|n l2 IH]; intros G g c Hb.
  - cbn [app]. rewrite group_loop_cons, group_step_unfold, bool_decide_true by done.
    destruct (group_loop_places genes l3 (G ++ [g]) [b] (outs genes b))
      as (rest & more & Heq & _).
    exists [], (([b] ++ rest) :: more), ([b] ++ rest). split; [|split; [left|]].
    + rewrite Heq, app_nil_r, <- app_assoc. done.
    + apply elem_of_app. left. left.
  - cbn [app]. rewrite group_loop_cons, group_step_unfold. case_bool_decide.
    + destruct (group_loop_places genes (l2 ++ b :: l3) (G ++ [g]) [n] (outs genes n))
        as (rest & more & Heq & Hin).
      exists [], (([n] ++ rest) :: more).
      destruct (Hin b) as [Hr|(gj & Hgj & Hbj)].
      { apply elem_of_app. right. left. }
      * exists ([n] ++ rest). split; [|split; [left|]].
        -- rewrite Heq, app_nil_r, <- app_assoc. done.
        -- apply elem_of_app. by right.
      * exists gj. split; [|split; [by right|done]].
        rewrite Heq, app_nil_r, <- app_assoc. done.
    + destruct (IH G (g ++ [n]) (c ++ outs genes n)) as (rest & more & gj & Heq & Hgj & Hbj).
      { apply elem_of_app. by left. }
      exists ([n] ++ rest), more, gj. split; [|done].
      rewrite Heq, <- app_assoc. done.
Qed.

(** X26: in a feed-forward genome whose identity maps agree with its
    lists, [group_by] puts the target of every enabled gene into a strictly
    later group than its source.  So a genome with an enabled gene has at
    least two groups, which is what [graph_positioning] needs for its
    division by [len(grouped_nodes) - 1]. *)
Theorem group_by_edges_forward {imports : Imported} (self : Genome.t) (e : Gene.t) :
  by_id_ok self -> feed_forward self ->
  e ∈ Genome.genes self -> Gene.enabled e = true ->
  (exists i j gi gj n1 n2,
      (i < j)%nat
      /\ group_by self !! i = Some gi /\ group_by self !! j = Some gj
      /\ n1 ∈ gi /\ n2 ∈ gj
      /\ Node.id n1 = Gene.id_in e /\ Node.id n2 = Gene.id_out e)
  /\ (2 <= length (group_by self))%nat.
Proof.
  intros [_ [Hnodes _]] Hff He Hen.
  destruct (Hff e He) as (a & b & Ha & Hb & Hlt).
  apply Hnodes in Ha as [Ha Hida]. apply Hnodes in Hb as [Hb Hidb].
  pose proof (sorted_by_depth_perm (Genome.nodes self)) as Hperm.
  rewrite <- Hperm in Ha, Hb.
  destruct (sorted_split _ a b (sorted_by_depth_sorted _) Ha Hb Hlt) as (l1 & l2 & l3 & Hsplit).
  assert (Hout : Node.id b ∈ outs (Genome.genes self) a).
  { unfold outs. apply list_elem_of_fmap. exists e. split; [done|].
    apply list_elem_of_filter. by rewrite Hida. }
  assert (Hlayers : exists Ga ga rest more gj,
             layers (group_loop (Genome.genes self) (sorted_by_depth (Genome.nodes self))
                       ([], [], []))
             = Ga ++ (ga ++ rest) :: more
             /\ a ∈ ga /\ gj ∈ more /\ b ∈ gj).
  { rewrite Hsplit, group_loop_app, group_loop_cons.
    destruct (group_loop _ l1 _) as [[G0 g0] c0].
    rewrite group_step_unfold. case_bool_decide.
    - destruct (group_loop_separates (Genome.genes self) l2 l3 b (G0 ++ [g0]) [a]
                  (outs (Genome.genes self) a) Hout) as (rest & more & gj & Heq & Hgj & Hbj).
      exists (G0 ++ [g0]), [a], rest, more, gj. split; [exact Heq|].
      split; [left|done].
    - destruct (group_loop_separates (Genome.genes self) l2 l3 b G0 (g0 ++ [a])
                  (c0 ++ outs (Genome.genes self) a)) as (rest & more & gj & Heq & Hgj & Hbj).
      { apply elem_of_app. by right. }
      exists G0, (g0 ++ [a]), rest, more, gj. split; [exact Heq|].
      split; [|done]. apply elem_of_app. right. left. }
  destruct Hlayers as (Ga & ga & rest & more & gj & Heq & Haa & Hgj & Hbj).
  assert (Hgroup : group_by self = Ga ++ (ga ++ rest) :: more).
  { rewrite <- Heq. unfold group_by.
    destruct (group_loop_nonempty (Genome.genes self) (sorted_by_depth (Genome.nodes self))
                ([], [], [])) as [_ Hne]; [apply List.Forall_nil|done|].
    destruct (group_loop _ _ _) as [[G g] c]. unfold layers. cbn in *.
    destruct g as [|n g]; [|done]. exfalso. apply Hne; [|done].
    rewrite Hsplit. by destruct l1. }
  apply list_elem_of_lookup in Hgj as [k Hk].
  split.
  - exists (length Ga), (length Ga + S k)%nat, (ga ++ rest), gj, a, b.
    split; [lia|]. rewrite Hgroup.
    split; [by rewrite list_lookup_middle|].
    split.
    { rewrite lookup_app_r by lia.
      replace (length Ga + S k - length Ga)%nat with (S k) by lia. exact Hk. }
    split; [apply elem_of_app; by left|]. done.
  - rewrite Hgroup, length_app. cbn. apply lookup_lt_Some in Hk. lia.
Qed.

Lemma group_by_edges_forward_witness :
  by_id_ok minimal_genome /\ feed_forward minimal_genome
  /\ dense_gene 3 0 1 ∈ Genome.genes minimal_genome
  /\ Gene.enabled (dense_gene 3 0 1) = true
  /\ ((exists i j gi gj n1 n2,
          (i < j)%nat
          /\ group_by minimal_genome !! i = Some gi /\ group_by minimal_genome !! j = Some gj
          /\ n1 ∈ gi /\ n2 ∈ gj
          /\ Node.id n1 = Gene.id_in (dense_gene 3 0 1)
          /\ Node.id n2 = Gene.id_out (dense_gene 3 0 1))
      /\ (2 <= length (group_by minimal_genome))%nat).
Proof.
  assert (H1 : by_id_ok minimal_genome) by apply genome_of_by_id_ok.
  assert (H3 : dense_gene 3 0 1 ∈ Genome.genes minimal_genome) by left.
  split; [exact H1|]. split; [exact minimal_feed_forward|]. split; [exact H3|].
  split; [reflexivity|].
  exact (group_by_edges_forward minimal_genome (dense_gene 3 0 1) H1 minimal_feed_forward
           H3 eq_refl).
Defined.

(** ** Identity maps of lists with repeated ids *)

Lemma index_genes_last (gs : list Gene.t) (i : nat) (m : gmap Z nat) (id : Z) (k : nat) :
  Genome.index_genes i gs m !! id = Some k ->
  (exists j g, k = (i + j)%nat /\ gs !! j = Some g /\ Gene.id g = id
               /\ forall j' g', (j < j')%nat -> gs !! j' = Some g' -> Gene.id g' <> id)
  \/ (m !! id = Some k /\ forall g, g ∈ gs -> Gene.id g <> id).
Proof.
  revert i m. induction gs as [|g gs IH]; intros i m Hk; cbn in Hk.
  - right. split; [done|]. intros g Hg. by apply elem_of_nil in Hg.
  - destruct (IH _ _ Hk) as [(j & g0 & -> & Hj & Hid & Hlast)|[Hm Hnone]].
    + left. exists (S j), g0. split; [lia|]. split; [done|]. split; [done|].
      intros [|j'] g' Hlt Hg'; [lia|]. apply (Hlast j' g'); [lia|done].
    + destruct (decide (Gene.id g = id)) as [Heq|Hne].
      * left. rewrite Heq, lookup_insert_eq in Hm. injection Hm as <-.
        exists 0%nat, g. split; [lia|]. split; [done|]. split; [done|].
        intros [|j'] g' Hlt Hg'; [lia|]. apply Hnone.
        apply list_elem_of_lookup. by exists j'.
      * right. rewrite lookup_insert_ne in Hm by done. split; [done|].
        intros g' Hg'. apply elem_of_cons in Hg' as [->|Hg']; [done|by apply Hnone].
Qed.

Lemma index_nodes_last (ns : list Node.t) (m : gmap Z Node.t) (id : Z) (n : Node.t) :
  Genome.index_nodes ns m !! id = Some n ->
  (exists j, ns !! j = Some n /\ Node.id n = id
             /\ forall j' n', (j < j')%nat -> ns !! j' = Some n' -> Node.id n' <> id)
  \/ (m !! id = Some n /\ forall n', n' ∈ ns -> Node.id n' <> id).
Proof.
  revert m. induction ns as [|x ns IH]; intros m Hn; cbn in Hn.
  - right. split; [done|]. intros n' Hn'. by apply elem_of_nil in Hn'.
  - destruct (IH _ Hn) as [(j & Hj & Hid & Hlast)|[Hm Hnone]].
    + left. exists (S j). split; [done|]. split; [done|].
      intros [|j'] n' Hlt Hn'; [lia|]. apply (Hlast j' n'); [lia|done].
    + destruct (decide (Node.id x = id)) as [Heq|Hne].
      * left. rewrite Heq, lookup_insert_eq in Hm. injection Hm as <-.
        exists 0%nat. split; [done|]. split; [done|].
        intros [|j'] n' Hlt Hn'; [lia|]. apply Hnone.
        apply list_elem_of_lookup. by exists j'.
      * right. rewrite lookup_insert_ne in Hm by done. split; [done|].
        intros n' Hn'. apply elem_of_cons in Hn' as [->|Hn']; [done|by apply Hnone].
Qed.

(** X27: when ids repeat, [dicts_by_id] keeps the last: the gene (node)
    that a map gives for an id is the one at the last position of the list
    that carries this id, so any earlier gene (node) with the same id is
    not reachable through the map. *)
Theorem dicts_by_id_last_wins (gs : list Gene.t) (ns : list Node.t) :
  (forall id k,
      (Genome.dicts_by_id gs ns).1 !! id = Some k ->
      exists g, gs !! k = Some g /\ Gene.id g = id
                /\ forall j g', (k < j)%nat -> gs !! j = Some g' -> Gene.id g' <> id)
  /\ (forall id n,
        (Genome.dicts_by_id gs ns).2 !! id = Some n ->
        exists k, ns !! k = Some n /\ Node.id n = id
                  /\ forall j n', (k < j)%nat -> ns !! j = Some n' -> Node.id n' <> id).
Proof.
  unfold Genome.dicts_by_id. cbn [fst snd]. split.
  - intros id k Hk.
    destruct (index_genes_last _ _ _ _ _ Hk) as [(j & g & -> & Hj & Hid & Hlast)|[Hm _]].
    + by exists g.
    + by rewrite lookup_empty in Hm.
  - intros id n Hn.
    destruct (index_nodes_last _ _ _ _ Hn) as [(j & Hj & Hid & Hlast)|[Hm _]].
    + by exists j.
    + by rewrite lookup_empty in Hm.
Qed.
